(** * LatentWall: job and stream orchestration layer

    A shallow embedding of the orchestration code of the repository:

    - [src/src/simulation_manager.py]: [SimulationScript],
      [SimulationManager] and [BatchProcessor];
    - [src/src/odyssey_client.py]: [OdysseyClientManager] and
      [quick_generate];
    - [src/backend/main.py]: [StreamManager];
    - [src/backend/odyssey_client.py]: [OdysseyClient];
    - [src/backend/speech/keyword_extractor.py]: [KeywordExtractor].

    Python coroutines are embedded as computations of a state and
    exception monad.  The external collaborators (the Odyssey client, the
    HTTP session, the event loop clock, the websockets) are scripted
    handles: records of functions giving the answer of every call. *)

From Stdlib Require Import ZArith QArith Ascii.
From stdpp Require Import base option numbers list strings gmap pretty.

Open Scope string_scope.

(** ** Exceptions and the coroutine monad *)

(** The exception classes the orchestration code raises or lets through.
    [CancelledError] derives from [BaseException] only, every other class
    derives from [Exception]. *)
Inductive exn_class : Type :=
  | TimeoutError
  | RuntimeError
  | TypeError
  | ValueError
  | JSONDecodeError
  | FileNotFoundError
  | AttributeError
  | OdysseyStreamError
  | ClientError
  | CancelledError.

Record exn : Type := Raised { exn_cls : exn_class; exn_msg : string }.

(** [isinstance(e, Exception)] *)
Definition is_Exception (e : exn) : bool :=
  match exn_cls e with
  | CancelledError => false
  | _ => true
  end.

(** [str(e)] *)
Definition str_exn (e : exn) : string := exn_msg e.

(** How a call ends: it returns, it raises, or (for a loop run with a
    bounded number of iterations) it is still running when the
    iterations are used up. *)
Inductive outcome (A : Type) : Type :=
  | Ret (a : A)
  | Exn (e : exn)
  | Fuel.
Arguments Ret {A} a.
Arguments Exn {A} e.
Arguments Fuel {A}.

(** A computation over a mutable store [St].  The store survives an
    exception, as the attributes of a Python object do. *)
Definition M (St A : Type) : Type := St -> outcome A * St.

Definition ret {St A} (a : A) : M St A := fun s => (Ret a, s).
Definition raise {St A} (e : exn) : M St A := fun s => (Exn e, s).
Definition bind {St A B} (c : M St A) (k : A -> M St B) : M St B :=
  fun s =>
    match c s with
    | (Ret a, s') => k a s'
    | (Exn e, s') => (Exn e, s')
    | (Fuel, s') => (Fuel, s')
    end.
Definition gets {St A} (f : St -> A) : M St A := fun s => (Ret (f s), s).
Definition modify {St} (f : St -> St) : M St unit := fun s => (Ret tt, f s).
Definition lift_outcome {St A} (o : outcome A) : M St A := fun s => (o, s).

Notation "'let*' x := c 'in' k" := (bind c (fun x => k))
  (at level 10, x name, c at level 200, k at level 200, only parsing).

(** [try: body except Exception as e: handler(e)]: only instances of
    [Exception] are caught. *)
Definition try_except {St A} (body : M St A) (handler : exn -> M St A)
  : M St A :=
  fun s =>
    match body s with
    | (Exn e, s') => if is_Exception e then handler e s' else (Exn e, s')
    | r => r
    end.

(** ** Python values and JSON documents *)

Local Set Warnings "-register-all".

(** The values an action dictionary holds.  A [dict] is kept as the list
    of its items in insertion order. *)
Inductive pyval : Type :=
  | PNone
  | PBool (b : bool)
  | PInt (z : Z)
  | PStr (s : string)
  | PBytes (b : string)
  | PList (l : list pyval)
  | PDict (items : list (string * pyval)).

(** The JSON data model: what a JSON text denotes. *)
Inductive json : Type :=
  | JNull
  | JBool (b : bool)
  | JNum (z : Z)
  | JStr (s : string)
  | JArr (l : list json)
  | JObj (members : list (string * json)).

(** [sys.get_int_max_str_digits()] as the interpreter starts (Python
    3.11 and later): [int.__repr__], with which the encoder writes an
    [int], raises [ValueError] for a number of more decimal digits. *)
Definition int_max_str_digits : Z := 4300.

Definition int_prints (z : Z) : bool :=
  (Z.abs z <? 10 ^ int_max_str_digits)%Z.
Arguments int_prints : simpl never.

(** The values of a list written one after the other: the first that
    cannot be written ends the writing. *)
Fixpoint dump_each {A B} (dump : A -> exn + B) (l : list A) : exn + list B :=
  match l with
  | [] => inr []
  | x :: rest =>
      match dump x with
      | inl e => inl e
      | inr y =>
          match dump_each dump rest with
          | inl e => inl e
          | inr ys => inr (y :: ys)
          end
      end
  end.

(** [json.dumps(v, indent=2)]: the document of the text, or the
    exception of the first value, in the order of the text, that the
    encoder cannot write.  The default encoder has no case for [bytes]
    and raises [TypeError]. *)
Fixpoint json_dumps (v : pyval) : exn + json :=
  match v with
  | PNone => inr JNull
  | PBool b => inr (JBool b)
  | PInt z =>
      if int_prints z then inr (JNum z)
      else inl (Raised ValueError
                  ("Exceeds the limit (4300 digits) for integer string "
                   +:+ "conversion; use sys.set_int_max_str_digits() to "
                   +:+ "increase the limit"))
  | PStr s => inr (JStr s)
  | PBytes _ =>
      inl (Raised TypeError "Object of type bytes is not JSON serializable")
  | PList l =>
      match dump_each json_dumps l with
      | inl e => inl e
      | inr docs => inr (JArr docs)
      end
  | PDict items =>
      match dump_each (fun kv => match json_dumps (snd kv) with
                                 | inl e => inl e
                                 | inr doc => inr (fst kv, doc)
                                 end) items with
      | inl e => inl e
      | inr members => inr (JObj members)
      end
  end.

(** [json.load] on a well-formed text: arrays become lists, objects
    become dicts. *)
Fixpoint json_load (j : json) : pyval :=
  match j with
  | JNull => PNone
  | JBool b => PBool b
  | JNum z => PInt z
  | JStr s => PStr s
  | JArr l => PList (map json_load l)
  | JObj ms => PDict (map (fun kv => (fst kv, json_load (snd kv))) ms)
  end.

(** ** [SimulationScript] *)

(** [self.actions], annotated [List[Dict[str, Any]]]; [from_file] stores
    whatever value the file holds. *)
Record SimulationScript : Type := { actions : pyval }.

(** [SimulationScript()] *)
Definition new_script : SimulationScript := {| actions := PList [] |}.

(** The [image] argument of [add_start]: [Optional[str | bytes]]. *)
Inductive image : Type :=
  | ImageStr (path : string)
  | ImageBytes (data : string).

Definition image_value (i : image) : pyval :=
  match i with
  | ImageStr p => PStr p
  | ImageBytes b => PBytes b
  end.

(** [self.actions.append(action)] *)
Definition append_action (action : pyval) : M SimulationScript unit :=
  fun self =>
    match actions self with
    | PList l => (Ret tt, {| actions := PList (l ++ [action])%list |})
    | _ => (Exn (Raised AttributeError "object has no attribute 'append'"), self)
    end.

Definition add_start (prompt : string) (timestamp_ms : Z) (img : option image)
  : M SimulationScript unit :=
  let start := [("prompt", PStr prompt)] in
  let start :=
    match img with
    | Some i => (start ++ [("image", image_value i)])%list
    | None => start
    end in
  append_action (PDict [("timestamp_ms", PInt timestamp_ms); ("start", PDict start)]).

Definition add_interact (prompt : string) (timestamp_ms : Z)
  : M SimulationScript unit :=
  append_action
    (PDict [("timestamp_ms", PInt timestamp_ms);
            ("interact", PDict [("prompt", PStr prompt)])]).

Definition add_end (timestamp_ms : Z) : M SimulationScript unit :=
  append_action (PDict [("timestamp_ms", PInt timestamp_ms); ("end", PDict [])]).

Definition to_dict (self : SimulationScript) : pyval := actions self.

(** The files of scripts: a path maps to the JSON texts written to the
    file so far, each text given by the document it denotes.  A file just
    opened for writing holds no text. *)
Abbreviation script_files := (gmap string (list json)).

(** [SimulationScript.to_file].  [open_w filepath] is the exception, if
    any, with which [aiofiles.open(filepath, 'w')] ends: a directory that
    is not there, a path that may not be written.  When the file opens
    it is created or truncated, and then the argument of [f.write] is
    evaluated. *)
Definition to_file (open_w : string -> option exn) (self : SimulationScript)
    (filepath : string) : M script_files unit :=
  match open_w filepath with
  | Some e => raise e
  | None =>
      let* _ := modify (fun fs : script_files => <[filepath := []]> fs) in
      match json_dumps (actions self) with
      | inl e => raise e
      | inr doc => modify (fun fs : script_files => <[filepath := [doc]]> fs)
      end
  end.

(** [SimulationScript.from_file].  The text of [FileNotFoundError] is
    given by the path alone; of a file that holds more than one text the
    place of the extra data is left out. *)
Definition from_file (filepath : string) : M script_files SimulationScript :=
  let* content := gets (fun fs : script_files => fs !! filepath) in
  match content with
  | None => raise (Raised FileNotFoundError filepath)
  | Some [doc] => ret {| actions := json_load doc |}
  | Some [] =>
      raise (Raised JSONDecodeError "Expecting value: line 1 column 1 (char 0)")
  | Some (_ :: _ :: _) => raise (Raised JSONDecodeError "Extra data")
  end.

(** ** [SimulationManager] *)

(** What [Odyssey.simulate] returns. *)
Record job : Type := { job_job_id : string; job_status : string }.

(** One entry of [status.streams]. *)
Record stream : Type := { stream_id : string }.

(** What [Odyssey.get_simulate_status] returns: [streams] may be [None],
    the attribute [error_message] may be missing (outer [None]) or hold
    [None] (inner [None]). *)
Record simulate_status : Type := {
  ss_job_id : string;
  ss_status : string;
  ss_streams : option (list stream);
  ss_error_message : option (option string)
}.

(** What [Odyssey.get_recording] returns. *)
Record recording : Type := { video_url : string; thumbnail_url : string }.

(** How an HTTP download of [_download_file] goes: [session.get] or
    [raise_for_status] raises, or the output file is opened and then
    [resp.read()] raises or gives the body. *)
Inductive fetch : Type :=
  | FetchRefused (e : exn)
  | FetchBroken (e : exn)
  | FetchBody (body : string).

(** The scripted service handle.  An answer of the service is either a
    value or an exception.  [svc_status job_id k] is the answer to the
    [k]-th status request (from 0) that one wait sends for [job_id];
    [svc_mkdir path] is the exception, if any, with which creating the
    directory [path] ends; [svc_clock n] is the [n]-th reading of the
    event loop clock. *)
Record service : Type := {
  svc_simulate : pyval -> bool -> exn + job;
  svc_status : string -> nat -> exn + simulate_status;
  svc_recording : string -> exn + recording;
  svc_fetch : string -> fetch;
  svc_mkdir : string -> option exn;
  svc_clock : nat -> Q
}.

(** The calls made to the collaborators, in order. *)
Inductive call : Type :=
  | CallSimulate (script : pyval) (portrait : bool)
  | CallStatus (job_id : string)
  | CallSleep (seconds : Z)
  | CallRecording (stream_id : string)
  | CallFetch (url : string)
  | CallMkdir (path : string).

(** One value of [self.active_jobs]. *)
Record job_entry : Type := {
  je_job_id : string;
  je_name : string;
  je_status : string;
  je_submitted_at : Q
}.

(** The store of a [SimulationManager]: [self.active_jobs], and around
    it the clock readings taken, the calls made and the files written. *)
Record manager : Type := {
  active_jobs : gmap string job_entry;
  clock_reads : nat;
  calls : list call;
  files : gmap string string
}.

Definition new_manager : manager :=
  {| active_jobs := ∅; clock_reads := 0; calls := []; files := ∅ |}.

Definition log_call (c : call) : M manager unit :=
  modify (fun m =>
    {| active_jobs := active_jobs m; clock_reads := clock_reads m;
       calls := (calls m ++ [c])%list; files := files m |}).

Definition set_active_jobs (f : gmap string job_entry -> gmap string job_entry)
  : M manager unit :=
  modify (fun m =>
    {| active_jobs := f (active_jobs m); clock_reads := clock_reads m;
       calls := calls m; files := files m |}).

Definition write_file (path body : string) : M manager unit :=
  modify (fun m =>
    {| active_jobs := active_jobs m; clock_reads := clock_reads m;
       calls := calls m; files := <[path := body]> (files m) |}).

Definition answer {St A} (r : exn + A) : M St A :=
  match r with
  | inl e => raise e
  | inr a => ret a
  end.

(** *** The clock

    [loop.time()] gives a [float].  A reading [q] of the clock stands
    for the binary64 number nearest to [q], and the difference of two
    readings is rounded as the subtraction of two [float]s is.  The
    readings of a clock in seconds are far from the largest binary64
    number: no bound is put on the exponent from above. *)

(** [z * 2^e] and [z * 2^(-e)], for the [e] that is positive. *)
Definition scale_up (z e : Z) : Z := (z * 2 ^ Z.max 0 e)%Z.

(** The nearest integer to [n / d], ties to the even one; [0 < d]. *)
Definition round_half_even (n d : Z) : Z :=
  let m := (n / d)%Z in
  let r := (n mod d)%Z in
  if (2 * r <? d)%Z then m
  else if (d <? 2 * r)%Z then (m + 1)%Z
  else if Z.even m then m else (m + 1)%Z.

(** The binary64 number nearest to [q], ties to the even mantissa: a
    mantissa of 53 bits, or of fewer for a number below [2^(-1022)]. *)
Definition round64 (q : Q) : Q :=
  let n := Qnum q in
  let d := Zpos (Qden q) in
  if (n =? 0)%Z then 0%Q
  else
    let a := Z.abs n in
    let k0 := (Z.log2 a - Z.log2 d)%Z in
    let k := if (scale_up a (- k0) <? scale_up d k0)%Z
             then (k0 - 1)%Z else k0 in
    let e := Z.max (k - 52) (- 1074) in
    let m := round_half_even (scale_up a (- e)) (scale_up d e) in
    Qmake (Z.sgn n * scale_up m e) (Z.to_pos (scale_up 1 (- e))).

(** [now - start_time] on two readings of the clock *)
Definition float_sub (now start_time : Q) : Q :=
  round64 (round64 now - round64 start_time).
Arguments float_sub : simpl never.

(** [f"{elapsed:.1f}"]: the decimal number with one digit after the
    point nearest to the [float], ties to the even digit. *)
Definition format_1f (elapsed : Q) : string :=
  let tenths :=
    round_half_even (Z.abs (Qnum elapsed) * 10) (Zpos (Qden elapsed)) in
  (if (Qnum elapsed <? 0)%Z then "-" else "")
  +:+ pretty (tenths / 10)%Z +:+ "." +:+ pretty (tenths mod 10)%Z.
Arguments format_1f : simpl never.

(** *** Paths

    [pathlib.Path] on a POSIX system, a path being known by its
    [str]. *)

(** [s.split('/')] *)
Fixpoint split_slash (s : string) : list string :=
  match s with
  | EmptyString => [""]
  | String c rest =>
      if Ascii.eqb c "/"%char then "" :: split_slash rest
      else
        match split_slash rest with
        | [] => [String c ""]
        | x :: l => String c x :: l
        end
  end.

(** The root of a path: [/], or [//] for exactly two leading slashes. *)
Definition path_root (s : string) : string :=
  match s with
  | String "/"%char (String "/"%char (String "/"%char _)) => "/"
  | String "/"%char (String "/"%char _) => "//"
  | String "/"%char _ => "/"
  | _ => ""
  end.

(** The components of a path: empty components and [.] are dropped. *)
Definition path_parts (s : string) : list string :=
  List.filter (fun x => negb (String.eqb x "" || String.eqb x "."))
    (split_slash s).

(** [str(Path(raw))] *)
Definition path_str (raw : string) : string :=
  match path_root raw, path_parts raw with
  | "", [] => "."
  | root, parts => root +:+ String.concat "/" parts
  end.

Fixpoint ends_with_slash (s : string) : bool :=
  match s with
  | EmptyString => false
  | String c EmptyString => Ascii.eqb c "/"%char
  | String _ rest => ends_with_slash rest
  end.

(** [posixpath.join(a, b)], by which [Path(a) / b] puts the segments
    together: an absolute [b] takes the place of [a]. *)
Definition posix_join (a b : string) : string :=
  match b with
  | String "/"%char _ => b
  | _ =>
      if String.eqb a "" || ends_with_slash a then a +:+ b
      else a +:+ "/" +:+ b
  end.

(** [str(Path(a) / b)] *)
Definition path_div (a b : string) : string := path_str (posix_join a b).

(** The paths [download_result] gives the video and the thumbnail of the
    stream at position [i]: [output_dir / f"{job_id}_stream_{i}.mp4"] and
    [output_dir / f"{job_id}_stream_{i}_thumb.jpg"]. *)
Definition video_path (output_dir job_id : string) (i : nat) : string :=
  path_div output_dir (job_id +:+ "_stream_" +:+ pretty i +:+ ".mp4").

Definition thumb_path (output_dir job_id : string) (i : nat) : string :=
  path_div output_dir (job_id +:+ "_stream_" +:+ pretty i +:+ "_thumb.jpg").

Section WithService.

Variable svc : service.

(** [asyncio.get_event_loop().time()] *)
Definition loop_time : M manager Q :=
  fun m =>
    (Ret (svc_clock svc (clock_reads m)),
     {| active_jobs := active_jobs m; clock_reads := S (clock_reads m);
        calls := calls m; files := files m |}).

(** [script.to_dict() if isinstance(script, SimulationScript) else
    script] *)
Definition script_data_of (script : SimulationScript + pyval) : pyval :=
  match script with
  | inl script => to_dict script
  | inr script => script
  end.

(** [len(script_data)], which [submit] evaluates for its log before it
    asks the service: the exception, if any.  Of the values a script
    can hold, [None], a [bool] and an [int] have no length. *)
Definition no_len (v : pyval) : option exn :=
  match v with
  | PNone => Some (Raised TypeError "object of type 'NoneType' has no len()")
  | PBool _ => Some (Raised TypeError "object of type 'bool' has no len()")
  | PInt _ => Some (Raised TypeError "object of type 'int' has no len()")
  | PStr _ | PBytes _ | PList _ | PDict _ => None
  end.

(** [SimulationManager.submit]; [script] is a [SimulationScript] or a
    raw list of dictionaries. *)
Definition submit (script : SimulationScript + pyval) (portrait : bool)
    (job_name : option string) : M manager string :=
  let script_data := script_data_of script in
  let* _ := (match no_len script_data with
             | Some e => raise e
             | None => ret tt
             end) in
  let* _ := log_call (CallSimulate script_data portrait) in
  let* job := answer (svc_simulate svc script_data portrait) in
  let* now := loop_time in
  let* _ := set_active_jobs
      <[job_job_id job :=
          {| je_job_id := job_job_id job;
             je_name := match job_name with
                        | Some n => if String.eqb n "" then job_job_id job else n
                        | None => job_job_id job
                        end;
             je_status := job_status job;
             je_submitted_at := now |}]> in
  ret (job_job_id job).

(** How the submission of [script] ends: with the exception of
    [len(script_data)], or as the service answers. *)
Definition submitted (script : SimulationScript + pyval) (portrait : bool)
  : exn + job :=
  match no_len (script_data_of script) with
  | Some e => inl e
  | None => svc_simulate svc (script_data_of script) portrait
  end.

(** The dictionary [get_status] builds. *)
Record status_dict : Type := {
  sd_job_id : string;
  sd_status : string;
  sd_streams : list stream;
  sd_error : option string
}.

(** The dictionary literal of [get_status]: [status.streams or []] and
    the [hasattr] test on [error_message]. *)
Definition status_dict_of (status : simulate_status) : status_dict :=
  {| sd_job_id := ss_job_id status;
     sd_status := ss_status status;
     sd_streams :=
       match ss_streams status with
       | Some ((_ :: _) as l) => map (fun s => {| stream_id := stream_id s |}) l
       | _ => []
       end;
     sd_error :=
       match ss_error_message status with
       | Some msg => msg
       | None => None
       end |}.

(** [SimulationManager.get_status]; [k] says which scripted answer the
    service gives. *)
Definition get_status (job_id : string) (k : nat) : M manager status_dict :=
  let* _ := log_call (CallStatus job_id) in
  let* status := answer (svc_status svc job_id k) in
  let status_dict := status_dict_of status in
  let* _ := set_active_jobs (fun jobs =>
      match jobs !! job_id with
      | Some entry =>
          <[job_id := {| je_job_id := je_job_id entry; je_name := je_name entry;
                         je_status := ss_status status;
                         je_submitted_at := je_submitted_at entry |}]> jobs
      | None => jobs
      end) in
  ret status_dict.

(** [s in ('pending', 'running')] *)
Definition in_progress (s : string) : bool :=
  String.eqb s "pending" || String.eqb s "running".

(** [status['status'] not in ('pending', 'running')] *)
Definition is_done (status : status_dict) : bool :=
  negb (in_progress (sd_status status)).

(** [if timeout:] on an [Optional[int]] *)
Definition truthy (timeout : option Z) : bool :=
  match timeout with
  | Some t => negb (t =? 0)%Z
  | None => false
  end.

(** [elapsed > timeout], reached only when [timeout] is a number: a
    [float] and an [int] compare by their exact values. *)
Definition elapsed_gt (elapsed : Q) (timeout : option Z) : bool :=
  match timeout with
  | Some t => if Qlt_le_dec (inject_Z t) elapsed then true else false
  | None => false
  end.

(** [f"Job {job_id} timed out after {elapsed:.1f}s"] *)
Definition timeout_message (job_id : string) (elapsed : Q) : string :=
  "Job " +:+ job_id +:+ " timed out after " +:+ format_1f elapsed +:+ "s".

(** [f"{error_msg}"] *)
Definition format_error (error_msg : option string) : string :=
  match error_msg with
  | Some msg => msg
  | None => "None"
  end.

(** The [while True] loop of [wait_for_completion], from its [k]-th
    iteration on, for at most [fuel] iterations.  It returns the status
    on which it breaks. *)
Fixpoint poll_loop (fuel : nat) (job_id : string) (poll_interval : Z)
    (timeout : option Z) (start_time : Q) (k : nat) : M manager status_dict :=
  match fuel with
  | O => lift_outcome Fuel
  | S fuel' =>
      let* status := get_status job_id k in
      if is_done status then ret status
      else
        let* _ :=
          (if truthy timeout then
             let* now := loop_time in
             let elapsed := float_sub now start_time in
             if elapsed_gt elapsed timeout
             then raise (Raised TimeoutError (timeout_message job_id elapsed))
             else ret tt
           else ret tt) in
        let* _ := log_call (CallSleep poll_interval) in
        poll_loop fuel' job_id poll_interval timeout start_time (S k)
  end.

(** [SimulationManager.wait_for_completion] *)
Definition wait_for_completion (fuel : nat) (job_id : string)
    (poll_interval : Z) (timeout : option Z) : M manager status_dict :=
  let* start_time := loop_time in
  let* status := poll_loop fuel job_id poll_interval timeout start_time 0 in
  if String.eqb (sd_status status) "failed" then
    let error_msg := sd_error status in
    raise (Raised RuntimeError ("Job failed: " +:+ format_error error_msg))
  else if String.eqb (sd_status status) "cancelled" then
    raise (Raised RuntimeError "Job was cancelled")
  else ret status.

(** *** Vocabulary for the properties of the wait *)

(** The calls of a wait that polls [n] times without seeing a final
    status and then once more. *)
Fixpoint poll_trace (job_id : string) (poll_interval : Z) (n : nat)
  : list call :=
  match n with
  | O => [CallStatus job_id]
  | S n' =>
      CallStatus job_id :: CallSleep poll_interval
        :: poll_trace job_id poll_interval n'
  end.

(** The calls of [n] iterations that see the job still going. *)
Fixpoint busy_trace (job_id : string) (poll_interval : Z) (n : nat)
  : list call :=
  match n with
  | O => []
  | S n' =>
      CallStatus job_id :: CallSleep poll_interval
        :: busy_trace job_id poll_interval n'
  end.

(** The timeout check of one iteration fires. *)
Definition expires (timeout : option Z) (start_time now : Q) : bool :=
  truthy timeout && elapsed_gt (float_sub now start_time) timeout.

(** The service reports [job_id] pending or running at request [k]. *)
Definition busy_at (job_id : string) (k : nat) : Prop :=
  exists sk, svc_status svc job_id k = inr sk /\
             in_progress (ss_status sk) = true.

(** [SimulationManager._download_file] *)
Definition _download_file (url output_path : string) : M manager unit :=
  let* _ := log_call (CallFetch url) in
  match svc_fetch svc url with
  | FetchRefused e => raise e
  | FetchBroken e =>
      let* _ := write_file output_path "" in
      raise e
  | FetchBody body =>
      let* _ := write_file output_path "" in
      write_file output_path body
  end.

(** The [for i, stream in enumerate(streams)] loop of [download_result],
    from position [i] on; [downloaded] is the list built so far, each
    path by its [str]. *)
Fixpoint download_streams (output_dir job_id : string) (streams : list stream)
    (i : nat) (downloaded : list string) : M manager (list string) :=
  match streams with
  | [] => ret downloaded
  | s :: rest =>
      let stream_id := stream_id s in
      let* _ := log_call (CallRecording stream_id) in
      let* recording := answer (svc_recording svc stream_id) in
      let video_path := video_path output_dir job_id i in
      let* _ := _download_file (video_url recording) video_path in
      let downloaded := (downloaded ++ [video_path])%list in
      let thumb_path := thumb_path output_dir job_id i in
      let* _ := _download_file (thumbnail_url recording) thumb_path in
      let downloaded := (downloaded ++ [thumb_path])%list in
      download_streams output_dir job_id rest (S i) downloaded
  end.

(** [SimulationManager.download_result] *)
Definition download_result (status : status_dict) (output_dir : string)
  : M manager (list string) :=
  let* _ := log_call (CallMkdir output_dir) in
  let* _ := (match svc_mkdir svc output_dir with
             | Some e => raise e
             | None => ret tt
             end) in
  let job_id := sd_job_id status in
  let streams := sd_streams status in
  match streams with
  | [] => ret []
  | _ => download_streams output_dir job_id streams 0 []
  end.

End WithService.

(** ** [BatchProcessor] *)

(** The dictionaries [_process_single] returns; a key that a dictionary
    does not have is [None]. *)
Record batch_result : Type := {
  br_index : nat;
  br_status : string;
  br_job_id : option string;
  br_files : option (list string);
  br_error : option string
}.

Definition success_result (index : nat) (job_id : string) (paths : list string)
  : batch_result :=
  {| br_index := index; br_status := "success"; br_job_id := Some job_id;
     br_files := Some paths; br_error := None |}.

Definition failed_result (index : nat) (e : exn) : batch_result :=
  {| br_index := index; br_status := "failed"; br_job_id := None;
     br_files := None; br_error := Some (str_exn e) |}.

(** [f"batch_{index}"] *)
Definition batch_name (index : nat) : string := "batch_" +:+ pretty index.

(** The default [poll_interval] of [wait_for_completion]. *)
Definition default_poll_interval : Z := 5.

(** What [asyncio.gather(..., return_exceptions=True)] keeps for one
    awaitable: the value it returned or the exception it raised. *)
Inductive gathered : Type :=
  | Returned (r : batch_result)
  | Escaped (e : exn).

(** Where the coroutine [_process_single] stands: before the semaphore,
    inside [async with] at one of its three awaits, or over. *)
Inductive pc : Type :=
  | Queued
  | AtSubmit
  | AtWait (job_id : string)
  | AtDownload (job_id : string) (status : status_dict)
  | Finished (g : gathered).

(** One coroutine of the list [tasks] of [process_batch]. *)
Record task : Type := {
  t_script : SimulationScript + pyval;
  t_index : nat;
  t_pc : pc
}.

Inductive sem_event : Type :=
  | Acquire (index : nat)
  | Release (index : nat).

(** A [BatchProcessor] during [process_batch]: the value of
    [self.semaphore], the coroutines given to [gather], [self.manager],
    and the acquisitions and releases of the semaphore so far. *)
Record batch : Type := {
  semaphore : nat;
  tasks : list task;
  mgr : manager;
  sem_events : list sem_event
}.

(** [[self._process_single(script, i, output_dir, portrait)
      for i, script in enumerate(scripts)]] under a
    [BatchProcessor(max_concurrent)] *)
Definition start (max_concurrent : nat) (m : manager)
    (scripts : list (SimulationScript + pyval)) : batch :=
  {| semaphore := max_concurrent;
     tasks := imap (fun i script =>
                {| t_script := script; t_index := i; t_pc := Queued |}) scripts;
     mgr := m;
     sem_events := [] |}.

Definition set_pc (i : nat) (p : pc) (ts : list task) : list task :=
  alter (fun t => {| t_script := t_script t; t_index := t_index t; t_pc := p |})
        i ts.

(** An exception leaves the [try] block: [except Exception] turns it
    into a dictionary, anything else goes through. *)
Definition on_exception (index : nat) (e : exn) : gathered :=
  if is_Exception e then Returned (failed_result index e) else Escaped e.

(** The task at position [i] goes on to its next await, the slot kept. *)
Definition proceed (i : nat) (p : pc) (m : manager) (b : batch) : batch :=
  {| semaphore := semaphore b;
     tasks := set_pc i p (tasks b);
     mgr := m;
     sem_events := sem_events b |}.

(** The task at position [i] leaves [async with]: the semaphore is
    released as the coroutine ends. *)
Definition leave (i index : nat) (g : gathered) (m : manager) (b : batch)
  : batch :=
  {| semaphore := S (semaphore b);
     tasks := set_pc i (Finished g) (tasks b);
     mgr := m;
     sem_events := (sem_events b ++ [Release index])%list |}.

(** [await self.semaphore.acquire()], entering [async with]: with no
    permit left the coroutine stays there. *)
Definition acquire (index : nat) : M batch unit :=
  fun b =>
    match semaphore b with
    | O => (Fuel, b)
    | S n =>
        (Ret tt,
         {| semaphore := n; tasks := tasks b; mgr := mgr b;
            sem_events := (sem_events b ++ [Acquire index])%list |})
    end.

(** [self.semaphore.release()], leaving [async with] *)
Definition release (index : nat) : M batch unit :=
  modify (fun b =>
    {| semaphore := S (semaphore b); tasks := tasks b; mgr := mgr b;
       sem_events := (sem_events b ++ [Release index])%list |}).

(** A call on [self.manager] *)
Definition on_manager {A} (c : M manager A) : M batch A :=
  fun b =>
    let (r, m') := c (mgr b) in
    (r, {| semaphore := semaphore b; tasks := tasks b; mgr := m';
           sem_events := sem_events b |}).

(** [async with self.semaphore: body]: the permit is given back however
    [body] ends; while [body] has not ended it is held. *)
Definition async_with {A} (index : nat) (body : M batch A) : M batch A :=
  let* _ := acquire index in
  fun b =>
    match body b with
    | (Fuel, b') => (Fuel, b')
    | (r, b') => (r, snd (release index b'))
    end.

(** In the pipeline: the slot is held. *)
Definition in_flight (p : pc) : bool :=
  match p with
  | AtSubmit | AtWait _ | AtDownload _ _ => true
  | Queued | Finished _ => false
  end.

Section Batch.

Variable svc : service.
Variable output_dir : string.
Variable portrait : bool.

(** The [try] statement of [_process_single], run in one go. *)
Definition try_process (fuel : nat) (script : SimulationScript + pyval)
    (index : nat) : M manager batch_result :=
  try_except
    (let* job_id := submit svc script portrait (Some (batch_name index)) in
     let* status :=
       wait_for_completion svc fuel job_id default_poll_interval None in
     let* paths := download_result svc status output_dir in
     ret (success_result index job_id paths))
    (fun e => ret (failed_result index e)).

(** [BatchProcessor._process_single], run without any other coroutine
    in between. *)
Definition _process_single (fuel : nat) (script : SimulationScript + pyval)
    (index : nat) : M batch batch_result :=
  async_with index (on_manager (try_process fuel script index)).

(** One move of the event loop: the coroutine at position [i] runs from
    one await to the next.  [_process_single] is *)
(**
<<
    async with self.semaphore:          (step_acquire)
        try:
            job_id = await self.manager.submit(...)           (step_submit)
            status = await self.manager.wait_for_completion(job_id)
                                                              (step_wait)
            paths = await self.manager.download_result(...)   (step_download)
            return {...'success'...}
        except Exception as e:
            return {...'failed'...}                           (the _raises rules)
>>
*)
Inductive step : nat -> batch -> batch -> Prop :=
  | step_acquire i t b :
      tasks b !! i = Some t ->
      t_pc t = Queued ->
      0 < semaphore b ->
      step i b
        {| semaphore := pred (semaphore b);
           tasks := set_pc i AtSubmit (tasks b);
           mgr := mgr b;
           sem_events := (sem_events b ++ [Acquire (t_index t)])%list |}
  | step_submit i t b job_id m' :
      tasks b !! i = Some t ->
      t_pc t = AtSubmit ->
      submit svc (t_script t) portrait (Some (batch_name (t_index t))) (mgr b)
        = (Ret job_id, m') ->
      step i b (proceed i (AtWait job_id) m' b)
  | step_submit_raises i t b e m' :
      tasks b !! i = Some t ->
      t_pc t = AtSubmit ->
      submit svc (t_script t) portrait (Some (batch_name (t_index t))) (mgr b)
        = (Exn e, m') ->
      step i b (leave i (t_index t) (on_exception (t_index t) e) m' b)
  | step_wait i t b job_id fuel status m' :
      tasks b !! i = Some t ->
      t_pc t = AtWait job_id ->
      wait_for_completion svc fuel job_id default_poll_interval None (mgr b)
        = (Ret status, m') ->
      step i b (proceed i (AtDownload job_id status) m' b)
  | step_wait_raises i t b job_id fuel e m' :
      tasks b !! i = Some t ->
      t_pc t = AtWait job_id ->
      wait_for_completion svc fuel job_id default_poll_interval None (mgr b)
        = (Exn e, m') ->
      step i b (leave i (t_index t) (on_exception (t_index t) e) m' b)
  | step_download i t b job_id status paths m' :
      tasks b !! i = Some t ->
      t_pc t = AtDownload job_id status ->
      download_result svc status output_dir (mgr b) = (Ret paths, m') ->
      step i b
        (leave i (t_index t)
           (Returned (success_result (t_index t) job_id paths)) m' b)
  | step_download_raises i t b job_id status e m' :
      tasks b !! i = Some t ->
      t_pc t = AtDownload job_id status ->
      download_result svc status output_dir (mgr b) = (Exn e, m') ->
      step i b (leave i (t_index t) (on_exception (t_index t) e) m' b).

(** Any number of moves, by any coroutines in any order. *)
Inductive run (b : batch) : batch -> Prop :=
  | run_refl : run b b
  | run_step i b' b'' : run b b' -> step i b' b'' -> run b b''.

(** The result of [asyncio.gather]: there once every coroutine is over. *)
Definition gather (ts : list task) : option (list gathered) :=
  mapM (fun t => match t_pc t with Finished g => Some g | _ => None end) ts.

(** [sum(1 for r in results if not isinstance(r, Exception))] *)
Definition successes (results : list gathered) : nat :=
  length (List.filter (fun g =>
            match g with
            | Returned _ => true
            | Escaped e => negb (is_Exception e)
            end) results).

(** [BatchProcessor(max_concurrent).process_batch(scripts)] returns
    [results], for some order of the moves. *)
Definition process_batch (max_concurrent : nat) (m : manager)
    (scripts : list (SimulationScript + pyval)) (results : list gathered)
  : Prop :=
  exists b, run (start max_concurrent m scripts) b /\
            gather (tasks b) = Some results.

(** A scheduler that can be run: the coroutine at position [i] makes
    its next move, a wait being given [fuel] iterations. *)
Definition perform (fuel : nat) (i : nat) (b : batch) : option batch :=
  match tasks b !! i with
  | None => None
  | Some t =>
      match t_pc t with
      | Queued =>
          match semaphore b with
          | O => None
          | S _ =>
              Some {| semaphore := pred (semaphore b);
                      tasks := set_pc i AtSubmit (tasks b);
                      mgr := mgr b;
                      sem_events :=
                        (sem_events b ++ [Acquire (t_index t)])%list |}
          end
      | AtSubmit =>
          match submit svc (t_script t) portrait
                  (Some (batch_name (t_index t))) (mgr b) with
          | (Ret job_id, m') => Some (proceed i (AtWait job_id) m' b)
          | (Exn e, m') =>
              Some (leave i (t_index t) (on_exception (t_index t) e) m' b)
          | (Fuel, _) => None
          end
      | AtWait job_id =>
          match wait_for_completion svc fuel job_id default_poll_interval
                  None (mgr b) with
          | (Ret status, m') => Some (proceed i (AtDownload job_id status) m' b)
          | (Exn e, m') =>
              Some (leave i (t_index t) (on_exception (t_index t) e) m' b)
          | (Fuel, _) => None
          end
      | AtDownload job_id status =>
          match download_result svc status output_dir (mgr b) with
          | (Ret paths, m') =>
              Some (leave i (t_index t)
                      (Returned (success_result (t_index t) job_id paths))
                      m' b)
          | (Exn e, m') =>
              Some (leave i (t_index t) (on_exception (t_index t) e) m' b)
          | (Fuel, _) => None
          end
      | Finished _ => None
      end
  end.

(** The moves of a schedule, one after the other. *)
Fixpoint perform_all (fuel : nat) (schedule : list nat) (b : batch)
  : option batch :=
  match schedule with
  | [] => Some b
  | i :: rest =>
      match perform fuel i b with
      | Some b' => perform_all fuel rest b'
      | None => None
      end
  end.

(** The number of coroutines inside [async with]. *)
Definition in_flight_count (b : batch) : nat :=
  length (List.filter (fun t => in_flight (t_pc t)) (tasks b)).

(** How often the coroutine started with [index] acquired, and released,
    the semaphore. *)
Definition acquires (index : nat) (evs : list sem_event) : nat :=
  length (List.filter (fun ev => match ev with
                                 | Acquire i => Nat.eqb i index
                                 | Release _ => false
                                 end) evs).

Definition releases (index : nat) (evs : list sem_event) : nat :=
  length (List.filter (fun ev => match ev with
                                 | Release i => Nat.eqb i index
                                 | Acquire _ => false
                                 end) evs).

(** The awaits a coroutine still has before it is over. *)
Definition rank (p : pc) : nat :=
  match p with
  | Queued => 4
  | AtSubmit => 3
  | AtWait _ => 2
  | AtDownload _ _ => 1
  | Finished _ => 0
  end.

Definition remaining (ts : list task) : nat :=
  foldr (fun t n => rank (t_pc t) + n) 0 ts.

(** What a coroutine that ended with [g] did: it returned or raised. *)
Definition outcome_of (g : gathered) : outcome batch_result :=
  match g with
  | Returned r => Ret r
  | Escaped e => Exn e
  end.

(** [g] is what [_process_single(script, index, ...)] ends with, whatever
    the manager holds when it runs. *)
Definition item_result (script : SimulationScript + pyval) (index : nat)
    (g : gathered) : Prop :=
  exists fuel, forall m, fst (try_process fuel script index m) = outcome_of g.

(** What the place of a coroutine says about the calls it has made:
    past [submit] the service gave the job, past the wait the wait
    returned the status, and a coroutine that is over ended as
    [_process_single] does. *)
Definition stage_sound (t : task) : Prop :=
  match t_pc t with
  | Queued | AtSubmit => True
  | AtWait job_id =>
      exists job,
        submitted svc (t_script t) portrait = inr job /\
        job_job_id job = job_id
  | AtDownload job_id status =>
      (exists job,
         submitted svc (t_script t) portrait = inr job /\
         job_job_id job = job_id) /\
      exists fuel, forall m,
        fst (wait_for_completion svc fuel job_id default_poll_interval None m)
          = Ret status
  | Finished g => item_result (t_script t) (t_index t) g
  end.

(** [_process_single] on [script] fails with [e]: [submit] raises it, or
    the wait for the submitted job does, or the download of the final
    status does. *)
Definition fails_with (script : SimulationScript + pyval) (e : exn) : Prop :=
  submitted svc script portrait = inl e \/
  (exists job fuel,
     submitted svc script portrait = inr job /\
     forall m,
       fst (wait_for_completion svc fuel (job_job_id job)
              default_poll_interval None m) = Exn e) \/
  (exists job fuel status,
     submitted svc script portrait = inr job /\
     (forall m,
        fst (wait_for_completion svc fuel (job_job_id job)
               default_poll_interval None m) = Ret status) /\
     forall m, fst (download_result svc status output_dir m) = Exn e).

(** Every wait of the batch comes to an end: the service does not keep a
    job pending for ever. *)
Definition waits_end : Prop :=
  forall job_id m, exists fuel,
    fst (wait_for_completion svc fuel job_id default_poll_interval None m)
      <> Fuel.

(** The three kinds of move: a coroutine takes a slot, goes from one
    await to the next inside [async with], or ends and gives its slot
    back. *)
Inductive move_kind (t : task) (p : pc) (b b' : batch) : Prop :=
  | move_acquire :
      t_pc t = Queued -> p = AtSubmit -> 0 < semaphore b ->
      semaphore b' = pred (semaphore b) ->
      sem_events b' = (sem_events b ++ [Acquire (t_index t)])%list ->
      move_kind t p b b'
  | move_inside :
      in_flight (t_pc t) = true -> in_flight p = true ->
      semaphore b' = semaphore b ->
      sem_events b' = sem_events b ->
      move_kind t p b b'
  | move_release g :
      in_flight (t_pc t) = true -> p = Finished g ->
      semaphore b' = S (semaphore b) ->
      sem_events b' = (sem_events b ++ [Release (t_index t)])%list ->
      move_kind t p b b'.

(** The coroutines are those of the comprehension over
    [enumerate(scripts)]: the one at position [i] was started with index
    [i] on [scripts[i]]. *)
Definition enumerated (scripts : list (SimulationScript + pyval))
    (ts : list task) : Prop :=
  length ts = length scripts /\
  forall i t, ts !! i = Some t ->
              t_index t = i /\ scripts !! i = Some (t_script t).

Definition is_queued (p : pc) : bool :=
  match p with Queued => true | _ => false end.

Definition is_over (p : pc) : bool :=
  match p with Finished _ => true | _ => false end.

(** Each coroutine acquired the semaphore once if it is past the
    entry of [async with], and released it once if it is over. *)
Definition slots_accounted (b : batch) : Prop :=
  forall j t, tasks b !! j = Some t ->
    acquires j (sem_events b) = (if is_queued (t_pc t) then 0 else 1) /\
    releases j (sem_events b) = (if is_over (t_pc t) then 1 else 0).

(** No move is left. *)
Definition all_over (b : batch) : Prop :=
  forall i t, tasks b !! i = Some t -> exists g, t_pc t = Finished g.

End Batch.

(** ** [OdysseyClientManager] *)

Module OdysseyClientManager.

(** The calls made on [self.client]. *)
Inductive client_call : Type :=
  | ClientConnect
  | ClientDisconnect
  | ClientStartStream (prompt : string) (portrait : bool)
  | ClientInteract (prompt : string)
  | ClientEndStream.

(** The scripted Odyssey client: [oc_raises n c] is the exception, if
    any, with which the call [c] ends when [n] calls were made before it;
    [oc_stream_id n] is the stream id a successful [start_stream] gives. *)
Record odyssey : Type := {
  oc_raises : nat -> client_call -> option exn;
  oc_stream_id : nat -> string
}.

(** The attributes [_connected] and [_current_stream_id], and the calls
    made on the client so far. *)
Record state : Type := {
  _connected : bool;
  _current_stream_id : option string;
  client_calls : list client_call
}.

Definition initial : state :=
  {| _connected := false; _current_stream_id := None; client_calls := [] |}.

Definition set_connected (c : bool) : M state unit :=
  modify (fun s =>
    {| _connected := c; _current_stream_id := _current_stream_id s;
       client_calls := client_calls s |}).

Definition set_current_stream_id (i : option string) : M state unit :=
  modify (fun s =>
    {| _connected := _connected s; _current_stream_id := i;
       client_calls := client_calls s |}).

(** [not self._current_stream_id]: [None] and the empty string are
    false. *)
Definition no_active_stream (s : state) : bool :=
  match _current_stream_id s with
  | None => true
  | Some i => String.eqb i ""
  end.

Section WithClient.

Variable client : odyssey.

(** [await self.client.<call>(...)]; gives the number of calls made
    before this one. *)
Definition call_client (c : client_call) : M state nat :=
  fun s =>
    let n := length (client_calls s) in
    let s' := {| _connected := _connected s;
                 _current_stream_id := _current_stream_id s;
                 client_calls := (client_calls s ++ [c])%list |} in
    match oc_raises client n c with
    | Some e => (Exn e, s')
    | None => (Ret n, s')
    end.

Definition connect : M state unit :=
  let* connected := gets _connected in
  if connected then ret tt
  else
    let* _ := call_client ClientConnect in
    set_connected true.

Definition disconnect : M state unit :=
  let* connected := gets _connected in
  if negb connected then ret tt
  else
    try_except
      (let* _ := call_client ClientDisconnect in
       let* _ := set_connected false in
       set_current_stream_id None)
      (fun e =>
       let* _ := set_connected false in
       set_current_stream_id None).

Definition start_stream (prompt : string) (portrait : bool) : M state string :=
  let* connected := gets _connected in
  if negb connected then
    raise (Raised OdysseyStreamError
             "Cannot start stream: client is not connected")
  else
    let* n := call_client (ClientStartStream prompt portrait) in
    let stream_id := oc_stream_id client n in
    let* _ := set_current_stream_id (Some stream_id) in
    ret stream_id.

Definition interact (prompt : string) : M state unit :=
  let* connected := gets _connected in
  if negb connected then
    raise (Raised OdysseyStreamError "Cannot interact: client is not connected")
  else
    let* idle := gets no_active_stream in
    if idle then
      raise (Raised OdysseyStreamError "Cannot interact: no active stream")
    else
      let* _ := call_client (ClientInteract prompt) in
      ret tt.

Definition end_stream : M state unit :=
  let* connected := gets _connected in
  if negb connected then
    raise (Raised OdysseyStreamError
             "Cannot end stream: client is not connected")
  else
    let* idle := gets no_active_stream in
    if idle then ret tt
    else
      try_except
        (let* _ := call_client ClientEndStream in
         set_current_stream_id None)
        (fun e =>
         let* _ := set_current_stream_id None in
         raise e).

End WithClient.

End OdysseyClientManager.

(** ** [StreamManager] *)

Module StreamManager.

(** A websocket is known by a number. *)
Definition websocket : Type := nat.

(** The scripted websockets: the exception, if any, with which
    [accept] and [send_text] end on each of them, and the time a
    [send_text] takes.  A text is given by the JSON document it
    denotes. *)
Record sockets : Type := {
  ws_accept : websocket -> option exn;
  ws_send_text : websocket -> json -> option exn;
  ws_send_takes : websocket -> json -> nat
}.

(** [self.active_connections] and [self.is_streaming], and the texts
    the websockets took, in order. *)
Record state : Type := {
  active_connections : list websocket;
  is_streaming : bool;
  delivered : list (websocket * json)
}.

Definition initial : state :=
  {| active_connections := []; is_streaming := false; delivered := [] |}.

(** [list.remove]: the first occurrence goes. *)
Fixpoint remove_first (w : websocket) (l : list websocket) : list websocket :=
  match l with
  | [] => []
  | x :: l' => if Nat.eqb x w then l' else x :: remove_first w l'
  end.

(** [json.dumps({"type": "frame", "data": frame_data_base64})]: the
    text, given by the document it denotes. *)
Definition frame_message (frame_data_base64 : string) : json :=
  JObj [("type", JStr "frame"); ("data", JStr frame_data_base64)].

Section WithSockets.

Variable ws : sockets.

Definition connect (websocket : websocket) : M state unit :=
  match ws_accept ws websocket with
  | Some e => raise e
  | None =>
      modify (fun s =>
        {| active_connections := (active_connections s ++ [websocket])%list;
           is_streaming := is_streaming s;
           delivered := delivered s |})
  end.

Definition disconnect (websocket : websocket) : M state unit :=
  modify (fun s =>
    if existsb (Nat.eqb websocket) (active_connections s) then
      {| active_connections := remove_first websocket (active_connections s);
         is_streaming := is_streaming s;
         delivered := delivered s |}
    else s).

(** One awaitable of the [gather]: [connection.send_text(message)].  The
    result is what [gather] keeps for it; the store is touched only when
    the text goes out. *)
Definition send_text (connection : websocket) (message : json)
  : state -> option exn * state :=
  fun s =>
    match ws_send_text ws connection message with
    | Some e => (Some e, s)
    | None =>
        (None,
         {| active_connections := active_connections s;
            is_streaming := is_streaming s;
            delivered := (delivered s ++ [(connection, message)])%list |})
    end.

(** The sends of one [gather] run together: they are started in the
    order of the list and end by the time each takes, those that take
    as long in the order of the list. *)
Fixpoint ends_before (takes : websocket -> nat) (c : websocket)
    (l : list websocket) : list websocket :=
  match l with
  | [] => [c]
  | x :: rest =>
      if Nat.leb (takes c) (takes x) then c :: l
      else x :: ends_before takes c rest
  end.

Definition completion_order (message : json) (connections : list websocket)
  : list websocket :=
  foldr (ends_before (fun c => ws_send_takes ws c message)) [] connections.

(** [asyncio.gather] with [return_exceptions=True] over the sends: the
    results come in the order of the list, the texts go out in the
    order in which the sends end. *)
Definition gather_sends (connections : list websocket) (message : json)
  : state -> list (option exn) * state :=
  fun s =>
    (map (fun c => ws_send_text ws c message) connections,
     foldl (fun s' c => snd (send_text c message s')) s
       (completion_order message connections)).

Definition broadcast_frame (frame_data_base64 : string) : M state unit :=
  fun s =>
    match active_connections s with
    | [] => (Ret tt, s)
    | _ =>
        let message := frame_message frame_data_base64 in
        let tasks := active_connections s in
        let (_, s') := gather_sends tasks message s in
        (Ret tt, s')
    end.

(** The websockets of [l] that take [message]. *)
Definition takers (message : json) (l : list websocket) : list websocket :=
  List.filter (fun c => match ws_send_text ws c message with
                        | None => true
                        | Some _ => false
                        end) l.

End WithSockets.

(** The texts the websocket [w] took, in order. *)
Definition received (w : websocket) (s : state) : list json :=
  map snd (List.filter (fun p => Nat.eqb (fst p) w) (delivered s)).

End StreamManager.

(** ** More of [SimulationScript] and [SimulationManager] *)

(** [try: body finally: final]: [final] runs however [body] ends, and
    an exception of [final] takes the place of the outcome of [body]. *)
Definition try_finally {St A} (body : M St A) (final : M St unit) : M St A :=
  fun s =>
    match body s with
    | (Fuel, s') => (Fuel, s')
    | (r, s') =>
        match final s' with
        | (Ret _, s'') => (r, s'')
        | (Exn e, s'') => (Exn e, s'')
        | (Fuel, s'') => (Fuel, s'')
        end
    end.

(** The computation [c] leaves the part [f] of the store as it is,
    however it ends. *)
Definition keeps {St A B} (f : St -> B) (c : M St A) : Prop :=
  forall s, f (snd (c s)) = f s.

(** One call of a builder method of [SimulationScript]. *)
Inductive builder_call : Type :=
  | AddStart (prompt : string) (timestamp_ms : Z) (img : option image)
  | AddInteract (prompt : string) (timestamp_ms : Z)
  | AddEnd (timestamp_ms : Z).

Definition call_builder (c : builder_call) : M SimulationScript unit :=
  match c with
  | AddStart prompt timestamp_ms img => add_start prompt timestamp_ms img
  | AddInteract prompt timestamp_ms => add_interact prompt timestamp_ms
  | AddEnd timestamp_ms => add_end timestamp_ms
  end.

(** A chain [script.add_...(...).add_...(...)]: every method returns
    [self]. *)
Fixpoint chain (cs : list builder_call) : M SimulationScript unit :=
  match cs with
  | [] => ret tt
  | c :: rest => let* _ := call_builder c in chain rest
  end.

(** The dictionary a builder call appends. *)
Definition action_of (c : builder_call) : pyval :=
  match c with
  | AddStart prompt timestamp_ms img =>
      PDict [("timestamp_ms", PInt timestamp_ms);
             ("start",
              PDict (match img with
                     | Some i => [("prompt", PStr prompt); ("image", image_value i)]
                     | None => [("prompt", PStr prompt)]
                     end))]
  | AddInteract prompt timestamp_ms =>
      PDict [("timestamp_ms", PInt timestamp_ms);
             ("interact", PDict [("prompt", PStr prompt)])]
  | AddEnd timestamp_ms =>
      PDict [("timestamp_ms", PInt timestamp_ms); ("end", PDict [])]
  end.

(** The [timestamp_ms] of the call. *)
Definition timestamp_of (c : builder_call) : Z :=
  match c with
  | AddStart _ timestamp_ms _ => timestamp_ms
  | AddInteract _ timestamp_ms => timestamp_ms
  | AddEnd timestamp_ms => timestamp_ms
  end.

(** The call passes an image as [bytes]. *)
Definition passes_bytes (c : builder_call) : bool :=
  match c with
  | AddStart _ _ (Some (ImageBytes _)) => true
  | _ => false
  end.

(** [self.active_jobs[job_id]['status'] = status], for a tracked job. *)
Definition with_status (status : string) (entry : job_entry) : job_entry :=
  {| je_job_id := je_job_id entry; je_name := je_name entry;
     je_status := status; je_submitted_at := je_submitted_at entry |}.

(** What [get_status] and [cancel] do to [self.active_jobs]: the status
    of [job_id] is set when the job is tracked, and nothing is added
    when it is not. *)
Definition record_status (job_id status : string)
    (jobs : gmap string job_entry) : gmap string job_entry :=
  match jobs !! job_id with
  | Some entry => <[job_id := with_status status entry]> jobs
  | None => jobs
  end.

(** The jobs the loop leaves are those it found, the status of the
    polled job apart. *)
Definition polled (job_id : string) (jobs0 jobs : gmap string job_entry)
  : Prop :=
  jobs = jobs0 \/ exists status, jobs = record_status job_id status jobs0.

(** [SimulationManager.cancel]; [cancel_simulation job_id] is the
    exception, if any, with which the request to the service ends.  The
    request is not entered in [calls]. *)
Definition cancel (cancel_simulation : string -> option exn)
    (job_id : string) : M manager unit :=
  let* _ := (match cancel_simulation job_id with
             | Some e => raise e
             | None => ret tt
             end) in
  set_active_jobs (fun jobs =>
    match jobs !! job_id with
    | Some entry => <[job_id := with_status "cancelled" entry]> jobs
    | None => jobs
    end).

(** The paths of [n] streams, from position [i] on. *)
Fixpoint stream_paths (output_dir job_id : string) (i n : nat) : list string :=
  match n with
  | O => []
  | S n' =>
      video_path output_dir job_id i :: thumb_path output_dir job_id i
        :: stream_paths output_dir job_id (S i) n'
  end.

(** The recording of a stream is there and both its files download. *)
Definition downloadable (svc : service) (s : stream) : Prop :=
  exists rec video thumb,
    svc_recording svc (stream_id s) = inr rec /\
    svc_fetch svc (video_url rec) = FetchBody video /\
    svc_fetch svc (thumbnail_url rec) = FetchBody thumb.

(** ** More of [OdysseyClientManager]: the event handlers and
    [quick_generate] *)

Module OdysseyEvents.
Import OdysseyClientManager.

Definition _on_disconnected : M state unit :=
  let* _ := set_connected false in
  set_current_stream_id None.

Definition _on_stream_started (stream_id : string) : M state unit :=
  set_current_stream_id (Some stream_id).

Definition _on_stream_ended : M state unit :=
  set_current_stream_id None.

Definition _on_error (error : exn) (fatal : bool) : M state unit :=
  if fatal then set_connected false else ret tt.

(** [quick_generate], on the manager once it exists; [asyncio.sleep]
    between the start and the end of the stream changes nothing in the
    manager. *)
Definition quick_generate (client : odyssey) (prompt : string)
    (duration : Z) (portrait : bool) : M state string :=
  try_finally
    (let* _ := connect client in
     let* stream_id := start_stream client prompt portrait in
     let* _ := end_stream client in
     ret stream_id)
    (disconnect client).

End OdysseyEvents.

(** ** The backend's [OdysseyClient] ([backend/odyssey_client.py]) *)

Module OdysseyClient.

(** One entry of [status.streams], with the attributes the client
    reads. *)
Record stream_detail : Type := {
  st_stream_id : string;
  st_video_url : option string;
  st_thumbnail_url : option string
}.

(** What [get_simulate_status] returns: [status.status.value],
    [status.streams] and [status.error_message]. *)
Record job_detail : Type := {
  jd_status_value : string;
  jd_streams : option (list stream_detail);
  jd_error_message : option string
}.

(** The scripted client: the answers of [simulate] and of
    [get_simulate_status]. *)
Record client : Type := {
  cl_simulate : pyval -> bool -> exn + job;
  cl_get_simulate_status : string -> exn + job_detail
}.

(** [self.current_job_id], and the job ids asked about so far. *)
Record state : Type := {
  current_job_id : option string;
  asked : list string
}.

(** What a method ends with when it raises: the [ValueError] of the
    method itself, or an exception of the client. *)
Inductive raised : Type :=
  | ValueError (msg : string)
  | ClientRaised (e : exn).

(** The dictionary [generate_scene] returns. *)
Record scene : Type := {
  sc_job_id : string;
  sc_status : string;
  sc_prompt : string
}.

(** The dictionary [get_job_status] returns; a key that the dictionary
    does not have is [None]. *)
Record job_status : Type := {
  js_job_id : string;
  js_status : string;
  js_video_url : option string;
  js_thumbnail_url : option (option string);
  js_stream_id : option string;
  js_error : option (option string)
}.

(** The script [generate_scene] submits. *)
Definition scene_script (prompt : string) : pyval :=
  PList [PDict [("timestamp_ms", PInt 0);
                ("start", PDict [("prompt", PStr prompt)])];
         PDict [("timestamp_ms", PInt 5000); ("end", PDict [])]].

(** A string that is not empty. *)
Definition nonempty (s : string) : bool := negb (String.eqb s "").

(** [a or b] on optional strings *)
Definition or_else (a b : option string) : option string :=
  match a with
  | Some s => if nonempty s then a else b
  | None => b
  end.

Section WithClient.

Variable cl : client.

(** [OdysseyClient.generate_scene]: every exception is raised again. *)
Definition generate_scene (prompt : string) (portrait : bool)
  : state -> (raised + scene) * state :=
  fun s =>
    match cl_simulate cl (scene_script prompt) portrait with
    | inl e => (inl (ClientRaised e), s)
    | inr job_detail =>
        let job_id := job_job_id job_detail in
        (inr {| sc_job_id := job_id; sc_status := "processing";
                sc_prompt := prompt |},
         {| current_job_id := Some job_id; asked := asked s |})
    end.

(** [OdysseyClient.get_job_status] *)
Definition get_job_status (job_id : option string)
  : state -> (raised + job_status) * state :=
  fun s =>
    match or_else job_id (current_job_id s) with
    | None => (inl (ValueError "No job ID provided or stored"), s)
    | Some job_id =>
        if negb (nonempty job_id)
        then (inl (ValueError "No job ID provided or stored"), s)
        else
          let s' := {| current_job_id := current_job_id s;
                       asked := (asked s ++ [job_id])%list |} in
          match cl_get_simulate_status cl job_id with
          | inl e =>
              if is_Exception e then
                (inr {| js_job_id := job_id; js_status := "error";
                        js_video_url := None; js_thumbnail_url := None;
                        js_stream_id := None;
                        js_error := Some (Some (str_exn e)) |}, s')
              else (inl (ClientRaised e), s')
          | inr status =>
              let result :=
                {| js_job_id := job_id; js_status := jd_status_value status;
                   js_video_url := None; js_thumbnail_url := None;
                   js_stream_id := None; js_error := None |} in
              let first :=
                match jd_streams status with
                | Some (stream :: _) => Some stream
                | _ => None
                end in
              match String.eqb (jd_status_value status) "completed", first with
              | true, Some stream =>
                  match st_video_url stream with
                  | Some url =>
                      if nonempty url then
                        (inr {| js_job_id := job_id;
                                js_status := jd_status_value status;
                                js_video_url := Some url;
                                js_thumbnail_url := Some (st_thumbnail_url stream);
                                js_stream_id := Some (st_stream_id stream);
                                js_error := None |}, s')
                      else (inr result, s')
                  | None => (inr result, s')
                  end
              | _, _ =>
                  if String.eqb (jd_status_value status) "failed" then
                    (inr {| js_job_id := job_id;
                            js_status := jd_status_value status;
                            js_video_url := None; js_thumbnail_url := None;
                            js_stream_id := None;
                            js_error := Some (jd_error_message status) |}, s')
                  else (inr result, s')
              end
          end
    end.

End WithClient.

End OdysseyClient.

(** ** [KeywordExtractor] ([backend/speech/keyword_extractor.py]) *)

Module KeywordExtractor.

(** [self.dictionary]: the categories in the order of the JSON file,
    each with its words and their prompt fragments. *)
Abbreviation dictionary := (list (string * gmap string string)).

(** [dictionary[category][word]] raises [KeyError] on a missing key. *)
Inductive key_error : Type := KeyError (key : string).

(** [", ".join(parts)] *)
Fixpoint join (sep : string) (parts : list string) : string :=
  match parts with
  | [] => ""
  | [x] => x
  | x :: rest => x +:+ sep +:+ join sep rest
  end.

(** [self.dictionary[category]] *)
Fixpoint category_words (d : dictionary) (category : string)
  : option (gmap string string) :=
  match d with
  | [] => None
  | (c, words) :: rest =>
      if String.eqb c category then Some words else category_words rest category
  end.

(** The inner loop of [extract_keywords]: the first category that has
    [word]. *)
Fixpoint category_of (d : dictionary) (word : string) : option string :=
  match d with
  | [] => None
  | (category, word_dict) :: rest =>
      match word_dict !! word with
      | Some _ => Some category
      | None => category_of rest word
      end
  end.

(** The outer loop of [extract_keywords] over [words], with the
    keywords found and the words seen so far. *)
Fixpoint scan (d : dictionary) (words : list string)
    (keywords : list (string * string)) (seen : gset string)
  : list (string * string) :=
  match words with
  | [] => keywords
  | word :: rest =>
      if decide (word ∈ seen) then scan d rest keywords seen
      else
        match category_of d word with
        | Some category =>
            scan d rest (keywords ++ [(word, category)])%list ({[word]} ∪ seen)
        | None => scan d rest keywords seen
        end
  end.

(** The fragments of the keywords of one category, in the order of the
    keywords. *)
Definition fragments_in (d : dictionary) (category : string)
    (keywords : list (string * string)) : list string :=
  omap (fun kw : string * string =>
          if String.eqb (snd kw) category then
            match category_words d (snd kw) with
            | Some words => words !! fst kw
            | None => None
            end
          else None) keywords.

Section WithDictionary.

(** [findall text] stands for
    [re.findall(r'\b\w+\b', text.lower().strip())]. *)
Variable findall : string -> list string.
Variable d : dictionary.

(** [KeywordExtractor.extract_keywords] *)
Definition extract_keywords (text : string) : list (string * string) :=
  scan d (findall text) [] ∅.

(** The [for word, category in keywords] loop of [build_prompt]: the
    fragments sorted into nouns, adjectives and verbs. *)
Fixpoint sort_fragments (keywords : list (string * string))
    (nouns adjectives verbs : list string)
  : key_error + (list string * list string * list string) :=
  match keywords with
  | [] => inr (nouns, adjectives, verbs)
  | (word, category) :: rest =>
      match category_words d category with
      | None => inl (KeyError category)
      | Some words =>
          match words !! word with
          | None => inl (KeyError word)
          | Some prompt_fragment =>
              if String.eqb category "nouns" then
                sort_fragments rest (nouns ++ [prompt_fragment])%list
                  adjectives verbs
              else if String.eqb category "adjectives" then
                sort_fragments rest nouns
                  (adjectives ++ [prompt_fragment])%list verbs
              else if String.eqb category "verbs" then
                sort_fragments rest nouns adjectives
                  (verbs ++ [prompt_fragment])%list
              else sort_fragments rest nouns adjectives verbs
          end
      end
  end.

(** [KeywordExtractor.build_prompt] *)
Definition build_prompt (keywords : list (string * string))
  : key_error + string :=
  match keywords with
  | [] => inr "abstract shapes and colors"
  | _ =>
      match sort_fragments keywords [] [] [] with
      | inl e => inl e
      | inr (nouns, adjectives, verbs) =>
          inr (join ", " (adjectives ++ nouns ++ verbs)%list)
      end
  end.

(** [KeywordExtractor.process_speech] *)
Definition process_speech (text : string) : key_error + string :=
  build_prompt (extract_keywords text).

End WithDictionary.

End KeywordExtractor.

(** ** Scripted handles used as examples *)

Module Examples.

Definition status_of (job_id status : string) (streams : option (list stream))
  : simulate_status :=
  {| ss_job_id := job_id; ss_status := status; ss_streams := streams;
     ss_error_message := Some None |}.

Definition no_recording : exn + recording :=
  inl (Raised ClientError "no recording").

(** A clock that advances ten seconds between two readings. *)
Definition ten_seconds_clock (n : nat) : Q := inject_Z (10 * Z.of_nat n).

(** Every job is accepted as [job-1] and reported completed, with an
    empty list of streams, at the first request. *)
Definition empty_result_service : service :=
  {| svc_simulate := fun _ _ => inr {| job_job_id := "job-1"; job_status := "pending" |};
     svc_status := fun job_id _ => inr (status_of job_id "completed" (Some []));
     svc_recording := fun _ => no_recording;
     svc_fetch := fun _ => FetchRefused (Raised ClientError "404");
     svc_mkdir := fun _ => None;
     svc_clock := ten_seconds_clock |}.

(** Every job stays pending for ever. *)
Definition pending_service : service :=
  {| svc_simulate := fun _ _ => inr {| job_job_id := "job-1"; job_status := "pending" |};
     svc_status := fun job_id _ => inr (status_of job_id "pending" None);
     svc_recording := fun _ => no_recording;
     svc_fetch := fun _ => FetchRefused (Raised ClientError "404");
     svc_mkdir := fun _ => None;
     svc_clock := ten_seconds_clock |}.

(** A job is pending, then running, then reported with a status the
    code has no name for. *)
Definition archived_service : service :=
  {| svc_simulate := fun _ _ => inr {| job_job_id := "job-1"; job_status := "pending" |};
     svc_status := fun job_id k =>
       inr (status_of job_id
              (match k with 0 => "pending" | 1 => "running" | _ => "archived" end)
              None);
     svc_recording := fun _ => no_recording;
     svc_fetch := fun _ => FetchRefused (Raised ClientError "404");
     svc_mkdir := fun _ => None;
     svc_clock := ten_seconds_clock |}.

(** The script of the class docstring, its start action given an image
    as raw bytes. *)
Definition robot_script : SimulationScript :=
  snd ((let* _ := add_start "A robot dancing" 0 (Some (ImageBytes "PNG")) in
        let* _ := add_interact "Robot breakdances" 5000 in
        add_end 10000) new_script).

(** Every path can be opened for writing. *)
Definition writable (filepath : string) : option exn := None.

(** The same script, its image given as a path. *)
Definition robot_script_path : SimulationScript :=
  snd ((let* _ := add_start "A robot dancing" 0 (Some (ImageStr "robot.png")) in
        let* _ := add_interact "Robot breakdances" 5000 in
        add_end 10000) new_script).

(** The prompt of the start action of a script. *)
Definition prompt_of (script_data : pyval) : option string :=
  match script_data with
  | PList (PDict (_ :: (_, PDict ((_, PStr prompt) :: _)) :: _) :: _) =>
      Some prompt
  | _ => None
  end.

(** A service for batches.  A script without a start action is refused;
    the submission of the script about an owl is cancelled; every other
    script is given the job named after its prompt.  A job is running at
    the first request and final at the second: failed for the dog,
    completed with one stream for the others.  Every download goes
    through but that of the thumbnail of the fox. *)
Definition batch_service : service :=
  {| svc_simulate := fun script_data _ =>
       match prompt_of script_data with
       | Some prompt =>
           if String.eqb prompt "Owl" then inl (Raised CancelledError "")
           else inr {| job_job_id := "job-" +:+ prompt;
                       job_status := "pending" |}
       | None => inl (Raised ClientError "invalid script")
       end;
     svc_status := fun job_id k =>
       inr (status_of job_id
              (match k with
               | 0 => "running"
               | _ => if String.eqb job_id "job-Dog" then "failed"
                      else "completed"
               end)
              (Some [{| stream_id := "stream-" +:+ job_id |}]));
     svc_recording := fun stream_id =>
       inr {| video_url := stream_id +:+ ".mp4";
              thumbnail_url := stream_id +:+ ".jpg" |};
     svc_fetch := fun url =>
       if String.eqb url "stream-job-Fox.jpg"
       then FetchRefused (Raised ClientError "404")
       else FetchBody "data";
     svc_mkdir := fun _ => None;
     svc_clock := ten_seconds_clock |}.

Definition script_about (prompt : string) : SimulationScript + pyval :=
  inl (snd ((let* _ := add_start prompt 0 None in add_end 5000) new_script)).

(** Three scripts, two slots: the first two coroutines hold the slots
    and the third is at the semaphore. *)
Definition three_scripts : list (SimulationScript + pyval) :=
  [script_about "Cat"; script_about "Dog"; script_about "Fox"].

Definition two_slots_taken : batch :=
  {| semaphore := 0;
     tasks := [ {| t_script := script_about "Cat"; t_index := 0;
                   t_pc := AtSubmit |};
                {| t_script := script_about "Dog"; t_index := 1;
                   t_pc := AtSubmit |};
                {| t_script := script_about "Fox"; t_index := 2;
                   t_pc := Queued |} ];
     mgr := new_manager;
     sem_events := [Acquire 0; Acquire 1] |}.

(** A batch of one script whose submission is cancelled, once over. *)
Definition cancelled_batch : batch :=
  {| semaphore := 1;
     tasks := [ {| t_script := script_about "Owl"; t_index := 0;
                   t_pc := Finished (Escaped (Raised CancelledError "")) |} ];
     mgr := snd (submit batch_service (script_about "Owl") true
                   (Some (batch_name 0)) new_manager);
     sem_events := [Acquire 0; Release 0] |}.

(** A batch of one script whose job stays pending, at its wait. *)
Definition waiting_batch : batch :=
  {| semaphore := 0;
     tasks := [ {| t_script := script_about "Cat"; t_index := 0;
                   t_pc := AtWait "job-1" |} ];
     mgr := snd (submit pending_service (script_about "Cat") true
                   (Some (batch_name 0)) new_manager);
     sem_events := [Acquire 0] |}.

(** A batch whose first script is refused and whose second succeeds. *)
Definition two_scripts : list (SimulationScript + pyval) :=
  [inl new_script; script_about "Cat"].

Definition two_results : list gathered :=
  [ Returned (failed_result 0 (Raised ClientError "invalid script"));
    Returned (success_result 1 "job-Cat"
                ["outputs/job-Cat_stream_0.mp4";
                 "outputs/job-Cat_stream_0_thumb.jpg"]) ].

(** An Odyssey client that accepts every call. *)
Definition accepting_client : OdysseyClientManager.odyssey :=
  {| OdysseyClientManager.oc_raises := fun _ _ => None;
     OdysseyClientManager.oc_stream_id := fun n => "stream-" +:+ pretty n |}.

(** A session connected and streaming. *)
Definition streaming_session : OdysseyClientManager.state :=
  {| OdysseyClientManager._connected := true;
     OdysseyClientManager._current_stream_id := Some "stream-1";
     OdysseyClientManager.client_calls :=
       [OdysseyClientManager.ClientConnect;
        OdysseyClientManager.ClientStartStream "A robot dancing" true] |}.

(** Websockets of which number 2 is closed: sending on it raises. *)
Definition one_closed_socket : StreamManager.sockets :=
  {| StreamManager.ws_accept := fun _ => None;
     StreamManager.ws_send_text := fun w _ =>
       if Nat.eqb w 2 then Some (Raised RuntimeError "websocket closed")
       else None;
     StreamManager.ws_send_takes := fun _ _ => 0 |}.

Definition three_viewers : StreamManager.state :=
  {| StreamManager.active_connections := [1; 2; 3];
     StreamManager.is_streaming := true;
     StreamManager.delivered := [] |}.

End Examples.

(** ** More scripted handles *)

Module MoreExamples.

(** A manager that tracks the job of the cat under the name [first]. *)
Definition tracking_manager : manager :=
  snd (submit Examples.batch_service (Examples.script_about "Cat") true
         (Some "first") new_manager).

(** The service accepts every request to cancel. *)
Definition cancel_accepted (job_id : string) : option exn := None.

(** The status the batch service gives a job from the second request
    on, here for the cat. *)
Definition cat_completed : status_dict :=
  {| sd_job_id := "job-Cat"; sd_status := "completed";
     sd_streams := [{| stream_id := "stream-job-Cat" |}];
     sd_error := None |}.

(** The service is out of order at the second status request. *)
Definition flaky_service : service :=
  {| svc_simulate := svc_simulate Examples.batch_service;
     svc_status := fun job_id k =>
       match k with
       | 0 => svc_status Examples.batch_service job_id 0
       | _ => inl (Raised ClientError "503")
       end;
     svc_recording := svc_recording Examples.batch_service;
     svc_fetch := svc_fetch Examples.batch_service;
     svc_mkdir := svc_mkdir Examples.batch_service;
     svc_clock := svc_clock Examples.batch_service |}.

(** A final status with two streams, of which the second has no
    recording. *)
Definition second_recording_missing : service :=
  {| svc_simulate := svc_simulate Examples.batch_service;
     svc_status := svc_status Examples.batch_service;
     svc_recording := fun stream_id =>
       if String.eqb stream_id "b" then inl (Raised ClientError "no recording")
       else svc_recording Examples.batch_service stream_id;
     svc_fetch := svc_fetch Examples.batch_service;
     svc_mkdir := svc_mkdir Examples.batch_service;
     svc_clock := svc_clock Examples.batch_service |}.

Definition two_streams : status_dict :=
  {| sd_job_id := "job-1"; sd_status := "completed";
     sd_streams := [{| stream_id := "a" |}; {| stream_id := "b" |}];
     sd_error := None |}.

(** A client of the backend: every scene becomes the job [job-7], and
    every job is completed with one stream. *)
Definition scene_client : OdysseyClient.client :=
  {| OdysseyClient.cl_simulate := fun _ _ =>
       inr {| job_job_id := "job-7"; job_status := "pending" |};
     OdysseyClient.cl_get_simulate_status := fun _ =>
       inr {| OdysseyClient.jd_status_value := "completed";
              OdysseyClient.jd_streams :=
                Some [{| OdysseyClient.st_stream_id := "s-1";
                         OdysseyClient.st_video_url := Some "https://v/1.mp4";
                         OdysseyClient.st_thumbnail_url := None |}];
              OdysseyClient.jd_error_message := None |} |}.

(** Websockets that all take every text, the higher the number the
    sooner. *)
Definition last_is_fastest : StreamManager.sockets :=
  {| StreamManager.ws_accept := fun _ => None;
     StreamManager.ws_send_text := fun _ _ => None;
     StreamManager.ws_send_takes := fun w _ => 10 - w |}.

Definition no_job_yet : OdysseyClient.state :=
  {| OdysseyClient.current_job_id := None; OdysseyClient.asked := [] |}.

(** A dictionary of four words in three categories. *)
Definition small_dictionary : KeywordExtractor.dictionary :=
  [("nouns", <["car" := "a car on a road"]> (<["cat" := "a cat"]> ∅));
   ("adjectives", <["red" := "bright red"]> ∅);
   ("verbs", <["flying" := "flying through the sky"]> ∅)].

(** The words of the phrase [red car flying red]. *)
Definition red_car_flying (text : string) : list string :=
  ["red"; "car"; "flying"; "red"].

End MoreExamples.

(** * Properties *)

Ltac munfold :=
  unfold bind, ret, raise, gets, modify, lift_outcome, answer, log_call,
    set_active_jobs, loop_time, write_file in *.

(** ** The embedding at work *)

Module Checks.

(** The action [add_start] appends, with an image given as a path. *)
Example add_start_action :
  actions (snd (add_start "A cat" 0 (Some (ImageStr "cat.png")) new_script))
  = PList [PDict [("timestamp_ms", PInt 0);
                  ("start", PDict [("prompt", PStr "A cat");
                                   ("image", PStr "cat.png")])]].
Proof. reflexivity. Qed.

(** [get_status] keeps the stream ids, in order. *)
Example status_dict_two_streams :
  status_dict_of
    (Examples.status_of "job-1" "completed"
       (Some [{| stream_id := "a" |}; {| stream_id := "b" |}]))
  = {| sd_job_id := "job-1"; sd_status := "completed";
       sd_streams := [{| stream_id := "a" |}; {| stream_id := "b" |}];
       sd_error := None |}.
Proof. reflexivity. Qed.

(** A job that is running at the first request and completed at the
    second is waited for with two requests and one sleep. *)
Example wait_two_requests :
  let r := wait_for_completion Examples.batch_service 2 "job-Cat" 5 None
             new_manager in
  fst r = Ret {| sd_job_id := "job-Cat"; sd_status := "completed";
                 sd_streams := [{| stream_id := "stream-job-Cat" |}];
                 sd_error := None |} /\
  calls (snd r) = [CallStatus "job-Cat"; CallSleep 5; CallStatus "job-Cat"].
Proof. split; vm_compute; reflexivity. Qed.

(** A failed job makes the wait raise, with the text of the error. *)
Example wait_failed_job :
  fst (wait_for_completion Examples.batch_service 2 "job-Dog" 5 None
         new_manager)
  = Exn (Raised RuntimeError "Job failed: None").
Proof. vm_compute. reflexivity. Qed.

(** The video and the thumbnail of each stream are downloaded. *)
Example download_one_stream :
  let r := download_result Examples.batch_service
             {| sd_job_id := "job-Cat"; sd_status := "completed";
                sd_streams := [{| stream_id := "stream-job-Cat" |}];
                sd_error := None |} "./outputs" new_manager in
  fst r = Ret ["outputs/job-Cat_stream_0.mp4";
               "outputs/job-Cat_stream_0_thumb.jpg"] /\
  calls (snd r) = [CallMkdir "./outputs"; CallRecording "stream-job-Cat";
                   CallFetch "stream-job-Cat.mp4";
                   CallFetch "stream-job-Cat.jpg"].
Proof. split; vm_compute; reflexivity. Qed.

(** [Path(output_dir) / name] as [str] gives it: the leading [./] and
    a trailing slash go, an empty directory gives the name alone, and a
    name that starts with a slash takes the place of the directory. *)
Example paths_of_the_first_video :
  video_path "./outputs" "job-1" 0 = "outputs/job-1_stream_0.mp4" /\
  video_path "outputs/" "job-1" 0 = "outputs/job-1_stream_0.mp4" /\
  video_path "/tmp//out/." "job-1" 0 = "/tmp/out/job-1_stream_0.mp4" /\
  video_path "" "job-1" 0 = "job-1_stream_0.mp4" /\
  video_path "." "job-1" 0 = "job-1_stream_0.mp4" /\
  video_path "outputs" "a/b" 0 = "outputs/a/b_stream_0.mp4" /\
  video_path "outputs" "/job" 0 = "/job_stream_0.mp4" /\
  video_path "../out" "job-1" 10 = "../out/job-1_stream_10.mp4".
Proof. repeat split; vm_compute; reflexivity. Qed.

(** A script whose actions have no length, as [from_file] gives of a
    file that holds [null], is not sent to the service: the log line of
    [submit] raises first, and the manager is as it was. *)
Example submit_script_without_length :
  submit Examples.batch_service (inl {| actions := PNone |}) true None
    new_manager
  = (Exn (Raised TypeError "object of type 'NoneType' has no len()"),
     new_manager).
Proof. vm_compute. reflexivity. Qed.

(** A file in a directory that is not there cannot be opened:
    [to_file] raises and no file is made. *)
Example to_file_missing_directory :
  to_file (fun filepath =>
             Some (Raised FileNotFoundError "No such file or directory"))
    Examples.robot_script_path "missing/robot.json" ∅
  = (Exn (Raised FileNotFoundError "No such file or directory"), ∅).
Proof. vm_compute. reflexivity. Qed.

(** The readings [0.3] and [10.3] of the clock are [float]s, and so is
    their difference: it is [10.0], which is not more than a timeout of
    [10], though [10.3 - 0.3] taken exactly would be. *)
Example ten_seconds_on_the_clock :
  Qred (round64 (3 # 10)) = (5404319552844595 # 18014398509481984)%Q /\
  Qred (float_sub (103 # 10) (3 # 10)) = 10%Q /\
  elapsed_gt (float_sub (103 # 10) (3 # 10)) (Some 10%Z) = false /\
  elapsed_gt (float_sub (104 # 10) (3 # 10)) (Some 10%Z) = true /\
  timeout_message "job-1" (float_sub (104 # 10) (3 # 10))
  = "Job job-1 timed out after 10.1s".
Proof. repeat split; vm_compute; reflexivity. Qed.

(** [ {elapsed:.1f} ] rounds to the nearest tenth, a tie to the even
    digit. *)
Example one_digit_after_the_point :
  format_1f (round64 (1025 # 100)) = "10.2" /\
  format_1f (round64 (1035 # 100)) = "10.3" /\
  format_1f (round64 (5 # 100)) = "0.1" /\
  format_1f (round64 (- 4 # 100)) = "-0.0" /\
  format_1f 0 = "0.0".
Proof. repeat split; vm_compute; reflexivity. Qed.

(** A download that fails makes the item fail, with its index. *)
Example fox_item_fails :
  fst (try_process Examples.batch_service "./outputs" true 2
         (Examples.script_about "Fox") 2 new_manager)
  = Ret (failed_result 2 (Raised ClientError "404")).
Proof. vm_compute. reflexivity. Qed.

(** The log line of [process_batch] counts a failure dictionary among
    the successes: it is no [Exception]. *)
Example successes_counts_dictionaries :
  successes Examples.two_results = 2.
Proof. reflexivity. Qed.

(** [disconnect] removes the first occurrence of the websocket only. *)
Example disconnect_removes_one :
  StreamManager.active_connections
    (snd (StreamManager.disconnect 2 Examples.three_viewers)) = [1; 3].
Proof. reflexivity. Qed.

End Checks.

(** ** The completion wait *)

Section Waiting.

Variable svc : service.

Lemma get_status_answer job_id k m st :
  svc_status svc job_id k = inr st ->
  exists m',
    get_status svc job_id k m = (Ret (status_dict_of st), m') /\
    calls m' = (calls m ++ [CallStatus job_id])%list /\
    clock_reads m' = clock_reads m.
Proof.
  intros Hst. unfold get_status. munfold. rewrite Hst. simpl.
  eexists. split; [reflexivity|]. split; reflexivity.
Qed.

Lemma get_status_raises job_id k m e :
  svc_status svc job_id k = inl e ->
  exists m',
    get_status svc job_id k m = (Exn e, m') /\
    calls m' = (calls m ++ [CallStatus job_id])%list.
Proof.
  intros Hst. unfold get_status. munfold. rewrite Hst. simpl.
  eexists. split; reflexivity.
Qed.

Lemma is_done_status_dict_of st :
  is_done (status_dict_of st) = negb (in_progress (ss_status st)).
Proof. reflexivity. Qed.

Lemma poll_trace_busy job_id poll_interval n :
  poll_trace job_id poll_interval n
    = (busy_trace job_id poll_interval n ++ [CallStatus job_id])%list.
Proof. induction n as [|n IH]; simpl; [|rewrite IH]; reflexivity. Qed.

(** [n] iterations that see the job going and whose timeout check
    does not fire lead to iteration [k + n]. *)
Lemma poll_loop_skip n :
  forall fuel job_id poll_interval timeout start_time k m,
    (forall j, j < n -> busy_at svc job_id (k + j)) ->
    (forall j, j < n ->
       expires timeout start_time (svc_clock svc (clock_reads m + j)) = false) ->
    exists m',
      poll_loop svc (n + fuel) job_id poll_interval timeout start_time k m
        = poll_loop svc fuel job_id poll_interval timeout start_time (k + n) m' /\
      calls m' = (calls m ++ busy_trace job_id poll_interval n)%list /\
      clock_reads m' = clock_reads m + (if truthy timeout then n else 0).
Proof.
  induction n as [|n IH]; intros fuel job_id pi timeout start k m Hbusy Hclock.
  - exists m. rewrite Nat.add_0_r, app_nil_r.
    split; [reflexivity|]. split; [reflexivity|]. destruct (truthy timeout); lia.
  - simpl.
    destruct (Hbusy 0) as (s0 & Hs0 & Hp0); [lia|].
    rewrite Nat.add_0_r in Hs0.
    destruct (get_status_answer job_id k m s0 Hs0)
      as (m1 & Hget & Hcalls & Hreads).
    unfold bind at 1. rewrite Hget.
    rewrite is_done_status_dict_of, Hp0. simpl.
    specialize (Hclock 0) as Hc0. rewrite Nat.add_0_r in Hc0.
    specialize (Hc0 ltac:(lia)). unfold expires in Hc0.
    destruct (truthy timeout) eqn:Htruthy.
    + simpl in Hc0. rewrite <- Hreads in Hc0. munfold. simpl.
      rewrite Hc0. simpl.
      edestruct (IH fuel job_id pi timeout start (S k)
                   {| active_jobs := active_jobs m1;
                      clock_reads := S (clock_reads m1);
                      calls := (calls m1 ++ [CallSleep pi])%list;
                      files := files m1 |}) as (m' & Hloop & Hcalls' & Hreads').
      * intros j Hj. replace (S k + j) with (k + S j) by lia.
        apply Hbusy. lia.
      * intros j Hj. cbn [clock_reads]. rewrite Hreads.
        replace (S (clock_reads m) + j) with (clock_reads m + S j) by lia.
        apply Hclock. lia.
      * exists m'. rewrite Hloop, Hcalls', Hreads', Htruthy.
        cbn [calls clock_reads]. rewrite Hcalls, Hreads, <- !app_assoc.
        replace (S k + n) with (k + S n) by lia.
        split; [reflexivity|]. split; [reflexivity | lia].
    + munfold. simpl.
      edestruct (IH fuel job_id pi timeout start (S k)
                   {| active_jobs := active_jobs m1;
                      clock_reads := clock_reads m1;
                      calls := (calls m1 ++ [CallSleep pi])%list;
                      files := files m1 |}) as (m' & Hloop & Hcalls' & Hreads').
      * intros j Hj. replace (S k + j) with (k + S j) by lia.
        apply Hbusy. lia.
      * intros j Hj. unfold expires. rewrite Htruthy. reflexivity.
      * exists m'. rewrite Hloop, Hcalls', Hreads', Htruthy.
        cbn [calls clock_reads]. rewrite Hcalls, Hreads, <- !app_assoc.
        replace (S k + n) with (k + S n) by lia.
        split; [reflexivity|]. split; [reflexivity | lia].
Qed.

(** The loop breaks on the first status that is neither pending nor
    running, unless a timeout check fires before. *)
Lemma poll_loop_terminal n fuel job_id poll_interval timeout start_time m st :
  n < fuel ->
  (forall j, j < n -> busy_at svc job_id j) ->
  (forall j, j < n ->
     expires timeout start_time (svc_clock svc (clock_reads m + j)) = false) ->
  svc_status svc job_id n = inr st ->
  in_progress (ss_status st) = false ->
  exists m',
    poll_loop svc fuel job_id poll_interval timeout start_time 0 m
      = (Ret (status_dict_of st), m') /\
    calls m' = (calls m ++ poll_trace job_id poll_interval n)%list.
Proof.
  intros Hfuel Hbusy Hclock Hst Hfinal.
  destruct (poll_loop_skip n (fuel - n) job_id poll_interval timeout
              start_time 0 m Hbusy Hclock) as (m1 & Hskip & Hcalls & _).
  replace (n + (fuel - n)) with fuel in Hskip by lia.
  rewrite Hskip. destruct (fuel - n) as [|fuel'] eqn:Hf; [lia|]. simpl.
  destruct (get_status_answer job_id n m1 st Hst) as (m2 & Hget & Hcalls2 & _).
  unfold bind at 1. rewrite Hget, is_done_status_dict_of, Hfinal. simpl.
  exists m2. split; [reflexivity|].
  rewrite Hcalls2, Hcalls, poll_trace_busy, app_assoc. reflexivity.
Qed.

(** The loop raises [TimeoutError] at the first timeout check that
    fires, when the job is still going then. *)
Lemma poll_loop_times_out n fuel job_id poll_interval timeout start_time m :
  n < fuel ->
  (forall j, j <= n -> busy_at svc job_id j) ->
  (forall j, j < n ->
     expires timeout start_time (svc_clock svc (clock_reads m + j)) = false) ->
  expires timeout start_time (svc_clock svc (clock_reads m + n)) = true ->
  exists m',
    poll_loop svc fuel job_id poll_interval timeout start_time 0 m
      = (Exn (Raised TimeoutError
                (timeout_message job_id
                   (float_sub (svc_clock svc (clock_reads m + n))
                      start_time))), m').
Proof.
  intros Hfuel Hbusy Hclock Hfire.
  assert (Htruthy : truthy timeout = true).
  { unfold expires in Hfire. destruct (truthy timeout); [reflexivity | discriminate]. }
  destruct (poll_loop_skip n (fuel - n) job_id poll_interval timeout
              start_time 0 m ltac:(intros; apply Hbusy; lia) Hclock)
    as (m1 & Hskip & _ & Hreads).
  replace (n + (fuel - n)) with fuel in Hskip by lia.
  rewrite Hskip. destruct (fuel - n) as [|fuel'] eqn:Hf; [lia|]. simpl.
  destruct (Hbusy n) as (sn & Hsn & Hpn); [lia|].
  destruct (get_status_answer job_id n m1 sn Hsn) as (m2 & Hget & _ & Hreads2).
  unfold bind at 1. rewrite Hget, is_done_status_dict_of, Hpn. simpl.
  unfold expires in Hfire. rewrite Htruthy in Hfire, Hreads |- *.
  simpl in Hfire. munfold. simpl. rewrite Hreads2, Hreads, Hfire. simpl.
  eexists. reflexivity.
Qed.

(** While the job is going and no timeout check fires, the loop goes
    on: it uses up any number of iterations. *)
Lemma poll_loop_goes_on fuel job_id poll_interval timeout start_time m :
  (forall j, j < fuel -> busy_at svc job_id j) ->
  (forall j, j < fuel ->
     expires timeout start_time (svc_clock svc (clock_reads m + j)) = false) ->
  fst (poll_loop svc fuel job_id poll_interval timeout start_time 0 m) = Fuel.
Proof.
  intros Hbusy Hclock.
  destruct (poll_loop_skip fuel 0 job_id poll_interval timeout start_time 0 m
              Hbusy Hclock) as (m1 & Hskip & _).
  rewrite Nat.add_0_r in Hskip. rewrite Hskip. reflexivity.
Qed.

(** What [wait_for_completion] does with the first reported status
    that is neither pending nor running. *)
Lemma wait_for_completion_first_final
    n fuel job_id poll_interval timeout m st :
  n < fuel ->
  (forall j, j < n -> busy_at svc job_id j) ->
  (forall j, j < n ->
     expires timeout (svc_clock svc (clock_reads m))
       (svc_clock svc (S (clock_reads m) + j)) = false) ->
  svc_status svc job_id n = inr st ->
  in_progress (ss_status st) = false ->
  exists m',
    wait_for_completion svc fuel job_id poll_interval timeout m
      = (if String.eqb (ss_status st) "failed" then
           Exn (Raised RuntimeError
                  ("Job failed: " +:+ format_error (sd_error (status_dict_of st))))
         else if String.eqb (ss_status st) "cancelled" then
           Exn (Raised RuntimeError "Job was cancelled")
         else Ret (status_dict_of st),
         m') /\
    calls m' = (calls m ++ poll_trace job_id poll_interval n)%list.
Proof.
  intros Hfuel Hbusy Hclock Hst Hfinal.
  unfold wait_for_completion. unfold bind at 1. unfold loop_time at 1.
  destruct (poll_loop_terminal n fuel job_id poll_interval timeout
              (svc_clock svc (clock_reads m))
              {| active_jobs := active_jobs m;
                 clock_reads := S (clock_reads m);
                 calls := calls m; files := files m |} st
              Hfuel Hbusy Hclock Hst Hfinal) as (m' & Hloop & Hcalls).
  exists m'. unfold bind. rewrite Hloop. cbn [sd_status status_dict_of].
  split; [|exact Hcalls].
  destruct (String.eqb (ss_status st) "failed"); [reflexivity|].
  destruct (String.eqb (ss_status st) "cancelled"); reflexivity.
Qed.

(** C10.  [wait_for_completion] breaks out of its loop on the first
    reported status that is neither ['pending'] nor ['running'], having
    polled exactly once more than the number of earlier reports; it
    raises [RuntimeError] only when that status is ['failed'] or
    ['cancelled'] and returns the status dictionary for every other
    status string, whatever it is. *)
Theorem wait_for_completion_terminal
    n fuel job_id poll_interval timeout m st :
  n < fuel ->
  (forall j, j < n -> busy_at svc job_id j) ->
  (forall j, j < n ->
     expires timeout (svc_clock svc (clock_reads m))
       (svc_clock svc (S (clock_reads m) + j)) = false) ->
  svc_status svc job_id n = inr st ->
  in_progress (ss_status st) = false ->
  exists m',
    wait_for_completion svc fuel job_id poll_interval timeout m
      = (if String.eqb (ss_status st) "failed" then
           Exn (Raised RuntimeError
                  ("Job failed: " +:+ format_error (sd_error (status_dict_of st))))
         else if String.eqb (ss_status st) "cancelled" then
           Exn (Raised RuntimeError "Job was cancelled")
         else Ret (status_dict_of st),
         m') /\
    calls m' = (calls m ++ poll_trace job_id poll_interval n)%list.
Proof. exact (wait_for_completion_first_final n fuel job_id poll_interval timeout m st). Qed.

(** A status the loop hands over is never pending or running. *)
Lemma poll_loop_ret_done fuel :
  forall job_id poll_interval timeout start_time k m sd m',
    poll_loop svc fuel job_id poll_interval timeout start_time k m
      = (Ret sd, m') ->
    is_done sd = true.
Proof.
  induction fuel as [|fuel IH]; intros job_id pi timeout start k m sd m' H.
  - discriminate.
  - simpl in H. unfold bind at 1 in H.
    destruct (get_status svc job_id k m) as [[sd0| |] m1]; try discriminate.
    destruct (is_done sd0) eqn:Hdone.
    + unfold ret in H. injection H as <- <-. exact Hdone.
    + unfold bind at 1 in H.
      destruct (truthy timeout).
      * unfold bind at 1 in H. unfold loop_time at 1 in H.
        destruct (elapsed_gt _ timeout); [discriminate|].
        unfold ret at 1 in H. unfold bind at 1, log_call, modify in H.
        eapply IH. exact H.
      * unfold ret at 1 in H. unfold bind at 1, log_call, modify in H.
        eapply IH. exact H.
Qed.

Lemma wait_for_completion_ret_done
    fuel job_id poll_interval timeout m sd m' :
  wait_for_completion svc fuel job_id poll_interval timeout m = (Ret sd, m') ->
  in_progress (sd_status sd) = false.
Proof.
  unfold wait_for_completion. unfold bind at 1. unfold loop_time at 1.
  unfold bind at 1.
  destruct (poll_loop svc fuel job_id poll_interval timeout _ 0 _)
    as [[sd0| |] m1] eqn:Hloop; try discriminate.
  apply poll_loop_ret_done in Hloop.
  destruct (String.eqb (sd_status sd0) "failed"); [discriminate|].
  destruct (String.eqb (sd_status sd0) "cancelled"); [discriminate|].
  unfold ret. intros H. injection H as <- <-.
  unfold is_done in Hloop. destruct (in_progress (sd_status sd0));
    [discriminate | reflexivity].
Qed.

(** A wait whose [timeout] is [None] or [0] skips every timeout check:
    while the job is going it keeps polling. *)
Lemma wait_for_completion_unbounded fuel job_id poll_interval timeout m :
  truthy timeout = false ->
  (forall k, k < fuel -> busy_at svc job_id k) ->
  fst (wait_for_completion svc fuel job_id poll_interval timeout m) = Fuel.
Proof.
  intros Htruthy Hbusy.
  unfold wait_for_completion. unfold bind at 1. unfold loop_time at 1.
  unfold bind at 1.
  pose proof (poll_loop_goes_on fuel job_id poll_interval timeout
                (svc_clock svc (clock_reads m))
                {| active_jobs := active_jobs m;
                   clock_reads := S (clock_reads m);
                   calls := calls m; files := files m |} Hbusy) as Hloop.
  destruct (poll_loop svc fuel job_id poll_interval timeout _ 0 _)
    as [[sd0| |] m1]; simpl in Hloop.
  - discriminate Hloop.
    intros j _. unfold expires. rewrite Htruthy. reflexivity.
  - discriminate Hloop.
    intros j _. unfold expires. rewrite Htruthy. reflexivity.
  - reflexivity.
Qed.

(** A wait whose [timeout] is a number other than [0] raises
    [TimeoutError] at the first check, made after a report that the job
    is still going, at which the clock is more than [timeout] past the
    start. *)
Lemma wait_for_completion_times_out n fuel job_id poll_interval t m :
  t <> 0%Z ->
  n < fuel ->
  (forall j, j <= n -> busy_at svc job_id j) ->
  (forall j, j < n ->
     (float_sub (svc_clock svc (S (clock_reads m) + j))
        (svc_clock svc (clock_reads m)) <= inject_Z t)%Q) ->
  (inject_Z t
     < float_sub (svc_clock svc (S (clock_reads m) + n))
         (svc_clock svc (clock_reads m)))%Q ->
  exists msg,
    fst (wait_for_completion svc fuel job_id poll_interval (Some t) m)
      = Exn (Raised TimeoutError msg).
Proof.
  intros Ht Hfuel Hbusy Hbefore Hafter.
  unfold wait_for_completion. unfold bind at 1. unfold loop_time at 1.
  destruct (poll_loop_times_out n fuel job_id poll_interval (Some t)
              (svc_clock svc (clock_reads m))
              {| active_jobs := active_jobs m;
                 clock_reads := S (clock_reads m);
                 calls := calls m; files := files m |} Hfuel Hbusy)
    as (m' & Hloop).
  - intros j Hj. unfold expires, elapsed_gt. cbn [clock_reads].
    destruct (Qlt_le_dec _ _) as [Hlt|Hle].
    + exfalso. specialize (Hbefore j Hj).
      exact (Qlt_not_le _ _ Hlt Hbefore).
    + apply andb_false_r.
  - unfold expires, elapsed_gt, truthy. cbn [clock_reads].
    destruct (Qlt_le_dec _ _) as [Hlt|Hle].
    + apply Z.eqb_neq in Ht. rewrite Ht. reflexivity.
    + exfalso. exact (Qlt_not_le _ _ Hafter Hle).
  - unfold bind. rewrite Hloop. simpl. eexists. reflexivity.
Qed.

(** C1, as the code has it.  When the first status that is neither
    pending nor running is ['completed'] and comes with no stream,
    [wait_for_completion] returns that status dictionary to the caller,
    with its empty list of streams, and [download_result] on it, once
    the output directory is there, returns the empty list without asking
    for any recording. *)
Theorem completed_without_streams_returns
    n fuel job_id poll_interval timeout m st :
  n < fuel ->
  (forall j, j < n -> busy_at svc job_id j) ->
  (forall j, j < n ->
     expires timeout (svc_clock svc (clock_reads m))
       (svc_clock svc (S (clock_reads m) + j)) = false) ->
  svc_status svc job_id n = inr st ->
  ss_status st = "completed" ->
  ss_streams st = None \/ ss_streams st = Some [] ->
  exists m',
    wait_for_completion svc fuel job_id poll_interval timeout m
      = (Ret (status_dict_of st), m') /\
    sd_status (status_dict_of st) = "completed" /\
    sd_streams (status_dict_of st) = [] /\
    forall output_dir m2,
      svc_mkdir svc output_dir = None ->
      fst (download_result svc (status_dict_of st) output_dir m2) = Ret [] /\
      calls (snd (download_result svc (status_dict_of st) output_dir m2))
        = (calls m2 ++ [CallMkdir output_dir])%list.
Proof.
  intros Hfuel Hbusy Hclock Hst Hcompleted Hstreams.
  destruct (wait_for_completion_first_final n fuel job_id poll_interval
              timeout m st Hfuel Hbusy Hclock Hst) as (m' & Hwait & _).
  { rewrite Hcompleted. reflexivity. }
  rewrite Hcompleted in Hwait. simpl in Hwait.
  exists m'. split; [exact Hwait|]. split; [exact Hcompleted|].
  assert (Hnone : sd_streams (status_dict_of st) = []).
  { unfold status_dict_of. simpl. destruct Hstreams as [-> | ->]; reflexivity. }
  split; [exact Hnone|].
  intros output_dir m2 Hmkdir. unfold download_result. munfold.
  rewrite Hnone, Hmkdir. split; reflexivity.
Qed.

End Waiting.

Lemma wait_for_completion_terminal_witness :
  exists m',
    wait_for_completion Examples.archived_service 3 "job-1" 5 (Some 60%Z)
      new_manager
      = (Ret (status_dict_of (Examples.status_of "job-1" "archived" None)), m') /\
    calls m' = [CallStatus "job-1"; CallSleep 5; CallStatus "job-1";
                CallSleep 5; CallStatus "job-1"].
Proof.
  apply (wait_for_completion_terminal Examples.archived_service 2 3 "job-1"
           5%Z (Some 60%Z) new_manager
           (Examples.status_of "job-1" "archived" None)).
  - lia.
  - intros j Hj. destruct j as [|[|j]]; [| |lia];
      eexists; split; reflexivity.
  - intros j Hj. destruct j as [|[|j]]; [| |lia]; vm_compute; reflexivity.
  - reflexivity.
  - reflexivity.
Defined.


Lemma completed_without_streams_returns_witness :
  exists m',
    wait_for_completion Examples.empty_result_service 1 "job-1" 5 None
      new_manager
      = (Ret (status_dict_of (Examples.status_of "job-1" "completed" (Some []))),
         m') /\
    sd_status (status_dict_of (Examples.status_of "job-1" "completed" (Some [])))
      = "completed" /\
    sd_streams (status_dict_of (Examples.status_of "job-1" "completed" (Some [])))
      = [] /\
    forall output_dir m2,
      svc_mkdir Examples.empty_result_service output_dir = None ->
      fst (download_result Examples.empty_result_service
             (status_dict_of (Examples.status_of "job-1" "completed" (Some [])))
             output_dir m2) = Ret [] /\
      calls (snd (download_result Examples.empty_result_service
             (status_dict_of (Examples.status_of "job-1" "completed" (Some [])))
             output_dir m2))
        = (calls m2 ++ [CallMkdir output_dir])%list.
Proof.
  apply (completed_without_streams_returns Examples.empty_result_service
           0 1 "job-1" 5%Z None new_manager
           (Examples.status_of "job-1" "completed" (Some []))).
  - lia.
  - intros j Hj. lia.
  - intros j Hj. lia.
  - reflexivity.
  - reflexivity.
  - right. reflexivity.
Defined.

(** C1, as the claim has it, fails: a job reported ['completed'] with an
    empty list of streams makes [wait_for_completion] return, not raise;
    [download_result] returns the empty list; and the batch item built
    on the two is a ['success'] with no file. *)
Lemma empty_result_is_reported_as_success :
  fst (wait_for_completion Examples.empty_result_service 1 "job-1" 5 None
         new_manager)
    = Ret {| sd_job_id := "job-1"; sd_status := "completed";
             sd_streams := []; sd_error := None |} /\
  fst (download_result Examples.empty_result_service
         {| sd_job_id := "job-1"; sd_status := "completed";
            sd_streams := []; sd_error := None |} "./outputs" new_manager)
    = Ret [] /\
  fst (try_process Examples.empty_result_service "./outputs" true 1
         (inl new_script) 0 new_manager)
    = Ret {| br_index := 0; br_status := "success"; br_job_id := Some "job-1";
             br_files := Some []; br_error := None |}.
Proof. repeat split; vm_compute; reflexivity. Qed.

(** C7, at the failing input.  With [timeout=0] and a job that stays
    pending, [wait_for_completion] never raises [TimeoutError]: however
    many iterations it is given, and although the clock has advanced ten
    seconds at every reading, it is still polling. *)
Theorem wait_timeout_zero_never_times_out :
  forall fuel,
    fst (wait_for_completion Examples.pending_service fuel "job-1" 5
           (Some 0%Z) new_manager) = Fuel.
Proof.
  intros fuel. apply wait_for_completion_unbounded; [reflexivity|].
  intros k _. eexists. split; reflexivity.
Qed.

(** The same job waited for with [timeout=1] times out at the first
    check, and with [timeout=None] is polled for ever. *)
Lemma wait_timeout_one_times_out :
  fst (wait_for_completion Examples.pending_service 1 "job-1" 5
         (Some 1%Z) new_manager)
    = Exn (Raised TimeoutError (timeout_message "job-1" 10)).
Proof. vm_compute. reflexivity. Qed.

Lemma wait_timeout_none_never_times_out :
  forall fuel,
    fst (wait_for_completion Examples.pending_service fuel "job-1" 5
           None new_manager) = Fuel.
Proof.
  intros fuel. apply wait_for_completion_unbounded; [reflexivity|].
  intros k _. eexists. split; reflexivity.
Qed.

(** ** Ending a stream *)

Module EndStream.
Import OdysseyClientManager.

Section WithClient.

Variable client : odyssey.

(** With no active stream, [end_stream] on a connected session returns
    at once: no call to the client, no change. *)
Lemma end_stream_idle s :
  _connected s = true ->
  no_active_stream s = true ->
  end_stream client s = (Ret tt, s).
Proof.
  intros Hconn Hidle. unfold end_stream. munfold. rewrite Hconn. simpl.
  rewrite Hidle. reflexivity.
Qed.

(** [end_stream] leaves [_connected] as it is. *)
Lemma end_stream_connected s :
  _connected (snd (end_stream client s)) = _connected s.
Proof.
  unfold end_stream, try_except, call_client, set_current_stream_id. munfold.
  destruct (_connected s) eqn:Hconn; simpl; [|exact Hconn].
  destruct (no_active_stream s); simpl; [exact Hconn|].
  destruct (oc_raises client _ _) as [e|]; simpl; [|exact Hconn].
  destruct (is_Exception e); simpl; exact Hconn.
Qed.

(** After [end_stream], whether it returned or raised an [Exception],
    the session has no active stream. *)
Lemma end_stream_clears s :
  _connected s = true ->
  (forall e, fst (end_stream client s) = Exn e -> is_Exception e = true) ->
  no_active_stream (snd (end_stream client s)) = true.
Proof.
  intros Hconn. unfold end_stream, try_except, call_client,
    set_current_stream_id. munfold. rewrite Hconn. simpl.
  destruct (no_active_stream s) eqn:Hidle; simpl; [intros _; exact Hidle|].
  destruct (oc_raises client _ _) as [e|]; simpl; [|reflexivity].
  destruct (is_Exception e) eqn:He; simpl; [reflexivity|].
  intros H. specialize (H e eq_refl). congruence.
Qed.

(** C8.  On a connected session whose client accepts the request,
    [end_stream] called twice in a row returns normally both times; the
    second call finds no active stream, makes no call to the client and
    leaves the session as the first call left it. *)
Theorem end_stream_twice s :
  _connected s = true ->
  oc_raises client (length (client_calls s)) ClientEndStream = None ->
  fst (end_stream client s) = Ret tt /\
  no_active_stream (snd (end_stream client s)) = true /\
  end_stream client (snd (end_stream client s))
    = (Ret tt, snd (end_stream client s)).
Proof.
  intros Hconn Haccept.
  assert (Hfirst : fst (end_stream client s) = Ret tt).
  { unfold end_stream, try_except, call_client, set_current_stream_id.
    munfold. rewrite Hconn. simpl.
    destruct (no_active_stream s); simpl; [reflexivity|].
    rewrite Haccept. reflexivity. }
  assert (Hclear : no_active_stream (snd (end_stream client s)) = true).
  { apply end_stream_clears; [exact Hconn|].
    intros e He. rewrite Hfirst in He. discriminate. }
  split; [exact Hfirst|]. split; [exact Hclear|].
  apply end_stream_idle; [|exact Hclear].
  rewrite end_stream_connected. exact Hconn.
Qed.

(** Also when the first call raised an [Exception] of the client, the
    second call is a success that does nothing. *)
Lemma end_stream_after_failure s e :
  _connected s = true ->
  fst (end_stream client s) = Exn e ->
  is_Exception e = true ->
  end_stream client (snd (end_stream client s))
    = (Ret tt, snd (end_stream client s)).
Proof.
  intros Hconn Hraise He.
  apply end_stream_idle.
  - rewrite end_stream_connected. exact Hconn.
  - apply end_stream_clears; [exact Hconn|].
    intros e' He'. rewrite Hraise in He'. injection He' as <-. exact He.
Qed.

End WithClient.

Lemma end_stream_twice_witness :
  fst (end_stream Examples.accepting_client Examples.streaming_session)
    = Ret tt /\
  no_active_stream
    (snd (end_stream Examples.accepting_client Examples.streaming_session))
    = true /\
  end_stream Examples.accepting_client
    (snd (end_stream Examples.accepting_client Examples.streaming_session))
    = (Ret tt,
       snd (end_stream Examples.accepting_client Examples.streaming_session)).
Proof.
  apply (end_stream_twice Examples.accepting_client Examples.streaming_session).
  - reflexivity.
  - reflexivity.
Defined.

(** The session of the example is the one [connect] and [start_stream]
    build. *)
Lemma streaming_session_reached :
  snd (start_stream Examples.accepting_client "A robot dancing" true
         (snd (connect Examples.accepting_client initial)))
    = Examples.streaming_session.
Proof. vm_compute. reflexivity. Qed.

End EndStream.

(** ** Broadcasting a frame *)

Module Broadcast.
Import StreamManager.

Section WithSockets.

Variable ws : sockets.

Lemma ends_before_perm takes c l :
  Permutation (ends_before takes c l) (c :: l).
Proof.
  induction l as [|x l IH]; simpl; [reflexivity|].
  destruct (Nat.leb (takes c) (takes x)); [reflexivity|].
  rewrite IH. apply perm_swap.
Qed.

(** The sends end in some order of the list: none is lost, none is
    made twice. *)
Lemma completion_order_perm message l :
  Permutation (completion_order ws message l) l.
Proof.
  unfold completion_order. induction l as [|c l IH]; simpl; [reflexivity|].
  rewrite ends_before_perm, IH. reflexivity.
Qed.

(** Sends made one after the other. *)
Lemma sends_delivered message l :
  forall s,
    active_connections
      (foldl (fun s' c => snd (send_text ws c message s')) s l)
      = active_connections s /\
    is_streaming (foldl (fun s' c => snd (send_text ws c message s')) s l)
      = is_streaming s /\
    delivered (foldl (fun s' c => snd (send_text ws c message s')) s l)
      = (delivered s ++ map (fun c => (c, message)) (takers ws message l))%list.
Proof.
  induction l as [|c l IH]; intros s; simpl.
  - rewrite app_nil_r. repeat split; reflexivity.
  - unfold send_text at 2 4 6.
    destruct (ws_send_text ws c message) as [e|] eqn:Hsend; simpl.
    + apply IH.
    + destruct (IH {| active_connections := active_connections s;
                      is_streaming := is_streaming s;
                      delivered := (delivered s ++ [(c, message)])%list |})
        as (H1 & H2 & H3).
      split; [exact H1|]. split; [exact H2|].
      rewrite H3. simpl. rewrite <- app_assoc. reflexivity.
Qed.

Lemma gather_sends_spec message l s :
  active_connections (snd (gather_sends ws l message s))
    = active_connections s /\
  is_streaming (snd (gather_sends ws l message s)) = is_streaming s /\
  delivered (snd (gather_sends ws l message s))
    = (delivered s ++
       map (fun c => (c, message))
         (takers ws message (completion_order ws message l)))%list /\
  length (fst (gather_sends ws l message s)) = length l.
Proof.
  unfold gather_sends. cbn [fst snd].
  destruct (sends_delivered message (completion_order ws message l) s)
    as (H1 & H2 & H3).
  split; [exact H1|]. split; [exact H2|]. split; [exact H3|].
  apply length_map.
Qed.

(** What one [broadcast_frame] does: it returns normally, the list of
    connections is as before, and the frame message went, in the order
    in which the sends ended, to every connection whose send did not
    fail. *)
Lemma broadcast_frame_spec frame s :
  fst (broadcast_frame ws frame s) = Ret tt /\
  active_connections (snd (broadcast_frame ws frame s))
    = active_connections s /\
  delivered (snd (broadcast_frame ws frame s))
    = (delivered s ++
       map (fun c => (c, frame_message frame))
           (takers ws (frame_message frame)
              (completion_order ws (frame_message frame)
                 (active_connections s))))%list.
Proof.
  unfold broadcast_frame.
  destruct (active_connections s) as [|c l] eqn:Hconns.
  - simpl. rewrite app_nil_r, Hconns. repeat split; reflexivity.
  - rewrite <- Hconns.
    pose proof (gather_sends_spec (frame_message frame)
                  (active_connections s) s) as (H1 & _ & H3 & _).
    destruct (gather_sends ws (active_connections s) (frame_message frame) s)
      as [rs s'].
    simpl in *. repeat split; assumption.
Qed.

(** C2, as the code has it.  When the send to one subscribed consumer
    fails during [broadcast_frame], the frame still reaches every other
    subscribed consumer whose own send succeeds and no exception leaves
    the call; the list of subscribers is left as it was, the failing
    consumer still in it. *)
Theorem broadcast_frame_isolates_failure frame s bad e :
  In bad (active_connections s) ->
  ws_send_text ws bad (frame_message frame) = Some e ->
  fst (broadcast_frame ws frame s) = Ret tt /\
  (forall c, In c (active_connections s) ->
             ws_send_text ws c (frame_message frame) = None ->
             In (c, frame_message frame)
                (delivered (snd (broadcast_frame ws frame s)))) /\
  active_connections (snd (broadcast_frame ws frame s))
    = active_connections s /\
  In bad (active_connections (snd (broadcast_frame ws frame s))).
Proof.
  intros Hbad Hfail.
  destruct (broadcast_frame_spec frame s) as (Hret & Hconns & Hdel).
  split; [exact Hret|]. split; [|split].
  - intros c Hc Hok. rewrite Hdel. apply in_or_app. right.
    apply (in_map (fun c => (c, frame_message frame))). unfold takers.
    apply filter_In. split.
    + eapply Permutation_in; [|exact Hc].
      symmetry. apply completion_order_perm.
    + rewrite Hok. reflexivity.
  - exact Hconns.
  - rewrite Hconns. exact Hbad.
Qed.

End WithSockets.

Lemma broadcast_frame_isolates_failure_witness :
  fst (broadcast_frame Examples.one_closed_socket "AAAA" Examples.three_viewers)
    = Ret tt /\
  (forall c, In c (active_connections Examples.three_viewers) ->
             ws_send_text Examples.one_closed_socket c (frame_message "AAAA")
               = None ->
             In (c, frame_message "AAAA")
                (delivered (snd (broadcast_frame Examples.one_closed_socket
                                   "AAAA" Examples.three_viewers)))) /\
  active_connections
    (snd (broadcast_frame Examples.one_closed_socket "AAAA"
            Examples.three_viewers))
    = active_connections Examples.three_viewers /\
  In 2 (active_connections
          (snd (broadcast_frame Examples.one_closed_socket "AAAA"
                  Examples.three_viewers))).
Proof.
  apply (broadcast_frame_isolates_failure Examples.one_closed_socket "AAAA"
           Examples.three_viewers 2 (Raised RuntimeError "websocket closed")).
  - simpl. right. left. reflexivity.
  - reflexivity.
Defined.

(** C2, as the claim has it, fails: of three viewers the second one's
    send raises; the first and the third get the frame, and the second
    is still in [active_connections] when [broadcast_frame] returns. *)
Lemma failed_viewer_stays_subscribed :
  broadcast_frame Examples.one_closed_socket "AAAA" Examples.three_viewers
    = (Ret tt,
       {| active_connections := [1; 2; 3];
          is_streaming := true;
          delivered := [(1, frame_message "AAAA"); (3, frame_message "AAAA")] |})
  /\ In 2 (active_connections
             (snd (broadcast_frame Examples.one_closed_socket "AAAA"
                     Examples.three_viewers))).
Proof. split; [vm_compute; reflexivity | simpl; tauto]. Qed.

End Broadcast.

(** ** Saving and loading a script *)

Module ScriptFiles.

(** What [json.dumps] wrote, [json.load] reads back as the value it was
    written from. *)
Lemma json_load_dumps :
  forall v doc, json_dumps v = inr doc -> json_load doc = v.
Proof.
  fix IH 1. intros v doc. destruct v as [| b | z | s | b | l | items]; simpl.
  - intros [= <-]. reflexivity.
  - intros [= <-]. reflexivity.
  - destruct (int_prints z); [|discriminate]. intros [= <-]. reflexivity.
  - intros [= <-]. reflexivity.
  - discriminate.
  - assert (Hl : forall js, dump_each json_dumps l = inr js ->
              map json_load js = l).
    { induction l as [|x l IHl]; intros js; simpl.
      - intros [= <-]. reflexivity.
      - destruct (json_dumps x) as [e|j] eqn:Hx; [discriminate|].
        destruct (dump_each json_dumps l) as [e|js'] eqn:Hl; [discriminate|].
        intros [= <-]. simpl. rewrite (IH x j Hx), (IHl js' eq_refl).
        reflexivity. }
    destruct (dump_each json_dumps l) as [e|js]; [discriminate|].
    intros [= <-]. simpl. rewrite (Hl js eq_refl). reflexivity.
  - assert (Hl : forall ms,
              dump_each (fun kv => match json_dumps (snd kv) with
                                   | inl e => inl e
                                   | inr doc => inr (fst kv, doc)
                                   end) items = inr ms ->
              map (fun kv => (fst kv, json_load (snd kv))) ms = items).
    { induction items as [|[k x] l IHl]; intros ms; simpl.
      - intros [= <-]. reflexivity.
      - destruct (json_dumps x) as [e|j] eqn:Hx; [discriminate|].
        destruct (dump_each _ l) as [e|ms'] eqn:Hl; [discriminate|].
        intros [= <-]. simpl. rewrite (IH x j Hx), (IHl ms' eq_refl).
        reflexivity. }
    destruct (dump_each _ items) as [e|ms]; [discriminate|].
    intros [= <-]. simpl. rewrite (Hl ms eq_refl). reflexivity.
Qed.

(** Whenever [to_file] returns, [from_file] on the same path gives the
    script back, action for action. *)
Lemma to_file_from_file open_w self filepath (fs fs' : script_files) :
  to_file open_w self filepath fs = (Ret tt, fs') ->
  from_file filepath fs' = (Ret self, fs').
Proof.
  unfold to_file, from_file. munfold.
  destruct (open_w filepath) as [e|]; [discriminate|].
  destruct (json_dumps (actions self)) as [e|doc] eqn:Hdoc; [discriminate|].
  intros [= <-]. rewrite lookup_insert_eq.
  rewrite (json_load_dumps _ _ Hdoc). destruct self. reflexivity.
Qed.

(** [to_file] returns exactly when the file opens and [json.dumps] takes
    the actions. *)
Lemma to_file_returns_iff open_w self filepath (fs : script_files) :
  fst (to_file open_w self filepath fs) = Ret tt <->
  open_w filepath = None /\ exists doc, json_dumps (actions self) = inr doc.
Proof.
  unfold to_file. munfold.
  destruct (open_w filepath) as [e0|]; simpl.
  { split; [discriminate | intros [H _]; discriminate]. }
  destruct (json_dumps (actions self)) as [e|doc]; simpl; split;
    try discriminate; eauto.
  intros [_ [? ?]]. discriminate.
Qed.

(** C9, at the failing input.  The script whose start action carries an
    image as [bytes] cannot be saved: [to_file] raises [TypeError] and
    leaves the file empty, and [from_file] on that file raises instead of
    giving the action sequence back. *)
Theorem to_file_bytes_image_fails :
  to_file Examples.writable Examples.robot_script "robot.json" ∅
    = (Exn (Raised TypeError "Object of type bytes is not JSON serializable"),
       {["robot.json" := []]}) /\
  fst (from_file "robot.json" {["robot.json" := []]})
    = Exn (Raised JSONDecodeError "Expecting value: line 1 column 1 (char 0)").
Proof. split; vm_compute; reflexivity. Qed.

(** The same script with its image given as a path goes through
    [to_file] and [from_file] unchanged. *)
Lemma robot_script_path_round_trip :
  exists fs,
    to_file Examples.writable Examples.robot_script_path "robot.json" ∅
    = (Ret tt, fs) /\
    from_file "robot.json" fs = (Ret Examples.robot_script_path, fs).
Proof.
  eexists. split; [vm_compute; reflexivity|].
  apply (to_file_from_file Examples.writable _ _ ∅). vm_compute. reflexivity.
Qed.

End ScriptFiles.

(** ** The batch scheduler *)

Module BatchScheduler.

Lemma filter_alter_count {A} (f : A -> bool) (g : A -> A) (l : list A) :
  forall i t,
    l !! i = Some t ->
    length (List.filter f (alter g i l)) + (if f t then 1 else 0)
      = length (List.filter f l) + (if f (g t) then 1 else 0).
Proof.
  induction l as [|a l IH]; intros i t Hi.
  - destruct i; discriminate.
  - destruct i as [|i]; simpl in *.
    + injection Hi as ->. destruct (f t), (f (g t)); simpl; lia.
    + specialize (IH i t Hi). destruct (f a); simpl;
        [f_equal|]; exact IH.
Qed.

Lemma in_flight_set_pc ts i t p :
  ts !! i = Some t ->
  length (List.filter (fun t => in_flight (t_pc t)) (set_pc i p ts))
    + (if in_flight (t_pc t) then 1 else 0)
  = length (List.filter (fun t => in_flight (t_pc t)) ts)
    + (if in_flight p then 1 else 0).
Proof.
  intros Hi. unfold set_pc.
  exact (filter_alter_count (fun t => in_flight (t_pc t))
           (fun t => {| t_script := t_script t; t_index := t_index t;
                        t_pc := p |}) ts i t Hi).
Qed.

Lemma set_pc_lookup ts i t p :
  ts !! i = Some t ->
  set_pc i p ts !! i
    = Some {| t_script := t_script t; t_index := t_index t; t_pc := p |}.
Proof.
  intros Hi. unfold set_pc. rewrite list_lookup_alter_eq, Hi. reflexivity.
Qed.

Lemma set_pc_lookup_ne ts i j p :
  i <> j -> set_pc i p ts !! j = ts !! j.
Proof. intros Hne. unfold set_pc. apply list_lookup_alter_ne. exact Hne. Qed.

Lemma set_pc_length ts i p : length (set_pc i p ts) = length ts.
Proof. unfold set_pc. apply length_alter. Qed.

(** *** What each call gives does not depend on the manager *)

Lemma fst_bind {St A B} (c : M St A) (k : A -> M St B) s :
  fst (bind c k s) =
  match fst (c s) with
  | Ret a => fst (k a (snd (c s)))
  | Exn e => Exn e
  | Fuel => Fuel
  end.
Proof. unfold bind. destruct (c s) as [[a|e|] s']; reflexivity. Qed.

Lemma bind_ext_on {St A B} (c : M St A) (k k' : A -> M St B) s :
  (forall a s', c s = (Ret a, s') -> k a s' = k' a s') ->
  bind c k s = bind c k' s.
Proof.
  intros Hk. unfold bind. destruct (c s) as [[a|e|] s']; auto.
Qed.

Section Results.

Variable svc : service.

Lemma submit_result script portrait job_name m :
  fst (submit svc script portrait job_name m) =
  match submitted svc script portrait with
  | inl e => Exn e
  | inr job => Ret (job_job_id job)
  end.
Proof.
  unfold submit, submitted. munfold.
  destruct (no_len (script_data_of script)); [reflexivity|].
  destruct (svc_simulate svc (script_data_of script) portrait); reflexivity.
Qed.

Lemma get_status_result job_id k m :
  fst (get_status svc job_id k m) =
  match svc_status svc job_id k with
  | inl e => Exn e
  | inr st => Ret (status_dict_of st)
  end.
Proof.
  unfold get_status. munfold.
  destruct (svc_status svc job_id k); reflexivity.
Qed.

Lemma poll_loop_S fuel job_id poll_interval timeout start_time k :
  poll_loop svc (S fuel) job_id poll_interval timeout start_time k =
  (let* status := get_status svc job_id k in
   if is_done status then ret status
   else
     let* _ :=
       (if truthy timeout then
          let* now := loop_time svc in
          let elapsed := float_sub now start_time in
          if elapsed_gt elapsed timeout
          then raise (Raised TimeoutError (timeout_message job_id elapsed))
          else ret tt
        else ret tt) in
     let* _ := log_call (CallSleep poll_interval) in
     poll_loop svc fuel job_id poll_interval timeout start_time (S k)).
Proof. reflexivity. Qed.

(** Without a timeout the loop reads no clock: its result is fixed by
    the answers of the service. *)
Lemma poll_loop_result fuel :
  forall job_id poll_interval start_time start_time' k m m',
    fst (poll_loop svc fuel job_id poll_interval None start_time k m)
    = fst (poll_loop svc fuel job_id poll_interval None start_time' k m').
Proof.
  induction fuel as [|fuel IH]; intros job_id pi start start' k m m'.
  - reflexivity.
  - rewrite !poll_loop_S, !fst_bind, !get_status_result.
    destruct (svc_status svc job_id k) as [e|st]; [reflexivity|].
    destruct (is_done (status_dict_of st)); [reflexivity|].
    cbn [truthy]. rewrite !fst_bind. cbn [ret fst snd].
    unfold log_call at 1 3, modify. cbn [fst snd].
    apply IH.
Qed.

Lemma wait_for_completion_result fuel job_id poll_interval m m' :
  fst (wait_for_completion svc fuel job_id poll_interval None m)
  = fst (wait_for_completion svc fuel job_id poll_interval None m').
Proof.
  unfold wait_for_completion. rewrite !fst_bind. cbn [loop_time fst snd].
  rewrite !fst_bind.
  rewrite (poll_loop_result fuel job_id poll_interval _
             (svc_clock svc (clock_reads m')) 0 _
             {| active_jobs := active_jobs m'; clock_reads := S (clock_reads m');
                calls := calls m'; files := files m' |}).
  destruct (fst (poll_loop svc fuel job_id poll_interval None _ 0 _))
    as [sd|e|]; [|reflexivity|reflexivity].
  destruct (String.eqb (sd_status sd) "failed"); [reflexivity|].
  destruct (String.eqb (sd_status sd) "cancelled"); reflexivity.
Qed.

Lemma _download_file_result url output_path m :
  fst (_download_file svc url output_path m) =
  match svc_fetch svc url with
  | FetchRefused e | FetchBroken e => Exn e
  | FetchBody _ => Ret tt
  end.
Proof.
  unfold _download_file. munfold.
  destruct (svc_fetch svc url); reflexivity.
Qed.

Lemma download_streams_result output_dir job_id streams :
  forall i downloaded m m',
    fst (download_streams svc output_dir job_id streams i downloaded m)
    = fst (download_streams svc output_dir job_id streams i downloaded m').
Proof.
  induction streams as [|s rest IH]; intros i downloaded m m'.
  - reflexivity.
  - cbn [download_streams]. rewrite !fst_bind. cbn [log_call modify fst snd].
    unfold answer.
    destruct (svc_recording svc (stream_id s)) as [e|rec]; [reflexivity|].
    cbn [ret fst snd]. rewrite !fst_bind, !_download_file_result.
    destruct (svc_fetch svc (video_url rec)); try reflexivity.
    destruct (svc_fetch svc (thumbnail_url rec)); try reflexivity.
    apply IH.
Qed.

Lemma download_result_result status output_dir m m' :
  fst (download_result svc status output_dir m)
  = fst (download_result svc status output_dir m').
Proof.
  unfold download_result. rewrite !fst_bind. cbn [log_call modify fst snd].
  destruct (svc_mkdir svc output_dir) as [e|]; [reflexivity|].
  cbn [ret fst snd].
  destruct (sd_streams status) as [|s rest]; [reflexivity|].
  apply download_streams_result.
Qed.

Lemma download_streams_ends output_dir job_id streams :
  forall i downloaded m,
    fst (download_streams svc output_dir job_id streams i downloaded m) <> Fuel.
Proof.
  induction streams as [|s rest IH]; intros i downloaded m.
  - discriminate.
  - cbn [download_streams]. rewrite !fst_bind. cbn [log_call modify fst snd].
    unfold answer.
    destruct (svc_recording svc (stream_id s)) as [e|rec]; [discriminate|].
    cbn [ret fst snd]. rewrite !fst_bind, !_download_file_result.
    destruct (svc_fetch svc (video_url rec)); try discriminate.
    destruct (svc_fetch svc (thumbnail_url rec)); try discriminate.
    apply IH.
Qed.

Lemma download_result_ends status output_dir m :
  fst (download_result svc status output_dir m) <> Fuel.
Proof.
  unfold download_result. rewrite !fst_bind. cbn [log_call modify fst snd].
  destruct (svc_mkdir svc output_dir) as [e|]; [discriminate|].
  cbn [ret fst snd].
  destruct (sd_streams status) as [|s rest]; [discriminate|].
  apply download_streams_ends.
Qed.

(** More iterations do not change how a loop that ended ended. *)
Lemma poll_loop_more_fuel fuel :
  forall job_id poll_interval timeout start_time k m,
    fst (poll_loop svc fuel job_id poll_interval timeout start_time k m)
      <> Fuel ->
    poll_loop svc (S fuel) job_id poll_interval timeout start_time k m
    = poll_loop svc fuel job_id poll_interval timeout start_time k m.
Proof.
  induction fuel as [|fuel IH]; intros job_id pi timeout start k m Hend.
  - exfalso. apply Hend. reflexivity.
  - rewrite (poll_loop_S (S fuel) job_id pi timeout start k).
    rewrite (poll_loop_S fuel job_id pi timeout start k) in Hend |- *.
    cbv zeta in Hend |- *.
    apply bind_ext_on. intros sd m1 Hget.
    unfold bind at 1 in Hend. rewrite Hget in Hend. cbv beta iota in Hend.
    destruct (is_done sd); [reflexivity|].
    apply bind_ext_on. intros [] m2 Hcheck.
    unfold bind at 1 in Hend. rewrite Hcheck in Hend. cbv beta iota in Hend.
    apply bind_ext_on. intros [] m3 Hlog.
    unfold bind at 1 in Hend. rewrite Hlog in Hend. cbv beta iota in Hend.
    apply IH. exact Hend.
Qed.

Lemma poll_loop_fuel_le fuel fuel' job_id poll_interval timeout start_time k m :
  fuel <= fuel' ->
  fst (poll_loop svc fuel job_id poll_interval timeout start_time k m)
    <> Fuel ->
  poll_loop svc fuel' job_id poll_interval timeout start_time k m
  = poll_loop svc fuel job_id poll_interval timeout start_time k m.
Proof.
  intros Hle Hend. induction Hle as [|fuel' Hle IH]; [reflexivity|].
  rewrite poll_loop_more_fuel; rewrite IH; [reflexivity | exact Hend].
Qed.

Lemma wait_for_completion_fuel_le
    fuel fuel' job_id poll_interval timeout m :
  fuel <= fuel' ->
  fst (wait_for_completion svc fuel job_id poll_interval timeout m) <> Fuel ->
  wait_for_completion svc fuel' job_id poll_interval timeout m
  = wait_for_completion svc fuel job_id poll_interval timeout m.
Proof.
  intros Hle Hend. unfold wait_for_completion in *.
  apply bind_ext_on. intros start m1 Hlt.
  unfold bind at 1 in Hend. rewrite Hlt in Hend. cbv beta iota in Hend.
  unfold bind.
  rewrite (poll_loop_fuel_le fuel fuel' _ _ _ _ _ _ Hle); [reflexivity|].
  intros Hf. apply Hend. rewrite fst_bind, Hf. reflexivity.
Qed.

End Results.

Section WithService.

Variable svc : service.
Variable output_dir : string.
Variable portrait : bool.

Local Abbreviation step := (step svc output_dir portrait).
Local Abbreviation run := (run svc output_dir portrait).

Lemma step_shape i b b' :
  step i b b' ->
  exists t p,
    tasks b !! i = Some t /\
    tasks b' = set_pc i p (tasks b) /\
    rank p < rank (t_pc t) /\
    move_kind t p b b'.
Proof.
  intros Hstep.
  destruct Hstep as
    [i t b Hi Hpc Hsem
    |i t b job_id m' Hi Hpc Hcall
    |i t b e m' Hi Hpc Hcall
    |i t b job_id fuel status m' Hi Hpc Hcall
    |i t b job_id fuel e m' Hi Hpc Hcall
    |i t b job_id status paths m' Hi Hpc Hcall
    |i t b job_id status e m' Hi Hpc Hcall];
    exists t; eexists; (split; [exact Hi|]); (split; [reflexivity|]);
    rewrite Hpc; (split; [simpl; lia|]).
  - apply move_acquire; auto.
  - apply move_inside; auto. rewrite Hpc. reflexivity.
  - eapply move_release; eauto. rewrite Hpc. reflexivity.
  - apply move_inside; auto. rewrite Hpc. reflexivity.
  - eapply move_release; eauto. rewrite Hpc. reflexivity.
  - eapply move_release; eauto. rewrite Hpc. reflexivity.
  - eapply move_release; eauto. rewrite Hpc. reflexivity.
Qed.

(** The permits left and the slots held add up to [max_concurrent]. *)
Lemma step_permits i b b' :
  step i b b' ->
  semaphore b' + in_flight_count b' = semaphore b + in_flight_count b.
Proof.
  intros Hstep.
  destruct (step_shape i b b' Hstep) as (t & p & Hi & Htasks & _ & Hkind).
  unfold in_flight_count. rewrite Htasks.
  pose proof (in_flight_set_pc (tasks b) i t p Hi) as Hcount.
  destruct Hkind as [Hq -> Hpos Hsem _ | Hin Hp Hsem _ | g Hin -> Hsem _].
  - rewrite Hq in Hcount. simpl in Hcount. lia.
  - rewrite Hin, Hp in Hcount. lia.
  - rewrite Hin in Hcount. simpl in Hcount. lia.
Qed.

Lemma imap_none_in_flight {A} (f : nat -> A -> task) (l : list A) :
  (forall i x, in_flight (t_pc (f i x)) = false) ->
  List.filter (fun t => in_flight (t_pc t)) (imap f l) = [].
Proof.
  revert f. induction l as [|x l IH]; intros f Hf; simpl.
  - reflexivity.
  - rewrite Hf. apply IH. intros i y. apply Hf.
Qed.

Lemma start_in_flight max_concurrent m scripts :
  in_flight_count (start max_concurrent m scripts) = 0.
Proof.
  unfold in_flight_count, start. simpl.
  rewrite imap_none_in_flight; reflexivity.
Qed.

(** *** What [_process_single] ends with *)

Lemma fst_try_except {St A} (body : M St A) (handler : exn -> M St A) s :
  fst (try_except body handler s) =
  match fst (body s) with
  | Exn e => if is_Exception e then fst (handler e (snd (body s))) else Exn e
  | r => r
  end.
Proof.
  unfold try_except. destruct (body s) as [[a|e|] s']; try reflexivity.
  simpl. destruct (is_Exception e); reflexivity.
Qed.

Lemma outcome_of_on_exception index e :
  outcome_of (on_exception index e) =
  if is_Exception e then Ret (failed_result index e) else Exn e.
Proof. unfold on_exception. destruct (is_Exception e); reflexivity. Qed.

(** The result of the [try] statement, stage by stage. *)
Lemma try_process_result fuel script index m :
  fst (try_process svc output_dir portrait fuel script index m) =
  match submitted svc script portrait with
  | inl e => outcome_of (on_exception index e)
  | inr job =>
      match fst (wait_for_completion svc fuel (job_job_id job)
                   default_poll_interval None m) with
      | Exn e => outcome_of (on_exception index e)
      | Fuel => Fuel
      | Ret status =>
          match fst (download_result svc status output_dir m) with
          | Exn e => outcome_of (on_exception index e)
          | Fuel => Fuel
          | Ret paths => Ret (success_result index (job_job_id job) paths)
          end
      end
  end.
Proof.
  unfold try_process. rewrite fst_try_except, fst_bind, submit_result.
  destruct (submitted svc script portrait) as [e|job].
  - rewrite outcome_of_on_exception. reflexivity.
  - rewrite fst_bind.
    rewrite (wait_for_completion_result svc fuel (job_job_id job) _ _ m).
    destruct (fst (wait_for_completion svc fuel (job_job_id job)
                     default_poll_interval None m)) as [status|e|].
    + rewrite fst_bind.
      rewrite (download_result_result svc status output_dir _ m).
      destruct (fst (download_result svc status output_dir m)) as [paths|e|].
      * reflexivity.
      * rewrite outcome_of_on_exception. reflexivity.
      * reflexivity.
    + rewrite outcome_of_on_exception. reflexivity.
    + reflexivity.
Qed.

Lemma try_process_manager fuel script index m m' :
  fst (try_process svc output_dir portrait fuel script index m)
  = fst (try_process svc output_dir portrait fuel script index m').
Proof.
  rewrite !try_process_result.
  destruct (submitted svc script portrait) as [e|job];
    [reflexivity|].
  rewrite (wait_for_completion_result svc fuel (job_job_id job) _ m m').
  destruct (fst (wait_for_completion svc fuel (job_job_id job) _ None m'))
    as [status|e|]; try reflexivity.
  rewrite (download_result_result svc status output_dir m m'). reflexivity.
Qed.

Lemma on_exception_index index e r :
  outcome_of (on_exception index e) = Ret r -> r = failed_result index e.
Proof.
  rewrite outcome_of_on_exception. destruct (is_Exception e); [|discriminate].
  intros [= <-]. reflexivity.
Qed.

Lemma on_exception_escaped index e e' :
  outcome_of (on_exception index e) = Exn e' ->
  e' = e /\ is_Exception e = false.
Proof.
  rewrite outcome_of_on_exception. destruct (is_Exception e); [discriminate|].
  intros [= <-]. split; reflexivity.
Qed.

(** A dictionary that [_process_single] returns carries the index the
    coroutine was started with. *)
Lemma try_process_index fuel script index m r :
  fst (try_process svc output_dir portrait fuel script index m) = Ret r ->
  br_index r = index.
Proof.
  rewrite try_process_result.
  destruct (submitted svc script portrait) as [e|job].
  - intros H. apply on_exception_index in H. subst r. reflexivity.
  - destruct (fst (wait_for_completion svc fuel _ _ None m)) as [status|e|].
    + destruct (fst (download_result svc status output_dir m)) as [paths|e|].
      * intros [= <-]. reflexivity.
      * intros H. apply on_exception_index in H. subst r. reflexivity.
      * discriminate.
    + intros H. apply on_exception_index in H. subst r. reflexivity.
    + discriminate.
Qed.

(** Only an exception that is no [Exception] leaves [_process_single]. *)
Lemma try_process_escaped fuel script index m e :
  fst (try_process svc output_dir portrait fuel script index m) = Exn e ->
  is_Exception e = false.
Proof.
  unfold try_process. rewrite fst_try_except.
  destruct (fst (bind _ _ m)) as [r|e0|]; try discriminate.
  destruct (is_Exception e0) eqn:He0; [discriminate|].
  intros [= <-]. exact He0.
Qed.

Lemma try_process_fuel_le fuel fuel' script index m :
  fuel <= fuel' ->
  fst (try_process svc output_dir portrait fuel script index m) <> Fuel ->
  fst (try_process svc output_dir portrait fuel' script index m)
  = fst (try_process svc output_dir portrait fuel script index m).
Proof.
  intros Hle. rewrite !try_process_result.
  destruct (submitted svc script portrait) as [e|job];
    [reflexivity|].
  intros Hend.
  rewrite (wait_for_completion_fuel_le svc fuel fuel' _ _ _ _ Hle);
    [reflexivity|].
  intros Hf. apply Hend. rewrite Hf. reflexivity.
Qed.

Lemma outcome_of_inj g g' : outcome_of g = outcome_of g' -> g = g'.
Proof. destruct g, g'; simpl; congruence. Qed.

Lemma outcome_of_ends g : outcome_of g <> Fuel.
Proof. destruct g; discriminate. Qed.

(** [_process_single] on one script and index has one result. *)
Lemma item_result_unique script index g g' :
  item_result svc output_dir portrait script index g ->
  item_result svc output_dir portrait script index g' ->
  g = g'.
Proof.
  intros [fuel Hg] [fuel' Hg']. apply outcome_of_inj.
  rewrite <- (Hg new_manager), <- (Hg' new_manager).
  destruct (Nat.le_ge_cases fuel fuel') as [Hle|Hle].
  - symmetry. apply try_process_fuel_le; [exact Hle|].
    rewrite Hg. apply outcome_of_ends.
  - apply try_process_fuel_le; [exact Hle|].
    rewrite Hg'. apply outcome_of_ends.
Qed.

Lemma start_enumerated max_concurrent m scripts :
  enumerated scripts (tasks (start max_concurrent m scripts)).
Proof.
  unfold enumerated, start. simpl. split.
  - apply length_imap.
  - intros i t. rewrite list_lookup_imap.
    destruct (scripts !! i) as [script|] eqn:Hs; simpl; [|discriminate].
    intros [= <-]. simpl. split; reflexivity.
Qed.

Lemma set_pc_enumerated scripts ts i p :
  enumerated scripts ts -> enumerated scripts (set_pc i p ts).
Proof.
  intros [Hlen Hidx]. split.
  - rewrite set_pc_length. exact Hlen.
  - intros j t Hj. destruct (decide (i = j)) as [<-|Hne].
    + destruct (ts !! i) as [t0|] eqn:Hi.
      * rewrite (set_pc_lookup ts i t0 p Hi) in Hj. injection Hj as <-.
        simpl. apply Hidx. exact Hi.
      * unfold set_pc in Hj. rewrite list_lookup_alter_eq, Hi in Hj.
        discriminate.
    + rewrite set_pc_lookup_ne in Hj by exact Hne. apply Hidx. exact Hj.
Qed.

Lemma step_enumerated scripts i b b' :
  step i b b' -> enumerated scripts (tasks b) -> enumerated scripts (tasks b').
Proof.
  intros Hstep Henum.
  destruct (step_shape i b b' Hstep) as (t & p & _ & -> & _).
  apply set_pc_enumerated. exact Henum.
Qed.

Lemma run_enumerated max_concurrent m scripts b :
  run (start max_concurrent m scripts) b -> enumerated scripts (tasks b).
Proof.
  induction 1 as [|i b' b'' _ IH Hstep].
  - apply start_enumerated.
  - eapply step_enumerated; eauto.
Qed.

Lemma run_permits max_concurrent m scripts b :
  run (start max_concurrent m scripts) b ->
  semaphore b + in_flight_count b = max_concurrent.
Proof.
  induction 1 as [|i b' b'' _ IH Hstep].
  - rewrite start_in_flight. simpl. lia.
  - rewrite (step_permits i b' b'' Hstep). exact IH.
Qed.

(** A coroutine still before the semaphore moves only by acquiring it. *)
Lemma queued_step_acquires i b b' t :
  step i b b' -> tasks b !! i = Some t -> t_pc t = Queued ->
  0 < semaphore b.
Proof.
  intros Hstep Hi Hq.
  destruct (step_shape i b b' Hstep) as (t' & p & Hi' & _ & _ & Hkind).
  rewrite Hi in Hi'. injection Hi' as <-.
  destruct Hkind as [_ _ Hpos _ _ | Hin _ _ _ | g Hin _ _ _].
  - exact Hpos.
  - rewrite Hq in Hin. discriminate.
  - rewrite Hq in Hin. discriminate.
Qed.

(** C3.  In every state that [process_batch] can reach, whatever the
    scripts and [max_concurrent], at most [max_concurrent] coroutines are
    inside the submit, wait, download pipeline; and when that many are,
    no queued coroutine can move: it stays at the semaphore until one
    inside ends. *)
Theorem concurrency_bound max_concurrent m scripts b :
  run (start max_concurrent m scripts) b ->
  in_flight_count b <= max_concurrent /\
  (in_flight_count b = max_concurrent ->
   forall i t b', tasks b !! i = Some t -> t_pc t = Queued ->
                  ~ step i b b').
Proof.
  intros Hrun. pose proof (run_permits _ _ _ _ Hrun) as Hperm.
  split; [lia|].
  intros Hfull i t b' Hi Hq Hstep.
  pose proof (queued_step_acquires i b b' t Hstep Hi Hq). lia.
Qed.

(** The acquisitions and releases recorded for each coroutine. *)
Lemma filter_app_length {A} (f : A -> bool) (l l' : list A) :
  length (List.filter f (l ++ l')) =
  length (List.filter f l) + length (List.filter f l').
Proof.
  induction l as [|x l IH]; simpl; [reflexivity|].
  destruct (f x); simpl; rewrite IH; reflexivity.
Qed.

Lemma acquires_snoc j evs ev :
  acquires j (evs ++ [ev]) =
  acquires j evs + match ev with
                   | Acquire i => if Nat.eqb i j then 1 else 0
                   | Release _ => 0
                   end.
Proof.
  unfold acquires. rewrite filter_app_length. simpl.
  destruct ev as [i|i]; [destruct (Nat.eqb i j)|]; reflexivity.
Qed.

Lemma releases_snoc j evs ev :
  releases j (evs ++ [ev]) =
  releases j evs + match ev with
                   | Release i => if Nat.eqb i j then 1 else 0
                   | Acquire _ => 0
                   end.
Proof.
  unfold releases. rewrite filter_app_length. simpl.
  destruct ev as [i|i]; [|destruct (Nat.eqb i j)]; reflexivity.
Qed.

Lemma step_slots_accounted scripts i b b' :
  step i b b' -> enumerated scripts (tasks b) ->
  slots_accounted b -> slots_accounted b'.
Proof.
  intros Hstep [_ Hidx] Hacc j t' Hj.
  destruct (step_shape i b b' Hstep) as (t & p & Hi & Htasks & _ & Hkind).
  destruct (Hidx i t Hi) as [Hindex _].
  rewrite Htasks in Hj.
  destruct (decide (i = j)) as [<-|Hne].
  - rewrite (set_pc_lookup _ i t p Hi) in Hj. injection Hj as <-. simpl.
    destruct (Hacc i t Hi) as [Ha Hr].
    destruct Hkind as [Hq -> _ _ Hev | Hin Hp _ Hev | g Hin -> _ Hev];
      rewrite Hev.
    + rewrite acquires_snoc, releases_snoc, Ha, Hr, Hq, Hindex.
      rewrite Nat.eqb_refl. simpl. split; reflexivity.
    + rewrite Ha, Hr. destruct (t_pc t), p; try discriminate; split; reflexivity.
    + rewrite acquires_snoc, releases_snoc, Ha, Hr, Hindex, Nat.eqb_refl.
      destruct (t_pc t); try discriminate; simpl; split; lia.
  - rewrite set_pc_lookup_ne in Hj by exact Hne.
    destruct (Hacc j t' Hj) as [Ha Hr].
    assert (Hneq : Nat.eqb (t_index t) j = false).
    { rewrite Hindex. apply Nat.eqb_neq. exact Hne. }
    destruct Hkind as [_ _ _ _ Hev | _ _ _ Hev | g _ _ _ Hev]; rewrite Hev.
    + rewrite acquires_snoc, releases_snoc, Hneq, Ha, Hr. split; lia.
    + split; assumption.
    + rewrite acquires_snoc, releases_snoc, Hneq, Ha, Hr. split; lia.
Qed.

Lemma run_slots_accounted max_concurrent m scripts b :
  run (start max_concurrent m scripts) b -> slots_accounted b.
Proof.
  intros Hrun.
  induction Hrun as [|i b' b'' Hrun IH Hstep].
  - intros j t. unfold start. simpl. rewrite list_lookup_imap.
    destruct (scripts !! j); simpl; [|discriminate].
    intros [= <-]. simpl. split; reflexivity.
  - eapply step_slots_accounted; eauto.
    eapply run_enumerated; eauto.
Qed.

Lemma all_over_in_flight b : all_over b -> in_flight_count b = 0.
Proof.
  unfold all_over, in_flight_count. intros Hover.
  induction (tasks b) as [|t ts IH]; simpl; [reflexivity|].
  destruct (Hover 0 t eq_refl) as [g Hg]. rewrite Hg. simpl.
  apply IH. intros i t' Hi. apply (Hover (S i) t'). exact Hi.
Qed.

(** C6.  In every state that [process_batch] can reach, the coroutine
    at each position has acquired the semaphore once if it went past
    [async with] and never otherwise, and has released it once if it is
    over and never otherwise, whether it ended by returning the success
    dictionary, by returning the failure dictionary, or by an exception
    that went through; once all coroutines are over the semaphore is
    back at [max_concurrent]. *)
Theorem slot_released_exactly_once max_concurrent m scripts b j t :
  run (start max_concurrent m scripts) b ->
  tasks b !! j = Some t ->
  acquires j (sem_events b) = (if is_queued (t_pc t) then 0 else 1) /\
  releases j (sem_events b) = (if is_over (t_pc t) then 1 else 0) /\
  (forall g, t_pc t = Finished g ->
             acquires j (sem_events b) = 1 /\ releases j (sem_events b) = 1) /\
  (all_over b -> semaphore b = max_concurrent).
Proof.
  intros Hrun Hj.
  destruct (run_slots_accounted _ _ _ _ Hrun j t Hj) as [Ha Hr].
  split; [exact Ha|]. split; [exact Hr|]. split.
  - intros g Hg. rewrite Ha, Hr, Hg. simpl. split; reflexivity.
  - intros Hover. pose proof (run_permits _ _ _ _ Hrun) as Hperm.
    rewrite (all_over_in_flight b Hover) in Hperm. lia.
Qed.

(** *** The results of the batch *)

Local Abbreviation sound := (stage_sound svc output_dir portrait).
Local Abbreviation result_of := (item_result svc output_dir portrait).

Lemma set_pc_sound ts i t p :
  ts !! i = Some t ->
  (forall j t', ts !! j = Some t' -> sound t') ->
  sound {| t_script := t_script t; t_index := t_index t; t_pc := p |} ->
  forall j t', set_pc i p ts !! j = Some t' -> sound t'.
Proof.
  intros Hi Hall Hnew j t' Hj. destruct (decide (i = j)) as [<-|Hne].
  - rewrite (set_pc_lookup ts i t p Hi) in Hj. injection Hj as <-. exact Hnew.
  - rewrite set_pc_lookup_ne in Hj by exact Hne. eapply Hall; eauto.
Qed.

Lemma submitted_job script name m job_id m' :
  submit svc script portrait name m = (Ret job_id, m') ->
  exists job,
    submitted svc script portrait = inr job /\
    job_job_id job = job_id.
Proof.
  intros Hcall. pose proof (submit_result svc script portrait name m) as H.
  rewrite Hcall in H. simpl in H.
  destruct (submitted svc script portrait) as [e|job];
    [discriminate|].
  injection H as H. exists job. split; [reflexivity | symmetry; exact H].
Qed.

Lemma step_stage_sound i b b' :
  step i b b' ->
  (forall j t, tasks b !! j = Some t -> sound t) ->
  (forall j t, tasks b' !! j = Some t -> sound t).
Proof.
  intros Hstep Hall.
  destruct Hstep as
    [i t b Hi Hpc Hsem
    |i t b job_id m' Hi Hpc Hcall
    |i t b e m' Hi Hpc Hcall
    |i t b job_id fuel status m' Hi Hpc Hcall
    |i t b job_id fuel e m' Hi Hpc Hcall
    |i t b job_id status paths m' Hi Hpc Hcall
    |i t b job_id status e m' Hi Hpc Hcall];
    cbn [tasks proceed leave]; apply (set_pc_sound _ i t _ Hi Hall);
    pose proof (Hall i t Hi) as Hold; unfold stage_sound in Hold |- *;
    rewrite Hpc in Hold; cbn [t_pc t_script t_index].
  - exact I.
  - eapply submitted_job. exact Hcall.
  - exists 0. intros m. rewrite try_process_result.
    pose proof (submit_result svc (t_script t) portrait
                  (Some (batch_name (t_index t))) (mgr b)) as H.
    rewrite Hcall in H. simpl in H.
    destruct (submitted svc (t_script t) portrait)
      as [e0|job]; [|discriminate].
    injection H as <-. reflexivity.
  - split; [exact Hold|]. exists fuel. intros m.
    rewrite (wait_for_completion_result svc fuel job_id _ m (mgr b)), Hcall.
    reflexivity.
  - destruct Hold as (job & Hjob & <-).
    exists fuel. intros m. rewrite try_process_result, Hjob.
    rewrite (wait_for_completion_result svc fuel _ _ m (mgr b)), Hcall.
    reflexivity.
  - destruct Hold as [(job & Hjob & <-) (fuel & Hwait)].
    exists fuel. intros m. rewrite try_process_result, Hjob, Hwait.
    rewrite (download_result_result svc status output_dir m (mgr b)), Hcall.
    reflexivity.
  - destruct Hold as [(job & Hjob & <-) (fuel & Hwait)].
    exists fuel. intros m. rewrite try_process_result, Hjob, Hwait.
    rewrite (download_result_result svc status output_dir m (mgr b)), Hcall.
    reflexivity.
Qed.

Lemma run_stage_sound max_concurrent m scripts b :
  run (start max_concurrent m scripts) b ->
  forall j t, tasks b !! j = Some t -> sound t.
Proof.
  induction 1 as [|i b' b'' _ IH Hstep].
  - intros j t. unfold start. simpl. rewrite list_lookup_imap.
    destruct (scripts !! j); simpl; [|discriminate].
    intros [= <-]. exact I.
  - eapply step_stage_sound; eauto.
Qed.

Lemma gather_lookup ts results :
  gather ts = Some results ->
  length results = length ts /\
  forall i t, ts !! i = Some t ->
              exists g, t_pc t = Finished g /\ results !! i = Some g.
Proof.
  unfold gather. intros Hg. apply mapM_Some in Hg. split.
  - symmetry. eapply Forall2_length. exact Hg.
  - intros i t Hi.
    destruct (Forall2_lookup_l _ _ _ _ _ Hg Hi) as (g & Hres & Hpc).
    exists g. split; [|exact Hres].
    destruct (t_pc t); try discriminate. injection Hpc as <-. reflexivity.
Qed.

(** What [process_batch] returns has one entry for each script, in the
    order of the scripts: the entry at position [i] is what
    [_process_single(scripts[i], i, ...)] ends with. *)
Lemma process_batch_results max_concurrent m scripts results :
  process_batch svc output_dir portrait max_concurrent m scripts results ->
  length results = length scripts /\
  forall i script, scripts !! i = Some script ->
                   exists g, results !! i = Some g /\ result_of script i g.
Proof.
  intros (b & Hrun & Hgather).
  destruct (gather_lookup _ _ Hgather) as [Hlen Hres].
  destruct (run_enumerated _ _ _ _ Hrun) as [Hlen' Hidx].
  split; [lia|].
  intros i script Hi.
  assert (Hlt : i < length (tasks b)).
  { rewrite Hlen'. eapply lookup_lt_Some. exact Hi. }
  destruct (lookup_lt_is_Some_2 _ _ Hlt) as [t Ht].
  destruct (Hres i t Ht) as (g & Hpc & Hg).
  exists g. split; [exact Hg|].
  destruct (Hidx i t Ht) as [Hindex Hscript].
  rewrite Hi in Hscript. injection Hscript as ->.
  pose proof (run_stage_sound _ _ _ _ Hrun i t Ht) as Hsound.
  unfold stage_sound in Hsound. rewrite Hpc, Hindex in Hsound.
  exact Hsound.
Qed.

Lemma item_result_index script i r :
  result_of script i (Returned r) -> br_index r = i.
Proof.
  intros [fuel Hr]. eapply try_process_index. exact (Hr new_manager).
Qed.

Lemma item_result_escaped script i e :
  result_of script i (Escaped e) -> is_Exception e = false.
Proof.
  intros [fuel Hr]. eapply try_process_escaped. exact (Hr new_manager).
Qed.

(** A stage that fails with an [Exception] makes the failure
    dictionary of the item. *)
Lemma fails_with_result script index e :
  fails_with svc output_dir portrait script e ->
  is_Exception e = true ->
  result_of script index (Returned (failed_result index e)).
Proof.
  intros Hfail He.
  assert (Hout : outcome_of (on_exception index e)
                 = Ret (failed_result index e)).
  { rewrite outcome_of_on_exception, He. reflexivity. }
  destruct Hfail as [Hsub | [(job & fuel & Hsub & Hwait)
                            | (job & fuel & status & Hsub & Hwait & Hdl)]].
  - exists 0. intros m. rewrite try_process_result, Hsub. exact Hout.
  - exists fuel. intros m. rewrite try_process_result, Hsub, Hwait. exact Hout.
  - exists fuel. intros m.
    rewrite try_process_result, Hsub, Hwait, Hdl. exact Hout.
Qed.

(** Two batches agree on the result of every script they have at the
    same position. *)
Lemma process_batch_agree
    max_concurrent m scripts results max_concurrent' m' scripts' results' j :
  process_batch svc output_dir portrait max_concurrent m scripts results ->
  process_batch svc output_dir portrait max_concurrent' m' scripts' results' ->
  scripts' !! j = scripts !! j ->
  results' !! j = results !! j.
Proof.
  intros Hb Hb' Hj.
  destruct (process_batch_results _ _ _ _ Hb) as [Hlen Hres].
  destruct (process_batch_results _ _ _ _ Hb') as [Hlen' Hres'].
  destruct (scripts !! j) as [script|] eqn:Hs.
  - destruct (Hres j script Hs) as (g & Hg & Hitem).
    destruct (Hres' j script Hj) as (g' & Hg' & Hitem').
    rewrite Hg, Hg'. f_equal. eapply item_result_unique; eauto.
  - apply lookup_ge_None in Hs. apply lookup_ge_None in Hj.
    rewrite !(proj2 (lookup_ge_None _ _)); [reflexivity | lia | lia].
Qed.

(** *** The batch comes to an end *)

Lemma run_trans b b' b'' : run b b' -> run b' b'' -> run b b''.
Proof.
  intros Hrun Hrun'. induction Hrun' as [|i c c' _ IH Hstep]; [exact Hrun|].
  eapply run_step; eauto.
Qed.

Lemma remaining_set_pc (ts : list task) :
  forall i t p,
    ts !! i = Some t ->
    remaining (set_pc i p ts) + rank (t_pc t) = remaining ts + rank p.
Proof.
  induction ts as [|a ts IH]; intros i t p Hi.
  - destruct i; discriminate.
  - destruct i as [|i]; simpl in *.
    + injection Hi as ->. unfold remaining. simpl. lia.
    + specialize (IH i t p Hi). unfold remaining, set_pc in *. simpl in *.
      lia.
Qed.

(** Every move brings the batch nearer to its end. *)
Lemma step_remaining i b b' :
  step i b b' -> remaining (tasks b') < remaining (tasks b).
Proof.
  intros Hstep.
  destruct (step_shape i b b' Hstep) as (t & p & Hi & -> & Hrank & _).
  pose proof (remaining_set_pc (tasks b) i t p Hi). lia.
Qed.

Lemma some_in_flight (ts : list task) :
  0 < length (List.filter (fun t => in_flight (t_pc t)) ts) ->
  exists i t, ts !! i = Some t /\ in_flight (t_pc t) = true.
Proof.
  induction ts as [|a ts IH]; simpl; [lia|].
  destruct (in_flight (t_pc a)) eqn:Ha.
  - intros _. exists 0, a. split; [reflexivity | exact Ha].
  - intros Hpos. destruct (IH Hpos) as (i & t & Hi & Ht).
    exists (S i), t. split; assumption.
Qed.

Lemma over_or_not (ts : list task) :
  (forall i t, ts !! i = Some t -> exists g, t_pc t = Finished g) \/
  (exists i t, ts !! i = Some t /\ is_over (t_pc t) = false).
Proof.
  induction ts as [|a ts [IH|(i & t & Hi & Ht)]].
  - left. intros i t Hi. destruct i; discriminate.
  - destruct (t_pc a) as [| | | |g] eqn:Ha;
      try (right; exists 0, a; split; [reflexivity | rewrite Ha; reflexivity]).
    left. intros [|i] t Hi; simpl in Hi.
    + injection Hi as <-. exists g. exact Ha.
    + eapply IH. exact Hi.
  - right. exists (S i), t. split; assumption.
Qed.

(** A coroutine inside [async with] can always move, when waits end. *)
Lemma in_flight_moves b i t :
  waits_end svc ->
  tasks b !! i = Some t -> in_flight (t_pc t) = true ->
  exists b', step i b b'.
Proof.
  intros Hwaits Hi Hin.
  destruct (t_pc t) as [| |job_id|job_id status|g] eqn:Hpc; try discriminate.
  - destruct (submit svc (t_script t) portrait
                (Some (batch_name (t_index t))) (mgr b))
      as [[job_id|e|] m'] eqn:Hcall.
    + eexists. eapply step_submit; eauto.
    + eexists. eapply step_submit_raises; eauto.
    + pose proof (submit_result svc (t_script t) portrait
                    (Some (batch_name (t_index t))) (mgr b)) as H.
      rewrite Hcall in H. simpl in H.
      destruct (submitted svc _ portrait); discriminate.
  - destruct (Hwaits job_id (mgr b)) as [fuel Hend].
    destruct (wait_for_completion svc fuel job_id default_poll_interval None
                (mgr b)) as [[status|e|] m'] eqn:Hcall.
    + eexists. eapply step_wait; eauto.
    + eexists. eapply step_wait_raises; eauto.
    + exfalso. apply Hend. reflexivity.
  - pose proof (download_result_ends svc status output_dir (mgr b)) as Hend.
    destruct (download_result svc status output_dir (mgr b))
      as [[paths|e|] m'] eqn:Hcall.
    + eexists. eapply step_download; eauto.
    + eexists. eapply step_download_raises; eauto.
    + exfalso. apply Hend. reflexivity.
Qed.

(** While a coroutine is not over, some coroutine can move. *)
Lemma progress b :
  waits_end svc ->
  1 <= semaphore b + in_flight_count b ->
  (exists i t, tasks b !! i = Some t /\ is_over (t_pc t) = false) ->
  exists i b', step i b b'.
Proof.
  intros Hwaits Hperm (i & t & Hi & Hnot).
  destruct (in_flight (t_pc t)) eqn:Hin.
  - exists i. eapply in_flight_moves; eauto.
  - assert (Hq : t_pc t = Queued).
    { destruct (t_pc t); try discriminate; reflexivity. }
    destruct (semaphore b) as [|n] eqn:Hsem.
    + destruct (some_in_flight (tasks b)) as (i' & t' & Hi' & Hin').
      { unfold in_flight_count in Hperm. lia. }
      exists i'. eapply in_flight_moves; eauto.
    + exists i. eexists. eapply step_acquire; eauto. lia.
Qed.

(** From any state with a slot in the semaphore or in use, the batch
    can be run to its end. *)
Lemma completes n :
  forall b,
    waits_end svc ->
    remaining (tasks b) <= n ->
    1 <= semaphore b + in_flight_count b ->
    exists b', run b b' /\ all_over b'.
Proof.
  induction n as [|n IH]; intros b Hwaits Hrem Hperm.
  - exists b. split; [apply run_refl|].
    destruct (over_or_not (tasks b)) as [Hover|Hnot]; [exact Hover|].
    destruct (progress b Hwaits Hperm Hnot) as (i & b' & Hstep).
    pose proof (step_remaining i b b' Hstep). lia.
  - destruct (over_or_not (tasks b)) as [Hover|Hnot].
    + exists b. split; [apply run_refl | exact Hover].
    + destruct (progress b Hwaits Hperm Hnot) as (i & b1 & Hstep).
      destruct (IH b1 Hwaits) as (b' & Hrun & Hover).
      * pose proof (step_remaining i b b1 Hstep). lia.
      * rewrite (step_permits i b b1 Hstep). exact Hperm.
      * exists b'. split; [|exact Hover].
        eapply run_trans; [|exact Hrun].
        eapply run_step; [apply run_refl | exact Hstep].
Qed.

Lemma all_over_gather b :
  all_over b -> exists results, gather (tasks b) = Some results.
Proof.
  unfold all_over, gather. intros Hover.
  induction (tasks b) as [|t ts IH]; simpl.
  - exists []. reflexivity.
  - destruct (Hover 0 t eq_refl) as [g Hg].
    destruct IH as [results Hres].
    { intros i t' Hi. apply (Hover (S i) t'). exact Hi. }
    exists (g :: results). rewrite Hg. simpl.
    change (mapM ?f ts) with (mapM f ts) in Hres |- *.
    rewrite Hres. reflexivity.
Qed.

(** With at least one slot and waits that end, [process_batch] returns
    from every state it can reach. *)
Lemma process_batch_returns max_concurrent m scripts b :
  waits_end svc ->
  1 <= max_concurrent ->
  run (start max_concurrent m scripts) b ->
  exists b' results, run b b' /\ gather (tasks b') = Some results.
Proof.
  intros Hwaits Hmax Hrun.
  destruct (completes (remaining (tasks b)) b Hwaits (Nat.le_refl _))
    as (b' & Hrun' & Hover).
  - rewrite (run_permits _ _ _ _ Hrun). exact Hmax.
  - destruct (all_over_gather b' Hover) as [results Hres].
    exists b', results. split; assumption.
Qed.

(** *** One coroutine alone *)

(** Run alone with a permit there, [_process_single] ends as its [try]
    statement does. *)
Lemma _process_single_result fuel script index b :
  0 < semaphore b ->
  fst (_process_single svc output_dir portrait fuel script index b)
  = fst (try_process svc output_dir portrait fuel script index (mgr b)).
Proof.
  intros Hsem. unfold _process_single, async_with, acquire, on_manager, bind.
  destruct (semaphore b) as [|n]; [lia|]. cbn [mgr].
  destruct (try_process svc output_dir portrait fuel script index (mgr b))
    as [[r|e|] m']; reflexivity.
Qed.

(** However [_process_single] ends, by returning either dictionary or by
    an exception that goes through, it has taken one permit and given
    one back. *)
Lemma _process_single_permit fuel script index b :
  fst (_process_single svc output_dir portrait fuel script index b) <> Fuel ->
  semaphore (snd (_process_single svc output_dir portrait fuel script index b))
    = semaphore b /\
  sem_events (snd (_process_single svc output_dir portrait fuel script index b))
    = (sem_events b ++ [Acquire index; Release index])%list.
Proof.
  unfold _process_single, async_with, acquire, on_manager, release, modify,
    bind.
  destruct (semaphore b) as [|n] eqn:Hsem; [intros H; exfalso; apply H; reflexivity|].
  cbn [mgr semaphore sem_events].
  destruct (try_process svc output_dir portrait fuel script index (mgr b))
    as [[r|e|] m']; cbn [fst snd semaphore sem_events].
  - intros _. rewrite <- app_assoc. split; reflexivity.
  - intros _. rewrite <- app_assoc. split; reflexivity.
  - intros H. exfalso. apply H. reflexivity.
Qed.

(** *** The scheduler that can be run makes moves of the event loop *)

Lemma perform_step fuel i b b' :
  perform svc output_dir portrait fuel i b = Some b' -> step i b b'.
Proof.
  unfold perform.
  destruct (tasks b !! i) as [t|] eqn:Hi; [|discriminate].
  destruct (t_pc t) as [| |job_id|job_id status|g] eqn:Hpc.
  - destruct (semaphore b) as [|n] eqn:Hsem; [discriminate|].
    intros [= <-].
    replace n with (pred (semaphore b)) by (rewrite Hsem; reflexivity).
    eapply step_acquire; eauto. lia.
  - destruct (submit svc _ portrait _ (mgr b)) as [[job_id|e|] m'] eqn:Hcall;
      intros [= <-].
    + eapply step_submit; eauto.
    + eapply step_submit_raises; eauto.
  - destruct (wait_for_completion svc fuel job_id _ None (mgr b))
      as [[status|e|] m'] eqn:Hcall; intros [= <-].
    + eapply step_wait; eauto.
    + eapply step_wait_raises; eauto.
  - destruct (download_result svc status output_dir (mgr b))
      as [[paths|e|] m'] eqn:Hcall; intros [= <-].
    + eapply step_download; eauto.
    + eapply step_download_raises; eauto.
  - discriminate.
Qed.

Lemma perform_all_run fuel schedule :
  forall b b',
    perform_all svc output_dir portrait fuel schedule b = Some b' -> run b b'.
Proof.
  induction schedule as [|i rest IH]; intros b b'; simpl.
  - intros [= <-]. apply run_refl.
  - destruct (perform svc output_dir portrait fuel i b) as [b1|] eqn:Hp;
      [|discriminate].
    intros Hrest. eapply run_trans; [|apply IH; exact Hrest].
    eapply run_step; [apply run_refl|]. eapply perform_step. exact Hp.
Qed.

(** *** The claims on the results *)

(** The dictionary of a failed item, field by field. *)
Lemma failed_result_fields index e :
  br_index (failed_result index e) = index /\
  br_status (failed_result index e) = "failed" /\
  br_error (failed_result index e) = Some (str_exn e) /\
  br_job_id (failed_result index e) = None /\
  br_files (failed_result index e) = None.
Proof. repeat split; reflexivity. Qed.



(** A step of one coroutine leaves every other coroutine where it was:
    nothing is cancelled. *)
Lemma step_frame i b b' j :
  step i b b' -> i <> j -> tasks b' !! j = tasks b !! j.
Proof.
  intros Hstep Hne.
  destruct (step_shape i b b' Hstep) as (t & p & _ & -> & _).
  apply set_pc_lookup_ne. exact Hne.
Qed.

End WithService.

(** *** The example batches *)

Lemma batch_service_waits_end : waits_end Examples.batch_service.
Proof.
  intros job_id m. exists 2.
  destruct (wait_for_completion_first_final Examples.batch_service 1 2 job_id
              default_poll_interval None m
              (Examples.status_of job_id
                 (if String.eqb job_id "job-Dog" then "failed" else "completed")
                 (Some [{| stream_id := "stream-" +:+ job_id |}])))
    as (m' & Hwait & _).
  - lia.
  - intros j Hj. assert (j = 0) as -> by lia. eexists. split; reflexivity.
  - intros j Hj. reflexivity.
  - reflexivity.
  - simpl. destruct (String.eqb job_id "job-Dog"); reflexivity.
  - rewrite Hwait. simpl. destruct (String.eqb job_id "job-Dog"); simpl;
      discriminate.
Qed.

Lemma two_slots_taken_reached :
  run Examples.batch_service "./outputs" true
    (start 2 new_manager Examples.three_scripts) Examples.two_slots_taken.
Proof.
  apply (perform_all_run Examples.batch_service "./outputs" true 2 [0; 1]).
  reflexivity.
Qed.

Lemma cancelled_batch_reached :
  run Examples.batch_service "./outputs" true
    (start 1 new_manager [Examples.script_about "Owl"])
    Examples.cancelled_batch.
Proof.
  apply (perform_all_run Examples.batch_service "./outputs" true 2 [0; 0]).
  vm_compute. reflexivity.
Qed.

Lemma concurrency_bound_witness :
  in_flight_count Examples.two_slots_taken <= 2 /\
  (in_flight_count Examples.two_slots_taken = 2 ->
   forall i t b',
     tasks Examples.two_slots_taken !! i = Some t -> t_pc t = Queued ->
     ~ step Examples.batch_service "./outputs" true i
         Examples.two_slots_taken b').
Proof.
  apply (concurrency_bound Examples.batch_service "./outputs" true 2
           new_manager Examples.three_scripts Examples.two_slots_taken).
  apply (perform_all_run Examples.batch_service "./outputs" true 2 [0; 1]).
  reflexivity.
Defined.

Lemma slot_released_exactly_once_witness :
  acquires 0 (sem_events Examples.cancelled_batch) = 1 /\
  releases 0 (sem_events Examples.cancelled_batch) = 1 /\
  (forall g, Finished (Escaped (Raised CancelledError "")) = Finished g ->
             acquires 0 (sem_events Examples.cancelled_batch) = 1 /\
             releases 0 (sem_events Examples.cancelled_batch) = 1) /\
  (all_over Examples.cancelled_batch ->
   semaphore Examples.cancelled_batch = 1).
Proof.
  apply (slot_released_exactly_once Examples.batch_service "./outputs" true 1
           new_manager [Examples.script_about "Owl"] Examples.cancelled_batch 0
           {| t_script := Examples.script_about "Owl"; t_index := 0;
              t_pc := Finished (Escaped (Raised CancelledError "")) |}).
  - apply (perform_all_run Examples.batch_service "./outputs" true 2 [0; 0]).
    vm_compute. reflexivity.
  - reflexivity.
Defined.

Lemma two_scripts_processed :
  process_batch Examples.batch_service "./outputs" true 1 new_manager
    Examples.two_scripts Examples.two_results.
Proof.
  eexists. split.
  - apply (perform_all_run Examples.batch_service "./outputs" true 2
             [0; 0; 1; 1; 1; 1]).
    vm_compute. reflexivity.
  - vm_compute. reflexivity.
Qed.



(** A batch whose only job stays pending gets as far as the wait and
    no further. *)
Lemma pending_batch_waits b :
  run Examples.pending_service "./outputs" true
    (start 1 new_manager [Examples.script_about "Cat"]) b ->
  exists p,
    tasks b = [{| t_script := Examples.script_about "Cat"; t_index := 0;
                  t_pc := p |}] /\
    (p = Queued \/ p = AtSubmit \/ p = AtWait "job-1").
Proof.
  induction 1 as [|i b' b'' _ IH Hstep].
  - exists Queued. split; [reflexivity | by left].
  - destruct IH as (p & Htasks & Hp).
    assert (Hwait : forall fuel job_id m r m',
              wait_for_completion Examples.pending_service fuel job_id
                default_poll_interval None m = (r, m') -> r = Fuel).
    { intros fuel job_id m r m' Hcall.
      pose proof (wait_for_completion_unbounded Examples.pending_service fuel
                    job_id default_poll_interval None m eq_refl) as Hf.
      rewrite Hcall in Hf. apply Hf.
      intros k _. eexists. split; reflexivity. }
    inversion Hstep as
      [i' t b0 Hi Hpc Hpos
      |i' t b0 job_id m' Hi Hpc Hcall
      |i' t b0 e m' Hi Hpc Hcall
      |i' t b0 job_id fuel status m' Hi Hpc Hcall
      |i' t b0 job_id fuel e m' Hi Hpc Hcall
      |i' t b0 job_id status paths m' Hi Hpc Hcall
      |i' t b0 job_id status e m' Hi Hpc Hcall]; subst;
      rewrite Htasks in Hi; destruct i as [|i]; try discriminate Hi;
      injection Hi as <-; cbn [t_pc] in Hpc; subst p;
      cbn [tasks proceed leave]; rewrite Htasks.
    + exists AtSubmit. split; [reflexivity | right; by left].
    + pose proof (submit_result Examples.pending_service
                    (Examples.script_about "Cat") true
                    (Some (batch_name 0)) (mgr b')) as Hsub.
      cbn [t_script t_index] in Hcall. rewrite Hcall in Hsub.
      injection Hsub as ->.
      exists (AtWait "job-1"). split; [reflexivity | right; by right].
    + pose proof (submit_result Examples.pending_service
                    (Examples.script_about "Cat") true
                    (Some (batch_name 0)) (mgr b')) as Hsub.
      cbn [t_script t_index] in Hcall. rewrite Hcall in Hsub.
      discriminate Hsub.
    + apply Hwait in Hcall. discriminate Hcall.
    + apply Hwait in Hcall. discriminate Hcall.
    + destruct Hp as [Hp|[Hp|Hp]]; discriminate Hp.
    + destruct Hp as [Hp|[Hp|Hp]]; discriminate Hp.
Qed.

Lemma waiting_batch_reached :
  run Examples.pending_service "./outputs" true
    (start 1 new_manager [Examples.script_about "Cat"])
    Examples.waiting_batch.
Proof.
  apply (perform_all_run Examples.pending_service "./outputs" true 0 [0; 0]).
  vm_compute. reflexivity.
Qed.

Lemma pending_batch_no_result b :
  run Examples.pending_service "./outputs" true
    (start 1 new_manager [Examples.script_about "Cat"]) b ->
  gather (tasks b) = None.
Proof.
  intros Hrun. destruct (pending_batch_waits b Hrun) as (p & -> & Hp).
  destruct Hp as [->|[->| ->]]; reflexivity.
Qed.

(** In the example the refused script fails at its submission and gets
    the failure dictionary, while the script after it succeeds. *)
Lemma refused_script_fails :
  fails_with Examples.batch_service "./outputs" true (inl new_script)
    (Raised ClientError "invalid script").
Proof. left. reflexivity. Qed.

End BatchScheduler.

(** ** Building, saving and loading scripts *)

Module ScriptBuilding.

Lemma call_builder_appends c l :
  call_builder c {| actions := PList l |}
  = (Ret tt, {| actions := PList (l ++ [action_of c]) |}).
Proof. destruct c as [prompt ts [i|] | prompt ts | ts]; reflexivity. Qed.

Lemma chain_appends cs :
  forall l,
    chain cs {| actions := PList l |}
    = (Ret tt, {| actions := PList (l ++ map action_of cs) |}).
Proof.
  induction cs as [|c cs IH]; intros l; simpl.
  - rewrite app_nil_r. reflexivity.
  - unfold bind. rewrite call_builder_appends, IH, <- app_assoc. reflexivity.
Qed.

(** X1.  A chain of builder calls on a script whose actions are a list
    never raises and appends one dictionary for each call, in the order
    of the calls, after the actions that were there. *)
Theorem chained_builders_append_in_order cs l :
  chain cs {| actions := PList l |}
  = (Ret tt, {| actions := PList (l ++ map action_of cs) |}).
Proof. apply chain_appends. Qed.

Lemma json_dumps_action c :
  int_prints (timestamp_of c) = true ->
  if passes_bytes c
  then json_dumps (action_of c)
       = inl (Raised TypeError "Object of type bytes is not JSON serializable")
  else exists doc, json_dumps (action_of c) = inr doc.
Proof.
  destruct c as [prompt ts [[path|data]|] | prompt ts | ts];
    cbn [timestamp_of passes_bytes action_of json_dumps dump_each fst snd
         image_value];
    intros ->; try reflexivity; eexists; reflexivity.
Qed.

Lemma json_dumps_actions cs :
  Forall (fun c => int_prints (timestamp_of c) = true) cs ->
  if existsb passes_bytes cs
  then dump_each json_dumps (map action_of cs)
       = inl (Raised TypeError "Object of type bytes is not JSON serializable")
  else exists docs, dump_each json_dumps (map action_of cs) = inr docs.
Proof.
  induction cs as [|c cs IH]; intros Hfit; cbn [existsb map dump_each].
  - eexists. reflexivity.
  - apply Forall_cons in Hfit. destruct Hfit as [Hc Hcs].
    pose proof (json_dumps_action c Hc) as Hdump. specialize (IH Hcs).
    destruct (passes_bytes c); cbn [orb].
    + rewrite Hdump. reflexivity.
    + destruct Hdump as [doc ->].
      destruct (existsb passes_bytes cs).
      * rewrite IH. reflexivity.
      * destruct IH as [docs ->]. eexists. reflexivity.
Qed.

Lemma to_file_from_file_again open_w self filepath (fs fs' : script_files) :
  to_file open_w self filepath fs = (Ret tt, fs') ->
  from_file filepath fs' = (Ret self, fs').
Proof.
  unfold to_file, from_file. munfold.
  destruct (open_w filepath) as [e|]; [discriminate|].
  destruct (json_dumps (actions self)) as [e|doc] eqn:Hdoc; [discriminate|].
  intros [= <-]. rewrite lookup_insert_eq.
  rewrite (ScriptFiles.json_load_dumps _ _ Hdoc). destruct self. reflexivity.
Qed.

(** X2.  A script built by builder calls from [SimulationScript()], with
    timestamps that [json.dumps] can write, and a file that opens: the
    script is saved exactly when no call passed an image as [bytes].
    Then [to_file] returns and [from_file] gives the script back;
    otherwise [to_file] raises [TypeError] and leaves an empty file, of
    which [from_file] raises [JSONDecodeError]. *)
Theorem built_script_saves_unless_bytes
    open_w cs filepath (fs : script_files) :
  open_w filepath = None ->
  Forall (fun c => int_prints (timestamp_of c) = true) cs ->
  (existsb passes_bytes cs = false ->
   exists fs',
     to_file open_w (snd (chain cs new_script)) filepath fs = (Ret tt, fs') /\
     from_file filepath fs' = (Ret (snd (chain cs new_script)), fs')) /\
  (existsb passes_bytes cs = true ->
   to_file open_w (snd (chain cs new_script)) filepath fs
   = (Exn (Raised TypeError "Object of type bytes is not JSON serializable"),
      <[filepath := []]> fs) /\
   fst (from_file filepath
          (snd (to_file open_w (snd (chain cs new_script)) filepath fs)))
   = Exn (Raised JSONDecodeError "Expecting value: line 1 column 1 (char 0)")).
Proof.
  intros Hopen Hfit. unfold new_script. rewrite chain_appends. cbn [snd app].
  pose proof (json_dumps_actions cs Hfit) as Hcs.
  split; intros Hbytes; rewrite Hbytes in Hcs.
  - destruct Hcs as [docs Hdocs].
    assert (Hsave : exists fs',
              to_file open_w {| actions := PList (map action_of cs) |}
                filepath fs = (Ret tt, fs')).
    { unfold to_file. munfold. rewrite Hopen. cbn [actions json_dumps].
      rewrite Hdocs. eexists. reflexivity. }
    destruct Hsave as [fs' Hsave]. exists fs'. split; [exact Hsave|].
    apply (to_file_from_file_again open_w _ _ fs). exact Hsave.
  - unfold to_file, from_file. munfold. rewrite Hopen.
    cbn [actions json_dumps]. rewrite Hcs. cbn [fst snd].
    rewrite lookup_insert_eq. split; reflexivity.
Qed.

Lemma built_script_saves_unless_bytes_witness :
  (existsb passes_bytes
     [AddStart "A robot dancing" 0 (Some (ImageBytes "PNG")); AddEnd 10000]
   = false ->
   exists fs',
     to_file Examples.writable
       (snd (chain [AddStart "A robot dancing" 0 (Some (ImageBytes "PNG"));
                    AddEnd 10000] new_script)) "robot.json" ∅ = (Ret tt, fs') /\
     from_file "robot.json" fs'
     = (Ret (snd (chain [AddStart "A robot dancing" 0
                           (Some (ImageBytes "PNG")); AddEnd 10000]
                    new_script)), fs')) /\
  (existsb passes_bytes
     [AddStart "A robot dancing" 0 (Some (ImageBytes "PNG")); AddEnd 10000]
   = true ->
   to_file Examples.writable
     (snd (chain [AddStart "A robot dancing" 0 (Some (ImageBytes "PNG"));
                  AddEnd 10000] new_script)) "robot.json" ∅
   = (Exn (Raised TypeError "Object of type bytes is not JSON serializable"),
      <["robot.json" := []]> ∅) /\
   fst (from_file "robot.json"
          (snd (to_file Examples.writable
                  (snd (chain [AddStart "A robot dancing" 0
                                 (Some (ImageBytes "PNG")); AddEnd 10000]
                          new_script)) "robot.json" ∅)))
   = Exn (Raised JSONDecodeError "Expecting value: line 1 column 1 (char 0)")).
Proof.
  apply (built_script_saves_unless_bytes Examples.writable
           [AddStart "A robot dancing" 0 (Some (ImageBytes "PNG"));
            AddEnd 10000] "robot.json" ∅).
  - reflexivity.
  - repeat constructor; vm_compute; reflexivity.
Defined.

(** X3.  Whenever [to_file] returns, [from_file] on the same path gives
    the script back, whatever the file held before, and no other file
    has changed. *)
Theorem to_file_round_trip open_w self filepath (fs fs' : script_files) :
  to_file open_w self filepath fs = (Ret tt, fs') ->
  from_file filepath fs' = (Ret self, fs') /\
  (forall other, other <> filepath -> fs' !! other = fs !! other).
Proof.
  intros Hsave.
  split; [apply (to_file_from_file_again open_w _ _ fs); exact Hsave|].
  intros other Hother. revert Hsave. unfold to_file. munfold.
  destruct (open_w filepath) as [e|]; [discriminate|].
  destruct (json_dumps (actions self)) as [e|doc]; [discriminate|].
  intros [= <-]. rewrite !lookup_insert_ne by congruence. reflexivity.
Qed.

Lemma to_file_round_trip_witness :
  from_file "robot.json"
    (snd (to_file Examples.writable Examples.robot_script_path "robot.json"
            {["robot.json" := [JNull]; "other.json" := [JNull]]}))
  = (Ret Examples.robot_script_path,
     snd (to_file Examples.writable Examples.robot_script_path "robot.json"
            {["robot.json" := [JNull]; "other.json" := [JNull]]})) /\
  (forall other, other <> "robot.json" ->
     snd (to_file Examples.writable Examples.robot_script_path "robot.json"
            {["robot.json" := [JNull]; "other.json" := [JNull]]}) !! other
     = ({["robot.json" := [JNull]; "other.json" := [JNull]]}
          : script_files) !! other).
Proof.
  apply (to_file_round_trip Examples.writable Examples.robot_script_path
           "robot.json").
  vm_compute. reflexivity.
Defined.

(** X4.  [from_file] does not look at what it loads: a file holding a
    JSON value that is no array loads as a script, and every builder
    call on that script raises [AttributeError] and leaves it as it
    is. *)
Theorem from_file_does_not_validate doc filepath (fs : script_files) c :
  fs !! filepath = Some [doc] ->
  match doc with JArr _ => False | _ => True end ->
  from_file filepath fs = (Ret {| actions := json_load doc |}, fs) /\
  exists msg,
    call_builder c {| actions := json_load doc |}
    = (Exn (Raised AttributeError msg), {| actions := json_load doc |}).
Proof.
  intros Hfile Hdoc. split.
  - unfold from_file. munfold. rewrite Hfile. reflexivity.
  - destruct doc; try contradiction;
      destruct c as [prompt ts [i|] | prompt ts | ts]; eexists; reflexivity.
Qed.

Lemma from_file_does_not_validate_witness :
  from_file "object.json" {["object.json" := [JObj []]]}
  = (Ret {| actions := json_load (JObj []) |},
     {["object.json" := [JObj []]]}) /\
  exists msg,
    call_builder (AddEnd 5000) {| actions := json_load (JObj []) |}
    = (Exn (Raised AttributeError msg), {| actions := json_load (JObj []) |}).
Proof.
  apply (from_file_does_not_validate (JObj []) "object.json"
           {["object.json" := [JObj []]]} (AddEnd 5000)).
  - reflexivity.
  - exact I.
Defined.

End ScriptBuilding.

(** ** The jobs a manager tracks *)

Module ManagerJobs.

Lemma record_status_again job_id a b (jobs : gmap string job_entry) :
  record_status job_id a (record_status job_id b jobs)
  = record_status job_id a jobs.
Proof.
  unfold record_status. destruct (jobs !! job_id) as [entry|] eqn:Hj.
  - rewrite lookup_insert_eq. unfold with_status. simpl.
    rewrite insert_insert_eq. reflexivity.
  - rewrite Hj. reflexivity.
Qed.

Lemma record_status_tracked job_id status (jobs : gmap string job_entry) j :
  is_Some (record_status job_id status jobs !! j) <-> is_Some (jobs !! j).
Proof.
  unfold record_status. destruct (jobs !! job_id) as [entry|] eqn:Hj;
    [|reflexivity].
  destruct (decide (job_id = j)) as [<-|Hne].
  - rewrite lookup_insert_eq, Hj. split; eauto.
  - rewrite lookup_insert_ne by exact Hne. reflexivity.
Qed.

Section WithService.

Variable svc : service.

Lemma get_status_jobs job_id k m :
  active_jobs (snd (get_status svc job_id k m))
  = match fst (get_status svc job_id k m) with
    | Ret sd => record_status job_id (sd_status sd) (active_jobs m)
    | _ => active_jobs m
    end.
Proof.
  unfold get_status. munfold.
  destruct (svc_status svc job_id k) as [e|st]; reflexivity.
Qed.

Lemma polled_record job_id status jobs0 jobs :
  polled job_id jobs0 jobs ->
  record_status job_id status jobs = record_status job_id status jobs0.
Proof.
  intros [-> | [s ->]]; [reflexivity | apply record_status_again].
Qed.

Lemma poll_loop_jobs fuel :
  forall job_id poll_interval timeout start_time k m jobs0 r m',
    polled job_id jobs0 (active_jobs m) ->
    poll_loop svc fuel job_id poll_interval timeout start_time k m = (r, m') ->
    polled job_id jobs0 (active_jobs m') /\
    forall sd, r = Ret sd ->
               active_jobs m' = record_status job_id (sd_status sd) jobs0.
Proof.
  induction fuel as [|fuel IH];
    intros job_id pi timeout start k m jobs0 r m' Hm Hloop.
  - injection Hloop as <- <-. split; [exact Hm | discriminate].
  - rewrite BatchScheduler.poll_loop_S in Hloop. unfold bind at 1 in Hloop.
    pose proof (get_status_jobs job_id k m) as Hjobs.
    destruct (get_status svc job_id k m) as [[sd| e |] m1]; simpl in Hjobs.
    + assert (Hm1 : active_jobs m1 = record_status job_id (sd_status sd) jobs0).
      { rewrite Hjobs. apply polled_record. exact Hm. }
      assert (Hp1 : polled job_id jobs0 (active_jobs m1)) by (right; eauto).
      destruct (is_done sd).
      * injection Hloop as <- <-. split; [exact Hp1|].
        intros sd' [= <-]. exact Hm1.
      * unfold bind at 1 in Hloop.
        destruct (truthy timeout).
        -- unfold bind at 1, loop_time at 1 in Hloop.
           destruct (elapsed_gt _ timeout).
           ++ injection Hloop as <- <-. split; [exact Hp1 | discriminate].
           ++ unfold ret at 1, bind at 1, log_call, modify in Hloop.
              eapply IH; [|exact Hloop]. exact Hp1.
        -- unfold ret at 1, bind at 1, log_call, modify in Hloop.
           eapply IH; [|exact Hloop]. exact Hp1.
    + injection Hloop as <- <-. rewrite Hjobs. split; [exact Hm | discriminate].
    + injection Hloop as <- <-. rewrite Hjobs. split; [exact Hm | discriminate].
Qed.

Lemma wait_for_completion_jobs fuel job_id poll_interval timeout m r m' :
  wait_for_completion svc fuel job_id poll_interval timeout m = (r, m') ->
  polled job_id (active_jobs m) (active_jobs m') /\
  forall sd, r = Ret sd ->
             active_jobs m'
             = record_status job_id (sd_status sd) (active_jobs m).
Proof.
  unfold wait_for_completion. unfold bind at 1, loop_time at 1.
  unfold bind. intros Hwait.
  destruct (poll_loop svc fuel job_id poll_interval timeout _ 0 _)
    as [[sd| e |] m1] eqn:Hloop;
    apply (poll_loop_jobs fuel job_id poll_interval timeout _ 0 _
             (active_jobs m)) in Hloop;
    try (left; reflexivity); destruct Hloop as [Hp Hret].
  - destruct (String.eqb (sd_status sd) "failed");
      [injection Hwait as <- <-; split; [exact Hp | discriminate]|].
    destruct (String.eqb (sd_status sd) "cancelled");
      [injection Hwait as <- <-; split; [exact Hp | discriminate]|].
    injection Hwait as <- <-. split; [exact Hp|].
    intros sd' [= <-]. apply Hret. reflexivity.
  - injection Hwait as <- <-. split; [exact Hp | discriminate].
  - injection Hwait as <- <-. split; [exact Hp | discriminate].
Qed.

(** X5.  When [wait_for_completion] returns a status, the manager's
    record of the job, if it tracks the job, carries that final status
    and is otherwise as it was; every other tracked job is untouched and
    an untracked job stays untracked. *)
Theorem wait_records_final_status fuel job_id poll_interval timeout m sd m' :
  wait_for_completion svc fuel job_id poll_interval timeout m = (Ret sd, m') ->
  active_jobs m' = record_status job_id (sd_status sd) (active_jobs m).
Proof.
  intros Hwait.
  destruct (wait_for_completion_jobs _ _ _ _ _ _ _ Hwait) as [_ Hret].
  apply Hret. reflexivity.
Qed.

Lemma keeps_bind {St A B C} (f : St -> C) (c : M St A) (k : A -> M St B) :
  keeps f c -> (forall a, keeps f (k a)) -> keeps f (bind c k).
Proof.
  intros Hc Hk s. unfold bind. specialize (Hc s).
  destruct (c s) as [[a| e |] s']; simpl in *; try exact Hc.
  rewrite Hk. exact Hc.
Qed.

Lemma keeps_ret {St A C} (f : St -> C) (a : A) : keeps f (ret a).
Proof. intros s. reflexivity. Qed.

Lemma keeps_raise {St A C} (f : St -> C) e : keeps f (@raise St A e).
Proof. intros s. reflexivity. Qed.

Lemma keeps_answer {St A C} (f : St -> C) (r : exn + A) :
  keeps f (@answer St A r).
Proof. destruct r; intros s; reflexivity. Qed.

Lemma _download_file_jobs url output_path :
  keeps active_jobs (_download_file svc url output_path).
Proof.
  intros m. unfold _download_file. munfold.
  destruct (svc_fetch svc url); reflexivity.
Qed.

Lemma download_streams_jobs output_dir job_id streams :
  forall i downloaded,
    keeps active_jobs
      (download_streams svc output_dir job_id streams i downloaded).
Proof.
  induction streams as [|s rest IH]; intros i downloaded.
  - apply keeps_ret.
  - cbn [download_streams].
    apply keeps_bind; [intros m; reflexivity|]. intros _.
    apply keeps_bind; [apply keeps_answer|]. intros rec.
    apply keeps_bind; [apply _download_file_jobs|]. intros _.
    apply keeps_bind; [apply _download_file_jobs|]. intros _.
    apply IH.
Qed.

Lemma download_result_jobs status output_dir :
  keeps active_jobs (download_result svc status output_dir).
Proof.
  unfold download_result.
  apply keeps_bind; [intros m; reflexivity|]. intros _.
  apply keeps_bind.
  - destruct (svc_mkdir svc output_dir); [apply keeps_raise | apply keeps_ret].
  - intros _. destruct (sd_streams status) as [|s rest];
      [apply keeps_ret | apply download_streams_jobs].
Qed.

(** X6.  No call on the manager forgets a job: whatever [submit],
    [get_status], [wait_for_completion], [cancel] and [download_result]
    end with, every job tracked before the call is tracked after it;
    [active_jobs] only grows. *)
Theorem active_jobs_only_grow
    script portrait job_name job_id k fuel poll_interval timeout
    cancel_simulation status output_dir m j :
  is_Some (active_jobs m !! j) ->
  is_Some (active_jobs (snd (submit svc script portrait job_name m)) !! j) /\
  is_Some (active_jobs (snd (get_status svc job_id k m)) !! j) /\
  is_Some (active_jobs (snd (wait_for_completion svc fuel job_id poll_interval
                               timeout m)) !! j) /\
  is_Some (active_jobs (snd (cancel cancel_simulation job_id m)) !! j) /\
  is_Some (active_jobs (snd (download_result svc status output_dir m)) !! j).
Proof.
  intros Hj. repeat split.
  - unfold submit. munfold.
    destruct (no_len (script_data_of script)) as [e|]; simpl; [exact Hj|].
    destruct (svc_simulate svc (script_data_of script) portrait) as [e|job];
      simpl; [exact Hj|].
    destruct (decide (job_job_id job = j)) as [<-|Hne].
    + rewrite lookup_insert_eq. eauto.
    + rewrite lookup_insert_ne by exact Hne. exact Hj.
  - rewrite get_status_jobs.
    destruct (fst (get_status svc job_id k m)); try exact Hj.
    apply record_status_tracked. exact Hj.
  - destruct (wait_for_completion svc fuel job_id poll_interval timeout m)
      as [r m'] eqn:Hwait.
    destruct (wait_for_completion_jobs _ _ _ _ _ _ _ Hwait)
      as [[Hsame | [s Hrec]] _]; simpl; [rewrite Hsame; exact Hj|].
    rewrite Hrec. apply record_status_tracked. exact Hj.
  - unfold cancel. munfold.
    destruct (cancel_simulation job_id); simpl; [exact Hj|].
    apply (record_status_tracked job_id "cancelled"). exact Hj.
  - rewrite download_result_jobs. exact Hj.
Qed.

(** X7.  [cancel] marks a job as cancelled only when the service took
    the request and the job is tracked: a refused request leaves the
    manager as it was and raises, an untracked job is not added; and the
    mark lasts until the next [get_status], which puts the status the
    service reports in its place. *)
Theorem cancel_marks_until_next_status cancel_simulation job_id k m :
  (forall e, cancel_simulation job_id = Some e ->
             cancel cancel_simulation job_id m = (Exn e, m)) /\
  (cancel_simulation job_id = None ->
   fst (cancel cancel_simulation job_id m) = Ret tt /\
   active_jobs (snd (cancel cancel_simulation job_id m))
   = record_status job_id "cancelled" (active_jobs m) /\
   (active_jobs m !! job_id = None ->
    active_jobs (snd (cancel cancel_simulation job_id m)) = active_jobs m) /\
   forall st,
     svc_status svc job_id k = inr st ->
     active_jobs (snd (get_status svc job_id k
                         (snd (cancel cancel_simulation job_id m))))
     = record_status job_id (ss_status st) (active_jobs m)).
Proof.
  split.
  - intros e He. unfold cancel. munfold. rewrite He. reflexivity.
  - intros Hok.
    assert (Hjobs : active_jobs (snd (cancel cancel_simulation job_id m))
                    = record_status job_id "cancelled" (active_jobs m)).
    { unfold cancel. munfold. rewrite Hok. reflexivity. }
    split; [unfold cancel; munfold; rewrite Hok; reflexivity|].
    split; [exact Hjobs|]. split.
    + intros Hnone. rewrite Hjobs. unfold record_status. rewrite Hnone.
      reflexivity.
    + intros st Hst. rewrite get_status_jobs, BatchScheduler.get_status_result, Hst.
      cbn [sd_status status_dict_of]. rewrite Hjobs.
      apply record_status_again.
Qed.

(** X8.  A status that [wait_for_completion] returns is never
    ['pending'], ['running'], ['failed'] or ['cancelled']. *)
Theorem wait_returns_no_open_or_failed_status
    fuel job_id poll_interval timeout m sd m' :
  wait_for_completion svc fuel job_id poll_interval timeout m = (Ret sd, m') ->
  String.eqb (sd_status sd) "pending" = false /\
  String.eqb (sd_status sd) "running" = false /\
  String.eqb (sd_status sd) "failed" = false /\
  String.eqb (sd_status sd) "cancelled" = false.
Proof.
  intros Hwait.
  pose proof (wait_for_completion_ret_done svc _ _ _ _ _ _ _ Hwait) as Hdone.
  unfold in_progress in Hdone. apply orb_false_iff in Hdone.
  destruct Hdone as [Hp Hr]. split; [exact Hp|]. split; [exact Hr|].
  revert Hwait. unfold wait_for_completion. unfold bind at 1, loop_time at 1.
  unfold bind.
  destruct (poll_loop svc fuel job_id poll_interval timeout _ 0 _)
    as [[sd0| e |] m1]; try discriminate.
  destruct (String.eqb (sd_status sd0) "failed") eqn:Hf; [discriminate|].
  destruct (String.eqb (sd_status sd0) "cancelled") eqn:Hc; [discriminate|].
  intros [= <- <-]. split; assumption.
Qed.

(** X9.  With a [timeout] other than [0], as long as the job is reported
    pending or running, [wait_for_completion] raises [TimeoutError] at
    the first check at which the difference of the reading of the clock
    and the reading at the start, as the subtraction of the two
    [float]s gives it, is more than [timeout]: it neither goes on
    polling nor returns. *)
Theorem wait_times_out_after_timeout n fuel job_id poll_interval t m :
  t <> 0%Z ->
  n < fuel ->
  (forall j, j <= n -> busy_at svc job_id j) ->
  (forall j, j < n ->
     (float_sub (svc_clock svc (S (clock_reads m) + j))
        (svc_clock svc (clock_reads m)) <= inject_Z t)%Q) ->
  (inject_Z t
     < float_sub (svc_clock svc (S (clock_reads m) + n))
         (svc_clock svc (clock_reads m)))%Q ->
  exists msg,
    fst (wait_for_completion svc fuel job_id poll_interval (Some t) m)
      = Exn (Raised TimeoutError msg).
Proof. apply wait_for_completion_times_out. Qed.

(** X10.  An exception of the service at a status request ends the
    wait: after reports of a job still going, the first request that
    raises makes [wait_for_completion] raise the same exception, with no
    request after it. *)
Theorem wait_propagates_service_error
    n fuel job_id poll_interval timeout m e :
  n < fuel ->
  (forall j, j < n -> busy_at svc job_id j) ->
  (forall j, j < n ->
     expires timeout (svc_clock svc (clock_reads m))
       (svc_clock svc (S (clock_reads m) + j)) = false) ->
  svc_status svc job_id n = inl e ->
  exists m',
    wait_for_completion svc fuel job_id poll_interval timeout m = (Exn e, m') /\
    calls m' = (calls m ++ poll_trace job_id poll_interval n)%list.
Proof.
  intros Hfuel Hbusy Hclock Hraise.
  unfold wait_for_completion. unfold bind at 1, loop_time at 1.
  destruct (poll_loop_skip svc n (fuel - n) job_id poll_interval timeout
              (svc_clock svc (clock_reads m)) 0
              {| active_jobs := active_jobs m;
                 clock_reads := S (clock_reads m);
                 calls := calls m; files := files m |} Hbusy Hclock)
    as (m1 & Hskip & Hcalls & _).
  replace (n + (fuel - n)) with fuel in Hskip by lia.
  unfold bind at 1. rewrite Hskip.
  destruct (fuel - n) as [|fuel'] eqn:Hf; [lia|]. simpl.
  destruct (get_status_raises svc job_id n m1 e Hraise) as (m2 & Hget & Hcalls2).
  unfold bind at 1. rewrite Hget. exists m2. split; [reflexivity|].
  rewrite Hcalls2, Hcalls, poll_trace_busy, app_assoc. reflexivity.
Qed.

End WithService.

Lemma wait_records_final_status_witness :
  active_jobs
    (snd (wait_for_completion Examples.batch_service 2 "job-Cat" 5 None
            MoreExamples.tracking_manager))
  = record_status "job-Cat" (sd_status MoreExamples.cat_completed)
      (active_jobs MoreExamples.tracking_manager).
Proof.
  apply (wait_records_final_status Examples.batch_service 2 "job-Cat" 5%Z None
           MoreExamples.tracking_manager MoreExamples.cat_completed).
  vm_compute. reflexivity.
Defined.

Lemma active_jobs_only_grow_witness :
  is_Some (active_jobs
             (snd (submit Examples.batch_service (Examples.script_about "Dog")
                     true None MoreExamples.tracking_manager)) !! "job-Cat") /\
  is_Some (active_jobs
             (snd (get_status Examples.batch_service "job-Cat" 1
                     MoreExamples.tracking_manager)) !! "job-Cat") /\
  is_Some (active_jobs
             (snd (wait_for_completion Examples.batch_service 2 "job-Cat" 5
                     None MoreExamples.tracking_manager)) !! "job-Cat") /\
  is_Some (active_jobs
             (snd (cancel MoreExamples.cancel_accepted "job-Cat"
                     MoreExamples.tracking_manager)) !! "job-Cat") /\
  is_Some (active_jobs
             (snd (download_result Examples.batch_service
                     MoreExamples.cat_completed "./outputs"
                     MoreExamples.tracking_manager)) !! "job-Cat").
Proof.
  apply (active_jobs_only_grow Examples.batch_service
           (Examples.script_about "Dog") true None "job-Cat" 1 2 5%Z None
           MoreExamples.cancel_accepted MoreExamples.cat_completed "./outputs"
           MoreExamples.tracking_manager "job-Cat").
  vm_compute. eexists. reflexivity.
Defined.

Lemma wait_returns_no_open_or_failed_status_witness :
  String.eqb (sd_status MoreExamples.cat_completed) "pending" = false /\
  String.eqb (sd_status MoreExamples.cat_completed) "running" = false /\
  String.eqb (sd_status MoreExamples.cat_completed) "failed" = false /\
  String.eqb (sd_status MoreExamples.cat_completed) "cancelled" = false.
Proof.
  apply (wait_returns_no_open_or_failed_status Examples.batch_service 2
           "job-Cat" 5%Z None new_manager MoreExamples.cat_completed
           (snd (wait_for_completion Examples.batch_service 2 "job-Cat" 5 None
                   new_manager))).
  vm_compute. reflexivity.
Defined.

Lemma wait_times_out_after_timeout_witness :
  exists msg,
    fst (wait_for_completion Examples.pending_service 1 "job-1" 5 (Some 1%Z)
           new_manager)
      = Exn (Raised TimeoutError msg).
Proof.
  apply (wait_times_out_after_timeout Examples.pending_service 0 1 "job-1"
           5%Z 1%Z new_manager).
  - lia.
  - lia.
  - intros j Hj. eexists. split; reflexivity.
  - intros j Hj. lia.
  - vm_compute. reflexivity.
Defined.

Lemma wait_propagates_service_error_witness :
  exists m',
    wait_for_completion MoreExamples.flaky_service 2 "job-Cat" 5 None
      new_manager = (Exn (Raised ClientError "503"), m') /\
    calls m' = (calls new_manager ++ poll_trace "job-Cat" 5 1)%list.
Proof.
  apply (wait_propagates_service_error MoreExamples.flaky_service 1 2
           "job-Cat" 5%Z None new_manager (Raised ClientError "503")).
  - lia.
  - intros j Hj. assert (j = 0) as -> by lia. eexists. split; reflexivity.
  - intros j Hj. reflexivity.
  - reflexivity.
Defined.

End ManagerJobs.

(** ** Downloading the results of a job *)

Module Downloads.

Section WithService.

Variable svc : service.

Lemma bind_returns {St A B} (c : M St A) (k : A -> M St B) s a s' :
  c s = (Ret a, s') -> bind c k s = k a s'.
Proof. intros H. unfold bind. rewrite H. reflexivity. Qed.

Lemma _download_file_body url output_path body m :
  svc_fetch svc url = FetchBody body ->
  exists m',
    _download_file svc url output_path m = (Ret tt, m') /\
    files m' = <[output_path := body]> (<[output_path := ""]> (files m)).
Proof.
  intros Hfetch. unfold _download_file. munfold. rewrite Hfetch.
  eexists. split; reflexivity.
Qed.

Lemma written_stays (fs : gmap string string) path body p :
  is_Some (fs !! p) ->
  is_Some ((<[path := body]> (<[path := ""]> fs)) !! p).
Proof.
  intros Hp. destruct (decide (path = p)) as [<-|Hne].
  - rewrite lookup_insert_eq. eauto.
  - rewrite !lookup_insert_ne by exact Hne. exact Hp.
Qed.

Lemma written_there (fs : gmap string string) path body :
  is_Some ((<[path := body]> (<[path := ""]> fs)) !! path).
Proof. rewrite lookup_insert_eq. eauto. Qed.

Lemma _download_file_keeps_files url output_path m p :
  is_Some (files m !! p) ->
  is_Some (files (snd (_download_file svc url output_path m)) !! p).
Proof.
  intros Hp. unfold _download_file. munfold.
  destruct (svc_fetch svc url); simpl; [exact Hp | |].
  - destruct (decide (output_path = p)) as [<-|Hne].
    + rewrite lookup_insert_eq. eauto.
    + rewrite lookup_insert_ne by exact Hne. exact Hp.
  - apply written_stays. exact Hp.
Qed.

(** The loop over streams that can all be downloaded. *)
Lemma download_streams_all output_dir job_id streams :
  forall i downloaded m,
    Forall (downloadable svc) streams ->
    exists m',
      download_streams svc output_dir job_id streams i downloaded m
      = (Ret (downloaded ++ stream_paths output_dir job_id i (length streams))%list,
         m') /\
      (forall p, is_Some (files m !! p) -> is_Some (files m' !! p)) /\
      (forall p, In p (stream_paths output_dir job_id i (length streams)) ->
                 is_Some (files m' !! p)).
Proof.
  induction streams as [|s rest IH]; intros i downloaded m Hall.
  - exists m. simpl. rewrite app_nil_r.
    split; [reflexivity|]. split; [auto | contradiction].
  - apply Forall_cons in Hall. destruct Hall as [Hs Hrest].
    destruct Hs as (rec & video & thumb & Hrec & Hvideo & Hthumb).
    cbn [download_streams]. unfold bind at 1, log_call, modify.
    unfold bind at 1, answer. rewrite Hrec. unfold ret at 1.
    match goal with
    | |- context [bind (_download_file svc (video_url rec) ?p) _ ?m0] =>
      destruct (_download_file_body (video_url rec) p video m0 Hvideo)
        as (m1 & Hd1 & Hf1) end.
    rewrite (bind_returns _ _ _ _ _ Hd1).
    match goal with
    | |- context [bind (_download_file svc (thumbnail_url rec) ?p) _ m1] =>
      destruct (_download_file_body (thumbnail_url rec) p thumb m1 Hthumb)
        as (m2 & Hd2 & Hf2) end.
    rewrite (bind_returns _ _ _ _ _ Hd2).
    match goal with |- context [download_streams svc _ _ rest _ ?dl m2] =>
      destruct (IH (S i) dl m2 Hrest) as (m' & Hloop & Hkeep & Hnew) end.
    exists m'. rewrite Hloop. cbn [length stream_paths].
    split; [|split].
    + rewrite <- !app_assoc. reflexivity.
    + intros p Hp. apply Hkeep. rewrite Hf2. apply written_stays.
      rewrite Hf1. apply written_stays. exact Hp.
    + intros p [<- | [<- | Hp]].
      * apply Hkeep. rewrite Hf2. apply written_stays.
        rewrite Hf1. apply written_there.
      * apply Hkeep. rewrite Hf2. apply written_there.
      * apply Hnew. exact Hp.
Qed.

Lemma stream_paths_length output_dir job_id n :
  forall i, length (stream_paths output_dir job_id i n) = 2 * n.
Proof. induction n as [|n IH]; intros i; simpl; [|rewrite IH]; lia. Qed.

(** X11.  When the output directory can be made and every stream of the
    status has its recording and both its downloads, [download_result]
    returns, for each stream in order, the path of its video and then
    the path of its thumbnail, as [Path(output_dir) / name] makes them,
    two paths for each stream, and each of these files is there
    afterwards. *)
Theorem download_result_two_files_per_stream status output_dir m :
  svc_mkdir svc output_dir = None ->
  Forall (downloadable svc) (sd_streams status) ->
  exists m',
    download_result svc status output_dir m
    = (Ret (stream_paths output_dir (sd_job_id status) 0
              (length (sd_streams status))), m') /\
    length (stream_paths output_dir (sd_job_id status) 0
              (length (sd_streams status)))
    = 2 * length (sd_streams status) /\
    (forall p, In p (stream_paths output_dir (sd_job_id status) 0
                       (length (sd_streams status))) ->
               is_Some (files m' !! p)).
Proof.
  intros Hmkdir Hall. unfold download_result.
  unfold bind at 1, log_call, modify. unfold bind at 1. rewrite Hmkdir.
  unfold ret at 1.
  destruct (sd_streams status) as [|s rest] eqn:Hstreams.
  - eexists. split; [reflexivity|]. split; [reflexivity | contradiction].
  - match goal with |- context [download_streams svc _ _ _ 0 [] ?m0] =>
      destruct (download_streams_all output_dir (sd_job_id status) (s :: rest)
                  0 [] m0 Hall) as (m' & Hloop & _ & Hnew) end.
    exists m'. split; [exact Hloop|].
    split; [apply stream_paths_length | exact Hnew].
Qed.

(** The same, as the caller of [download_result] sees it. *)
Lemma download_result_all_streams status output_dir m :
  svc_mkdir svc output_dir = None ->
  Forall (downloadable svc) (sd_streams status) ->
  exists m',
    download_result svc status output_dir m
    = (Ret (stream_paths output_dir (sd_job_id status) 0
              (length (sd_streams status))), m').
Proof.
  intros Hmkdir Hall. unfold download_result.
  unfold bind at 1, log_call, modify. unfold bind at 1. rewrite Hmkdir.
  unfold ret at 1.
  destruct (sd_streams status) as [|s rest] eqn:Hstreams.
  - eexists. reflexivity.
  - match goal with |- context [download_streams svc _ _ _ 0 [] ?m0] =>
      destruct (download_streams_all output_dir (sd_job_id status) (s :: rest)
                  0 [] m0 Hall) as (m' & Hloop & _ & _) end.
    exists m'. exact Hloop.
Qed.

(** The loop stops at the first stream without a recording. *)
Lemma download_streams_partial output_dir job_id done s rest e :
  forall i downloaded m,
    Forall (downloadable svc) done ->
    svc_recording svc (stream_id s) = inl e ->
    exists m',
      download_streams svc output_dir job_id (done ++ s :: rest) i downloaded m
      = (Exn e, m') /\
      (forall p, is_Some (files m !! p) -> is_Some (files m' !! p)) /\
      (forall p, In p (stream_paths output_dir job_id i (length done)) ->
                 is_Some (files m' !! p)).
Proof.
  induction done as [|d done IH]; intros i downloaded m Hall Hfail.
  - cbn [app download_streams]. unfold bind at 1, log_call, modify.
    unfold bind at 1, answer. rewrite Hfail.
    eexists. split; [reflexivity|]. split; [auto | contradiction].
  - apply Forall_cons in Hall. destruct Hall as [Hd Hdone].
    destruct Hd as (rec & video & thumb & Hrec & Hvideo & Hthumb).
    cbn [app download_streams]. unfold bind at 1, log_call, modify.
    unfold bind at 1, answer. rewrite Hrec. unfold ret at 1.
    match goal with
    | |- context [bind (_download_file svc (video_url rec) ?p) _ ?m0] =>
      destruct (_download_file_body (video_url rec) p video m0 Hvideo)
        as (m1 & Hd1 & Hf1) end.
    rewrite (bind_returns _ _ _ _ _ Hd1).
    match goal with
    | |- context [bind (_download_file svc (thumbnail_url rec) ?p) _ m1] =>
      destruct (_download_file_body (thumbnail_url rec) p thumb m1 Hthumb)
        as (m2 & Hd2 & Hf2) end.
    rewrite (bind_returns _ _ _ _ _ Hd2).
    match goal with |- context [download_streams svc _ _ _ _ ?dl m2] =>
      destruct (IH (S i) dl m2 Hdone Hfail) as (m' & Hloop & Hkeep & Hnew) end.
    exists m'. rewrite Hloop. cbn [length stream_paths].
    split; [reflexivity|]. split.
    + intros p Hp. apply Hkeep. rewrite Hf2. apply written_stays.
      rewrite Hf1. apply written_stays. exact Hp.
    + intros p [<- | [<- | Hp]].
      * apply Hkeep. rewrite Hf2. apply written_stays.
        rewrite Hf1. apply written_there.
      * apply Hkeep. rewrite Hf2. apply written_there.
      * apply Hnew. exact Hp.
Qed.

(** X12.  [download_result] does not undo what it did when it fails:
    when the recording of one stream cannot be had, the exception goes
    to the caller, no list of paths is returned, and the files of the
    streams before it stay where they were written. *)
Theorem download_result_leaves_partial_files
    status output_dir m done s rest e :
  svc_mkdir svc output_dir = None ->
  sd_streams status = (done ++ s :: rest)%list ->
  Forall (downloadable svc) done ->
  svc_recording svc (stream_id s) = inl e ->
  exists m',
    download_result svc status output_dir m = (Exn e, m') /\
    (forall p, In p (stream_paths output_dir (sd_job_id status) 0
                       (length done)) ->
               is_Some (files m' !! p)).
Proof.
  intros Hmkdir Hstreams Hall Hfail. unfold download_result.
  unfold bind at 1, log_call, modify. unfold bind at 1. rewrite Hmkdir.
  unfold ret at 1. rewrite Hstreams.
  destruct (download_streams_partial output_dir (sd_job_id status) done s
              rest e 0 []
              {| active_jobs := active_jobs m; clock_reads := clock_reads m;
                 calls := (calls m ++ [CallMkdir output_dir])%list;
                 files := files m |} Hall Hfail)
    as (m' & Hloop & _ & Hnew).
  exists m'. split; [|exact Hnew].
  destruct done; exact Hloop.
Qed.

End WithService.

Lemma download_result_two_files_per_stream_witness :
  exists m',
    download_result Examples.batch_service MoreExamples.two_streams
      "./outputs" new_manager
    = (Ret (stream_paths "./outputs" (sd_job_id MoreExamples.two_streams) 0
              (length (sd_streams MoreExamples.two_streams))), m') /\
    length (stream_paths "./outputs" (sd_job_id MoreExamples.two_streams) 0
              (length (sd_streams MoreExamples.two_streams)))
    = 2 * length (sd_streams MoreExamples.two_streams) /\
    (forall p, In p (stream_paths "./outputs"
                       (sd_job_id MoreExamples.two_streams) 0
                       (length (sd_streams MoreExamples.two_streams))) ->
               is_Some (files m' !! p)).
Proof.
  apply (download_result_two_files_per_stream Examples.batch_service
           MoreExamples.two_streams "./outputs" new_manager).
  - reflexivity.
  - repeat constructor; eexists _, "data", "data";
      (split; [reflexivity|]); split; reflexivity.
Defined.

Lemma download_result_leaves_partial_files_witness :
  exists m',
    download_result MoreExamples.second_recording_missing
      MoreExamples.two_streams "./outputs" new_manager
    = (Exn (Raised ClientError "no recording"), m') /\
    (forall p, In p (stream_paths "./outputs"
                       (sd_job_id MoreExamples.two_streams) 0 1) ->
               is_Some (files m' !! p)).
Proof.
  apply (download_result_leaves_partial_files
           MoreExamples.second_recording_missing MoreExamples.two_streams
           "./outputs" new_manager [{| stream_id := "a" |}]
           {| stream_id := "b" |} [] (Raised ClientError "no recording")).
  - reflexivity.
  - reflexivity.
  - repeat constructor; eexists _, "data", "data";
      (split; [reflexivity|]); split; reflexivity.
  - reflexivity.
Defined.

End Downloads.

(** ** What a batch reports *)

Module BatchReport.

Section WithService.

Variable svc : service.
Variable output_dir : string.
Variable portrait : bool.

(** Every entry of the results counts as a success. *)
Lemma successes_all results :
  (forall i g, results !! i = Some g ->
     match g with
     | Returned _ => True
     | Escaped e => is_Exception e = false
     end) ->
  successes results = length results.
Proof.
  unfold successes. induction results as [|g rest IH]; intros Hall.
  - reflexivity.
  - assert (Hrest : length (List.filter (fun g =>
                       match g with
                       | Returned _ => true
                       | Escaped e => negb (is_Exception e)
                       end) rest) = length rest).
    { apply IH. intros i g' Hi. exact (Hall (S i) g' Hi). }
    pose proof (Hall 0 g eq_refl) as Hg. cbn [List.filter].
    destruct g as [r|e]; [|rewrite Hg]; cbn [negb length]; rewrite Hrest;
      reflexivity.
Qed.


(** With no slot no coroutine gets past the semaphore. *)
Lemma no_slot_no_step i b b' :
  semaphore b = 0 ->
  (forall j t, tasks b !! j = Some t -> t_pc t = Queued) ->
  step svc output_dir portrait i b b' -> False.
Proof.
  intros Hsem Hq Hstep.
  inversion Hstep as
    [i' t b0 Hi Hpc Hpos
    |i' t b0 job_id m' Hi Hpc Hcall
    |i' t b0 e m' Hi Hpc Hcall
    |i' t b0 job_id fuel status m' Hi Hpc Hcall
    |i' t b0 job_id fuel e m' Hi Hpc Hcall
    |i' t b0 job_id status paths m' Hi Hpc Hcall
    |i' t b0 job_id status e m' Hi Hpc Hcall]; subst;
    try (rewrite (Hq _ _ Hi) in Hpc; discriminate).
  lia.
Qed.

(** X14.  A [BatchProcessor] made with [max_concurrent = 0] never moves:
    every state it reaches is the one it started in, with every
    coroutine at the semaphore and no call made, and [process_batch]
    returns only for an empty list of scripts. *)
Theorem no_slot_batch_never_moves m scripts b :
  run svc output_dir portrait (start 0 m scripts) b ->
  b = start 0 m scripts /\
  mgr b = m /\
  (forall results, gather (tasks b) = Some results ->
                   scripts = [] /\ results = []).
Proof.
  intros Hrun.
  assert (Hb : b = start 0 m scripts).
  { induction Hrun as [|i b' b'' _ IH Hstep]; [reflexivity|]. subst b'.
    exfalso.
    apply (no_slot_no_step i (start 0 m scripts) b'');
      [reflexivity | | exact Hstep].
    intros j t. unfold start. cbn [tasks]. rewrite list_lookup_imap.
    destruct (scripts !! j); simpl; [|discriminate].
    intros [= <-]. reflexivity. }
  subst b. split; [reflexivity|]. split; [reflexivity|].
  intros results. destruct scripts as [|script rest].
  - intros [= <-]. split; reflexivity.
  - unfold gather, start. cbn. discriminate.
Qed.


End WithService.


Lemma no_slot_batch_never_moves_witness :
  start 0 new_manager Examples.three_scripts
  = start 0 new_manager Examples.three_scripts /\
  mgr (start 0 new_manager Examples.three_scripts) = new_manager /\
  (forall results,
     gather (tasks (start 0 new_manager Examples.three_scripts))
     = Some results ->
     Examples.three_scripts = [] /\ results = []).
Proof.
  apply (no_slot_batch_never_moves Examples.batch_service "./outputs" true
           new_manager Examples.three_scripts
           (start 0 new_manager Examples.three_scripts)).
  apply run_refl.
Defined.


(** The files of the example, as the code names them. *)
Lemma two_scripts_files :
  stream_paths "./outputs" (sd_job_id MoreExamples.cat_completed) 0
    (length (sd_streams MoreExamples.cat_completed))
  = ["outputs/job-Cat_stream_0.mp4"; "outputs/job-Cat_stream_0_thumb.jpg"].
Proof. vm_compute. reflexivity. Qed.

(** With no slot a batch of a script or more has no result. *)
Lemma no_slot_no_result svc output_dir portrait m script rest results :
  process_batch svc output_dir portrait 0 m (script :: rest) results -> False.
Proof.
  intros (b & Hrun & Hgather).
  assert (Hb : b = start 0 m (script :: rest)).
  { clear Hgather. induction Hrun as [|i b' b'' _ IH Hstep]; [reflexivity|].
    subst b'. exfalso.
    apply (no_slot_no_step svc output_dir portrait i
             (start 0 m (script :: rest)) b'');
      [reflexivity | | exact Hstep].
    intros j t. unfold start. cbn [tasks]. rewrite list_lookup_imap.
    destruct ((script :: rest) !! j); simpl; [|discriminate].
    intros [= <-]. reflexivity. }
  subst b. discriminate Hgather.
Qed.



End BatchReport.

(** ** The session of [OdysseyClientManager] *)

Module Session.
Import OdysseyClientManager OdysseyEvents.

Section WithClient.

Variable client : odyssey.

Ltac session_unfold :=
  unfold quick_generate, try_finally, connect, disconnect, start_stream,
    interact, end_stream, try_except, call_client, set_connected,
    set_current_stream_id, _on_error, _on_disconnected in *;
  munfold.

(** What [disconnect] does when the client raises nothing but an
    [Exception]. *)
Lemma disconnect_result s :
  (forall e, oc_raises client (length (client_calls s)) ClientDisconnect
             = Some e -> is_Exception e = true) ->
  disconnect client s =
  (Ret tt,
   if _connected s then
     {| _connected := false; _current_stream_id := None;
        client_calls := (client_calls s ++ [ClientDisconnect])%list |}
   else s).
Proof.
  intros Hexn. session_unfold.
  destruct (_connected s); simpl; [|reflexivity].
  destruct (oc_raises client (length (client_calls s)) ClientDisconnect)
    as [e|] eqn:Hcall; simpl; [|reflexivity].
  rewrite (Hexn e eq_refl). reflexivity.
Qed.

(** X16.  [disconnect] takes every [Exception] of the client on itself:
    it returns normally and the session is disconnected afterwards.  A
    connected session loses its stream and the client was asked once; a
    session that was not connected is left as it was, the client not
    asked; and a second [disconnect] changes nothing. *)
Theorem disconnect_always_disconnects s :
  (forall e, oc_raises client (length (client_calls s)) ClientDisconnect
             = Some e -> is_Exception e = true) ->
  fst (disconnect client s) = Ret tt /\
  _connected (snd (disconnect client s)) = false /\
  (_connected s = true ->
   _current_stream_id (snd (disconnect client s)) = None /\
   client_calls (snd (disconnect client s))
   = (client_calls s ++ [ClientDisconnect])%list) /\
  (_connected s = false -> snd (disconnect client s) = s) /\
  disconnect client (snd (disconnect client s))
  = (Ret tt, snd (disconnect client s)).
Proof.
  intros Hexn. rewrite (disconnect_result s Hexn). cbn [fst snd].
  destruct (_connected s) eqn:Hconn.
  - split; [reflexivity|]. split; [reflexivity|].
    split; [intros _; split; reflexivity|]. split; [discriminate|].
    reflexivity.
  - split; [reflexivity|]. split; [exact Hconn|].
    split; [discriminate|]. split; [reflexivity|].
    session_unfold. rewrite Hconn. reflexivity.
Qed.

(** X17.  [connect] asks the client once: when it returns the session is
    connected, with the stream id it had before, and a second [connect]
    returns without a call to the client; when the client raises, the
    exception goes to the caller and the session stays unconnected. *)
Theorem connect_once s :
  (fst (connect client s) = Ret tt ->
   _connected (snd (connect client s)) = true /\
   _current_stream_id (snd (connect client s)) = _current_stream_id s /\
   connect client (snd (connect client s)) = (Ret tt, snd (connect client s)))
  /\
  (forall e, fst (connect client s) = Exn e ->
     _connected s = false /\
     oc_raises client (length (client_calls s)) ClientConnect = Some e /\
     _connected (snd (connect client s)) = false).
Proof.
  session_unfold. destruct (_connected s) eqn:Hconn; simpl.
  - split.
    + intros _. rewrite Hconn. repeat split; reflexivity.
    + intros e H. discriminate.
  - destruct (oc_raises client (length (client_calls s)) ClientConnect)
      as [e0|]; simpl.
    + split; [discriminate|]. intros e [= <-]. repeat split; assumption.
    + split; [|intros e H; discriminate].
      intros _. repeat split; reflexivity.
Qed.

(** X18.  A fatal error leaves the stream id where it was.  After
    [_on_error(error, fatal=True)] on a streaming session, [disconnect]
    does nothing, [connect] makes a connected session that still
    carries the id of the old stream, and [interact] passes its checks
    and reaches the client although no stream was started on the new
    connection.  After [_on_disconnected] the same [interact] is refused
    for want of an active stream. *)
Theorem fatal_error_keeps_stream_id s error prompt :
  _connected s = true ->
  no_active_stream s = false ->
  oc_raises client (length (client_calls s)) ClientConnect = None ->
  disconnect client (snd (_on_error error true s))
  = (Ret tt, snd (_on_error error true s)) /\
  _connected (snd (connect client (snd (_on_error error true s)))) = true /\
  _current_stream_id (snd (connect client (snd (_on_error error true s))))
  = _current_stream_id s /\
  client_calls
    (snd (interact client prompt
            (snd (connect client (snd (_on_error error true s))))))
  = (client_calls s ++ [ClientConnect; ClientInteract prompt])%list /\
  interact client prompt (snd (connect client (snd (_on_disconnected s))))
  = (Exn (Raised OdysseyStreamError "Cannot interact: no active stream"),
     snd (connect client (snd (_on_disconnected s)))).
Proof.
  intros Hconn Hstream Haccept.
  unfold no_active_stream in Hstream.
  unfold quick_generate, try_finally, connect, disconnect, start_stream,
    interact, end_stream, try_except, call_client, set_connected,
    set_current_stream_id, _on_error, _on_disconnected, no_active_stream.
  munfold. cbn. rewrite Haccept. cbn.
  destruct (_current_stream_id s) as [i|]; [|discriminate].
  rewrite Hstream.
  split; [reflexivity|]. split; [reflexivity|]. split; [reflexivity|].
  split; [|reflexivity].
  destruct (oc_raises client _ (ClientInteract prompt)); cbn;
    rewrite <- app_assoc; reflexivity.
Qed.

Lemma bind_ends {St A B} (c : M St A) (k : A -> M St B) :
  (forall s, fst (c s) <> Fuel) ->
  (forall a s, fst (k a s) <> Fuel) ->
  forall s, fst (bind c k s) <> Fuel.
Proof.
  intros Hc Hk s. unfold bind. specialize (Hc s).
  destruct (c s) as [[a|e|] s']; simpl in *;
    [apply Hk | discriminate | intros _; apply Hc; reflexivity].
Qed.

Lemma bind_returns_inv {St A B} (c : M St A) (k : A -> M St B) s b s' :
  bind c k s = (Ret b, s') ->
  exists a s1, c s = (Ret a, s1) /\ k a s1 = (Ret b, s').
Proof.
  unfold bind. destruct (c s) as [[a|e|] s1]; try discriminate.
  intros H. exists a, s1. split; [reflexivity | exact H].
Qed.

Lemma connect_ends s : fst (connect client s) <> Fuel.
Proof.
  session_unfold. destruct (_connected s); simpl; [discriminate|].
  destruct (oc_raises client _ _); simpl; discriminate.
Qed.

Lemma start_stream_ends prompt portrait s :
  fst (start_stream client prompt portrait s) <> Fuel.
Proof.
  session_unfold. destruct (_connected s); simpl; [|discriminate].
  destruct (oc_raises client _ _); simpl; discriminate.
Qed.

Lemma end_stream_ends s : fst (end_stream client s) <> Fuel.
Proof.
  session_unfold. destruct (_connected s); simpl; [|discriminate].
  destruct (no_active_stream s); simpl; [discriminate|].
  destruct (oc_raises client _ _) as [e|]; simpl; [|discriminate].
  destruct (is_Exception e); simpl; discriminate.
Qed.

Lemma connect_returns s s' :
  connect client s = (Ret tt, s') -> _connected s' = true.
Proof.
  session_unfold. destruct (_connected s) eqn:Hconn; simpl.
  - intros [= <-]. exact Hconn.
  - destruct (oc_raises client _ _); simpl; [discriminate|].
    intros [= <-]. reflexivity.
Qed.

Lemma start_stream_returns prompt portrait s stream_id s' :
  start_stream client prompt portrait s = (Ret stream_id, s') ->
  _connected s' = true /\
  client_calls s'
  = (client_calls s ++ [ClientStartStream prompt portrait])%list.
Proof.
  session_unfold. destruct (_connected s) eqn:Hconn; simpl; [|discriminate].
  destruct (oc_raises client _ _); simpl; [discriminate|].
  intros [= <- <-]. split; [exact Hconn | reflexivity].
Qed.

Lemma end_stream_calls s :
  exists l, client_calls (snd (end_stream client s))
            = (client_calls s ++ l)%list.
Proof.
  session_unfold. destruct (_connected s); simpl;
    [|exists []; rewrite app_nil_r; reflexivity].
  destruct (no_active_stream s); simpl;
    [exists []; rewrite app_nil_r; reflexivity|].
  exists [ClientEndStream].
  destruct (oc_raises client _ _) as [e|]; simpl; [|reflexivity].
  destruct (is_Exception e); reflexivity.
Qed.

(** X19.  [quick_generate] cleans up however it ends: when the client
    raises nothing but an [Exception] from [disconnect], the session is
    not connected afterwards.  When a stream id is returned, the session
    has no stream, the stream was asked of the client with the prompt
    and the orientation given, and the last call to the client is the
    disconnection.  When the client refuses the connection, its
    exception goes to the caller and nothing else is asked of it. *)
Theorem quick_generate_always_disconnects s prompt duration portrait :
  (forall n e, oc_raises client n ClientDisconnect = Some e ->
               is_Exception e = true) ->
  _connected (snd (quick_generate client prompt duration portrait s)) = false /\
  (forall stream_id,
     fst (quick_generate client prompt duration portrait s) = Ret stream_id ->
     _current_stream_id (snd (quick_generate client prompt duration portrait s))
     = None /\
     In (ClientStartStream prompt portrait)
        (client_calls (snd (quick_generate client prompt duration portrait s))) /\
     last (client_calls (snd (quick_generate client prompt duration portrait s)))
     = Some ClientDisconnect) /\
  (forall e,
     _connected s = false ->
     oc_raises client (length (client_calls s)) ClientConnect = Some e ->
     quick_generate client prompt duration portrait s
     = (Exn e,
        {| _connected := false; _current_stream_id := _current_stream_id s;
           client_calls := (client_calls s ++ [ClientConnect])%list |})).
Proof.
  intros Hexn. split; [|split].
  - unfold quick_generate, try_finally.
    match goal with |- context [bind ?c ?k s] =>
      pose proof (bind_ends c k) as Hends;
      destruct (bind c k s) as [[id|e|] s'] eqn:Hbody end.
    + rewrite (disconnect_result s' (Hexn _)). simpl.
      destruct (_connected s') eqn:Hc; [reflexivity | exact Hc].
    + rewrite (disconnect_result s' (Hexn _)). simpl.
      destruct (_connected s') eqn:Hc; [reflexivity | exact Hc].
    + exfalso. apply (Hends connect_ends) with (s := s).
      * intros _ s0. apply bind_ends; [apply start_stream_ends|].
        intros id s1. apply bind_ends; [apply end_stream_ends|].
        intros _ s2. discriminate.
      * rewrite Hbody. reflexivity.
  - intros stream_id. unfold quick_generate, try_finally.
    match goal with |- context [bind ?c ?k s] =>
      destruct (bind c k s) as [[id|e|] s'] eqn:Hbody end.
    + rewrite (disconnect_result s' (Hexn _)). simpl. intros _.
      apply bind_returns_inv in Hbody.
      destruct Hbody as ([] & s1 & Hconnect & Hbody).
      apply bind_returns_inv in Hbody.
      destruct Hbody as (id' & s2 & Hstart & Hbody).
      apply bind_returns_inv in Hbody.
      destruct Hbody as ([] & s3 & Hend & Hbody).
      injection Hbody as -> ->.
      apply start_stream_returns in Hstart. destruct Hstart as [Hc2 Hcalls2].
      pose proof (EndStream.end_stream_connected client s2) as Hc3.
      destruct (end_stream_calls s2) as [l Hcalls3].
      rewrite Hend in Hc3, Hcalls3. simpl in Hc3, Hcalls3.
      rewrite Hc3, Hc2. cbn [_current_stream_id client_calls].
      split; [reflexivity|]. split.
      * rewrite Hcalls3, Hcalls2. apply in_or_app. left. apply in_or_app.
        left. apply in_or_app. right. left. reflexivity.
      * apply last_snoc.
    + rewrite (disconnect_result s' (Hexn _)). simpl. discriminate.
    + simpl. discriminate.
  - intros e Hconn Hrefuse. session_unfold. rewrite Hconn. simpl.
    rewrite Hrefuse. simpl. rewrite Hconn. reflexivity.
Qed.

End WithClient.

Lemma disconnect_always_disconnects_witness :
  fst (disconnect Examples.accepting_client Examples.streaming_session)
  = Ret tt /\
  _connected
    (snd (disconnect Examples.accepting_client Examples.streaming_session))
  = false /\
  (_connected Examples.streaming_session = true ->
   _current_stream_id
     (snd (disconnect Examples.accepting_client Examples.streaming_session))
   = None /\
   client_calls
     (snd (disconnect Examples.accepting_client Examples.streaming_session))
   = (client_calls Examples.streaming_session ++ [ClientDisconnect])%list) /\
  (_connected Examples.streaming_session = false ->
   snd (disconnect Examples.accepting_client Examples.streaming_session)
   = Examples.streaming_session) /\
  disconnect Examples.accepting_client
    (snd (disconnect Examples.accepting_client Examples.streaming_session))
  = (Ret tt,
     snd (disconnect Examples.accepting_client Examples.streaming_session)).
Proof.
  apply (disconnect_always_disconnects Examples.accepting_client
           Examples.streaming_session).
  intros e He. discriminate He.
Defined.

Lemma fatal_error_keeps_stream_id_witness :
  disconnect Examples.accepting_client
    (snd (_on_error (Raised RuntimeError "lost") true
            Examples.streaming_session))
  = (Ret tt,
     snd (_on_error (Raised RuntimeError "lost") true
            Examples.streaming_session)) /\
  _connected
    (snd (connect Examples.accepting_client
            (snd (_on_error (Raised RuntimeError "lost") true
                    Examples.streaming_session)))) = true /\
  _current_stream_id
    (snd (connect Examples.accepting_client
            (snd (_on_error (Raised RuntimeError "lost") true
                    Examples.streaming_session))))
  = _current_stream_id Examples.streaming_session /\
  client_calls
    (snd (interact Examples.accepting_client "faster"
            (snd (connect Examples.accepting_client
                    (snd (_on_error (Raised RuntimeError "lost") true
                            Examples.streaming_session))))))
  = (client_calls Examples.streaming_session
     ++ [ClientConnect; ClientInteract "faster"])%list /\
  interact Examples.accepting_client "faster"
    (snd (connect Examples.accepting_client
            (snd (_on_disconnected Examples.streaming_session))))
  = (Exn (Raised OdysseyStreamError "Cannot interact: no active stream"),
     snd (connect Examples.accepting_client
            (snd (_on_disconnected Examples.streaming_session)))).
Proof.
  apply (fatal_error_keeps_stream_id Examples.accepting_client
           Examples.streaming_session (Raised RuntimeError "lost") "faster").
  - reflexivity.
  - reflexivity.
  - reflexivity.
Defined.

Lemma quick_generate_always_disconnects_witness :
  _connected
    (snd (quick_generate Examples.accepting_client "A cat playing" 5 true
            initial)) = false /\
  (forall stream_id,
     fst (quick_generate Examples.accepting_client "A cat playing" 5 true
            initial) = Ret stream_id ->
     _current_stream_id
       (snd (quick_generate Examples.accepting_client "A cat playing" 5 true
               initial)) = None /\
     In (ClientStartStream "A cat playing" true)
        (client_calls
           (snd (quick_generate Examples.accepting_client "A cat playing" 5
                   true initial))) /\
     last (client_calls
             (snd (quick_generate Examples.accepting_client "A cat playing" 5
                     true initial)))
     = Some ClientDisconnect) /\
  (forall e,
     _connected initial = false ->
     oc_raises Examples.accepting_client (length (client_calls initial))
       ClientConnect = Some e ->
     quick_generate Examples.accepting_client "A cat playing" 5 true initial
     = (Exn e,
        {| _connected := false;
           _current_stream_id := _current_stream_id initial;
           client_calls := (client_calls initial ++ [ClientConnect])%list |})).
Proof.
  apply (quick_generate_always_disconnects Examples.accepting_client initial
           "A cat playing" 5 true).
  intros n e He. discriminate He.
Defined.

(** The example runs to the end: the stream id is the one the client
    gave, and the client was asked four times. *)
Lemma quick_generate_example :
  quick_generate Examples.accepting_client "A cat playing" 5 true initial
  = (Ret "stream-1",
     {| _connected := false; _current_stream_id := None;
        client_calls := [ClientConnect;
                         ClientStartStream "A cat playing" true;
                         ClientEndStream; ClientDisconnect] |}).
Proof. vm_compute. reflexivity. Qed.

End Session.

(** ** The subscribers of [StreamManager] *)

Module Viewers.
Import StreamManager.

Lemma count_occ_remove_first w l c :
  count_occ Nat.eq_dec (remove_first w l) c
  = if Nat.eqb c w then pred (count_occ Nat.eq_dec l c)
    else count_occ Nat.eq_dec l c.
Proof.
  induction l as [|x l IH]; simpl.
  - destruct (Nat.eqb c w); reflexivity.
  - destruct (Nat.eqb x w) eqn:Hxw.
    + apply Nat.eqb_eq in Hxw. subst x.
      destruct (Nat.eq_dec w c) as [->|Hne].
      * rewrite Nat.eqb_refl. reflexivity.
      * destruct (Nat.eqb c w) eqn:Hcw; [|reflexivity].
        apply Nat.eqb_eq in Hcw. congruence.
    + simpl. destruct (Nat.eq_dec x c) as [->|Hne].
      * rewrite Hxw. rewrite IH, Hxw. reflexivity.
      * exact IH.
Qed.

Lemma existsb_count_occ w l :
  existsb (Nat.eqb w) l = false -> count_occ Nat.eq_dec l w = 0.
Proof.
  induction l as [|x l IH]; simpl; [reflexivity|].
  destruct (Nat.eqb w x) eqn:Hwx; simpl; [discriminate|].
  intros Hrest. destruct (Nat.eq_dec x w) as [->|_].
  - rewrite Nat.eqb_refl in Hwx. discriminate.
  - apply IH. exact Hrest.
Qed.

Lemma remove_first_snoc w l :
  existsb (Nat.eqb w) l = false -> remove_first w (l ++ [w]) = l.
Proof.
  induction l as [|x l IH]; simpl.
  - rewrite Nat.eqb_refl. reflexivity.
  - destruct (Nat.eqb w x) eqn:Hwx; simpl; [discriminate|].
    intros Hrest. rewrite Nat.eqb_sym, Hwx, IH by exact Hrest. reflexivity.
Qed.

(** X20.  [disconnect] never raises and takes one subscription away: the
    websocket is in the list of connections once less than before, or
    as little as before when it was not there, every other websocket as
    often as before; a websocket that was connected twice is still
    subscribed after one [disconnect].  What was delivered stays. *)
Theorem disconnect_removes_one_subscription w s :
  fst (disconnect w s) = Ret tt /\
  (forall c,
     count_occ Nat.eq_dec (active_connections (snd (disconnect w s))) c
     = if Nat.eqb c w
       then pred (count_occ Nat.eq_dec (active_connections s) c)
       else count_occ Nat.eq_dec (active_connections s) c) /\
  is_streaming (snd (disconnect w s)) = is_streaming s /\
  delivered (snd (disconnect w s)) = delivered s.
Proof.
  unfold disconnect. munfold. cbn [fst snd].
  destruct (existsb (Nat.eqb w) (active_connections s)) eqn:Hin;
    cbn [active_connections is_streaming delivered].
  - repeat split. intros c. apply count_occ_remove_first.
  - repeat split. intros c. destruct (Nat.eqb c w) eqn:Hcw; [|reflexivity].
    apply Nat.eqb_eq in Hcw. subst c.
    rewrite (existsb_count_occ _ _ Hin). reflexivity.
Qed.

Section WithSockets.

Variable ws : sockets.

(** X21.  A websocket that is accepted is subscribed last, and when it
    was not subscribed before, [disconnect] brings the list of
    connections back to what it was; a websocket whose [accept] raises
    is not subscribed. *)
Theorem connect_then_disconnect w s :
  existsb (Nat.eqb w) (active_connections s) = false ->
  match ws_accept ws w with
  | None =>
      fst (connect ws w s) = Ret tt /\
      active_connections (snd (connect ws w s))
      = (active_connections s ++ [w])%list /\
      active_connections (snd (disconnect w (snd (connect ws w s))))
      = active_connections s
  | Some e => connect ws w s = (Exn e, s)
  end.
Proof.
  intros Hnew. unfold connect, disconnect. munfold.
  destruct (ws_accept ws w) as [e|]; [reflexivity|].
  cbn [fst snd active_connections].
  split; [reflexivity|]. split; [reflexivity|].
  rewrite existsb_app. cbn [existsb]. rewrite Nat.eqb_refl, orb_true_r.
  cbn [active_connections]. apply remove_first_snoc. exact Hnew.
Qed.

Lemma count_occ_filter (f : websocket -> bool) l c :
  count_occ Nat.eq_dec (List.filter f l) c
  = if f c then count_occ Nat.eq_dec l c else 0.
Proof.
  induction l as [|x l IH]; simpl; [destruct (f c); reflexivity|].
  destruct (f x) eqn:Hx; simpl.
  - destruct (Nat.eq_dec x c) as [->|Hne]; [|exact IH].
    rewrite IH, Hx. reflexivity.
  - rewrite IH. destruct (Nat.eq_dec x c) as [->|Hne]; [|reflexivity].
    rewrite Hx. reflexivity.
Qed.

(** As many sends to a websocket end well as were started on it. *)
Lemma takers_completion_order message l c :
  count_occ Nat.eq_dec (takers ws message (completion_order ws message l)) c
  = count_occ Nat.eq_dec (takers ws message l) c.
Proof.
  unfold takers. rewrite !count_occ_filter.
  rewrite (proj1 (Permutation_count_occ Nat.eq_dec _ _)
             (Broadcast.completion_order_perm ws message l) c).
  reflexivity.
Qed.

Lemma texts_of_sends (message : json) l c :
  map snd (List.filter (fun p : websocket * json => Nat.eqb (fst p) c)
             (map (fun x => (x, message)) l))
  = replicate (count_occ Nat.eq_dec l c) message.
Proof.
  induction l as [|x l IH]; simpl; [reflexivity|].
  destruct (Nat.eq_dec x c) as [->|Hne].
  - rewrite Nat.eqb_refl. simpl. rewrite IH. reflexivity.
  - apply Nat.eqb_neq in Hne. rewrite Hne. exact IH.
Qed.

(** X22.  Two frames broadcast one after the other: both calls return,
    the list of connections is the same after them, and every websocket
    has taken, after what it had taken before, first the first frame
    and then the second, each once for every time the websocket is in
    the list and its send did not fail, in whatever order the sends of
    one broadcast ended. *)
Theorem broadcasts_arrive_in_order frame1 frame2 s c :
  fst (broadcast_frame ws frame1 s) = Ret tt /\
  fst (broadcast_frame ws frame2 (snd (broadcast_frame ws frame1 s)))
  = Ret tt /\
  active_connections
    (snd (broadcast_frame ws frame2 (snd (broadcast_frame ws frame1 s))))
  = active_connections s /\
  received c
    (snd (broadcast_frame ws frame2 (snd (broadcast_frame ws frame1 s))))
  = (received c s
     ++ replicate
          (count_occ Nat.eq_dec
             (takers ws (frame_message frame1) (active_connections s)) c)
          (frame_message frame1)
     ++ replicate
          (count_occ Nat.eq_dec
             (takers ws (frame_message frame2) (active_connections s)) c)
          (frame_message frame2))%list.
Proof.
  destruct (Broadcast.broadcast_frame_spec ws frame1 s) as (Hret & Hconns & Hdel).
  destruct (Broadcast.broadcast_frame_spec ws frame2
              (snd (broadcast_frame ws frame1 s))) as (Hret' & Hconns' & Hdel').
  split; [exact Hret|]. split; [exact Hret'|]. split.
  - rewrite Hconns', Hconns. reflexivity.
  - unfold received. rewrite Hdel', Hdel, Hconns.
    rewrite !List.filter_app, !map_app, !texts_of_sends.
    rewrite !takers_completion_order, <- app_assoc. reflexivity.
Qed.

End WithSockets.

Lemma connect_then_disconnect_witness :
  fst (connect Examples.one_closed_socket 4 Examples.three_viewers) = Ret tt /\
  active_connections
    (snd (connect Examples.one_closed_socket 4 Examples.three_viewers))
  = (active_connections Examples.three_viewers ++ [4])%list /\
  active_connections
    (snd (disconnect 4
            (snd (connect Examples.one_closed_socket 4
                    Examples.three_viewers))))
  = active_connections Examples.three_viewers.
Proof.
  apply (connect_then_disconnect Examples.one_closed_socket 4
           Examples.three_viewers).
  reflexivity.
Defined.

(** Of three websockets that all take the frame, the last in the list
    is the first to have it when its send is the fastest. *)
Lemma fastest_viewer_first :
  delivered (snd (broadcast_frame MoreExamples.last_is_fastest "AAAA"
                    Examples.three_viewers))
  = [(3, frame_message "AAAA"); (2, frame_message "AAAA");
     (1, frame_message "AAAA")].
Proof. vm_compute. reflexivity. Qed.

End Viewers.

(** ** The backend's client: scenes and their status *)

Module Scenes.
Import OdysseyClient.

Section WithClient.

Variable cl : client.

Lemma nonempty_false i : negb (nonempty i) = true -> i = "".
Proof.
  unfold nonempty. rewrite negb_involutive. apply String.eqb_eq.
Qed.

(** X23.  [get_job_status] raises [ValueError], without asking the
    client, exactly when no job id is given or stored; no [Exception]
    of the client leaves it.  The dictionary it returns is about the id
    given, or else the id stored; it has a video url only for a
    completed job, and then a url that is not empty and the id of the
    stream; it has an error only with the status ['failed'] or
    ['error'].  The stored job id is never changed. *)
Theorem get_job_status_shape job_id s :
  (forall r, fst (get_job_status cl job_id s) = inl r ->
     (exists msg, r = ValueError msg /\
                  snd (get_job_status cl job_id s) = s /\
                  (or_else job_id (current_job_id s) = None \/
                   or_else job_id (current_job_id s) = Some "")) \/
     (exists e, r = ClientRaised e /\ is_Exception e = false)) /\
  (forall st, fst (get_job_status cl job_id s) = inr st ->
     or_else job_id (current_job_id s) = Some (js_job_id st) /\
     asked (snd (get_job_status cl job_id s))
     = (asked s ++ [js_job_id st])%list /\
     (forall url, js_video_url st = Some url ->
        js_status st = "completed" /\ nonempty url = true /\
        is_Some (js_stream_id st)) /\
     (is_Some (js_error st) ->
        js_status st = "failed" \/ js_status st = "error")) /\
  current_job_id (snd (get_job_status cl job_id s)) = current_job_id s.
Proof.
  unfold get_job_status.
  destruct (or_else job_id (current_job_id s)) as [i|] eqn:Hid.
  2:{ cbn. split; [|split; [intros st H; discriminate | reflexivity]].
      intros r [= <-]. left. eexists. repeat split. left. reflexivity. }
  destruct (negb (nonempty i)) eqn:Hi.
  { apply nonempty_false in Hi. subst i. cbn.
    split; [|split; [intros st H; discriminate | reflexivity]].
    intros r [= <-]. left. eexists. repeat split. right. reflexivity. }
  destruct (cl_get_simulate_status cl i) as [e|status].
  { destruct (is_Exception e) eqn:He; cbn.
    + split; [intros r H; discriminate|]. split; [|reflexivity].
      intros st [= <-]. cbn. repeat split; try discriminate.
      intros _. right. reflexivity.
    + split; [|split; [intros st H; discriminate | reflexivity]].
      intros r [= <-]. right. exists e. split; [reflexivity | exact He]. }
  destruct (String.eqb (jd_status_value status) "completed") eqn:Hdone;
    destruct (jd_streams status) as [[|stream rest]|];
    try destruct (st_video_url stream) as [url|] eqn:Hurl;
    try destruct (nonempty url) eqn:Hne;
    destruct (String.eqb (jd_status_value status) "failed") eqn:Hfail;
    cbn; (split; [intros r H; discriminate|]); (split; [|reflexivity]);
    intros st [= <-]; cbn; (split; [reflexivity|]); (split; [reflexivity|]).
  all: try (split; [intros u Hu; discriminate|]).
  all: try (intros [x Hx]; discriminate).
  all: try (intros _; left; apply String.eqb_eq; exact Hfail).
  all: split; [|intros [x Hx]; discriminate].
  all: intros u [= <-]; apply String.eqb_eq in Hdone;
    split; [exact Hdone|]; split; [exact Hne | eauto].
Qed.

(** X24.  After [generate_scene] returned, [get_job_status] without a
    job id asks the client about the job that was just made, and with a
    job id about that one.  [generate_scene] answers with the status
    ['processing'] whatever status the client gave the job. *)
Theorem status_follows_generate_scene prompt portrait job s :
  cl_simulate cl (scene_script prompt) portrait = inr job ->
  nonempty (job_job_id job) = true ->
  fst (generate_scene cl prompt portrait s)
  = inr {| sc_job_id := job_job_id job; sc_status := "processing";
           sc_prompt := prompt |} /\
  current_job_id (snd (generate_scene cl prompt portrait s))
  = Some (job_job_id job) /\
  asked (snd (get_job_status cl None
                (snd (generate_scene cl prompt portrait s))))
  = (asked s ++ [job_job_id job])%list /\
  (forall other,
     nonempty other = true ->
     asked (snd (get_job_status cl (Some other)
                   (snd (generate_scene cl prompt portrait s))))
     = (asked s ++ [other])%list).
Proof.
  intros Hjob Hid. unfold generate_scene. rewrite Hjob. cbn [fst snd].
  split; [reflexivity|]. split; [reflexivity|].
  assert (Hasked :
    forall arg i,
      or_else arg (Some (job_job_id job)) = Some i -> nonempty i = true ->
      asked (snd (get_job_status cl arg
                    {| current_job_id := Some (job_job_id job);
                       asked := asked s |}))
      = (asked s ++ [i])%list).
  { intros arg i Hor Hi. unfold get_job_status. cbn [current_job_id].
    rewrite Hor, Hi. cbn [negb asked].
    destruct (cl_get_simulate_status cl i) as [e|status].
    - destruct (is_Exception e); reflexivity.
    - destruct (String.eqb (jd_status_value status) "completed");
        destruct (jd_streams status) as [[|stream rest]|];
        try destruct (st_video_url stream) as [url|];
        try destruct (nonempty url);
        destruct (String.eqb (jd_status_value status) "failed");
        reflexivity. }
  split.
  - apply Hasked; [reflexivity | exact Hid].
  - intros other Hother. apply Hasked; [|exact Hother].
    unfold or_else. rewrite Hother. reflexivity.
Qed.

End WithClient.

Lemma status_follows_generate_scene_witness :
  fst (generate_scene MoreExamples.scene_client "a red car" false
         MoreExamples.no_job_yet)
  = inr {| sc_job_id := "job-7"; sc_status := "processing";
           sc_prompt := "a red car" |} /\
  current_job_id
    (snd (generate_scene MoreExamples.scene_client "a red car" false
            MoreExamples.no_job_yet)) = Some "job-7" /\
  asked (snd (get_job_status MoreExamples.scene_client None
                (snd (generate_scene MoreExamples.scene_client "a red car"
                        false MoreExamples.no_job_yet))))
  = (asked MoreExamples.no_job_yet ++ ["job-7"])%list /\
  (forall other,
     nonempty other = true ->
     asked (snd (get_job_status MoreExamples.scene_client (Some other)
                   (snd (generate_scene MoreExamples.scene_client "a red car"
                           false MoreExamples.no_job_yet))))
     = (asked MoreExamples.no_job_yet ++ [other])%list).
Proof.
  apply (status_follows_generate_scene MoreExamples.scene_client "a red car"
           false (Build_job "job-7" "pending") MoreExamples.no_job_yet).
  - reflexivity.
  - reflexivity.
Defined.

End Scenes.

(** ** From speech to a prompt *)

Module Keywords.
Import KeywordExtractor.

(** A word found under a category is in the dictionary under that
    category, the names of the categories being those of a [dict]: no
    name twice. *)
Lemma category_words_named (d : dictionary) c words :
  category_words d c = Some words -> c ∈ d.*1.
Proof.
  induction d as [|[c0 wd] rest IH]; simpl; [discriminate|].
  destruct (String.eqb c0 c) eqn:Hc.
  - apply String.eqb_eq in Hc. subst c0. intros _. apply elem_of_cons. by left.
  - intros H. apply elem_of_cons. right. apply IH. exact H.
Qed.

Lemma category_of_sound (d : dictionary) w c :
  NoDup d.*1 ->
  category_of d w = Some c ->
  exists words frag, category_words d c = Some words /\ words !! w = Some frag.
Proof.
  induction d as [|[c0 wd] rest IH]; simpl; [discriminate|].
  intros Hnodup. apply NoDup_cons in Hnodup. destruct Hnodup as [Hfresh Hrest].
  destruct (wd !! w) as [frag|] eqn:Hw.
  - intros [= <-]. rewrite String.eqb_refl. eauto.
  - intros Hc. destruct (IH Hrest Hc) as (words & frag & Hwords & Hfrag).
    destruct (String.eqb c0 c) eqn:Hcc.
    + apply String.eqb_eq in Hcc. subst c0. exfalso. apply Hfresh.
      eapply category_words_named. exact Hwords.
    + eauto.
Qed.

(** The loop of [extract_keywords]. *)
Lemma scan_spec (d : dictionary) words :
  forall (keywords : list (string * string)) (seen : gset string),
    (forall w, w ∈ seen <-> w ∈ keywords.*1) ->
    NoDup keywords.*1 ->
    (forall w c, (w, c) ∈ keywords -> category_of d w = Some c) ->
    NoDup (scan d words keywords seen).*1 /\
    (forall w c, (w, c) ∈ scan d words keywords seen ->
       (w, c) ∈ keywords \/ (w ∈ words /\ category_of d w = Some c)) /\
    (forall w c, (w, c) ∈ keywords -> (w, c) ∈ scan d words keywords seen) /\
    (forall w c, w ∈ words -> category_of d w = Some c ->
                 (w, c) ∈ scan d words keywords seen).
Proof.
  induction words as [|word rest IH]; intros keywords seen Hseen Hnodup Hsound;
    simpl.
  - split; [exact Hnodup|]. split; [auto|]. split; [auto|].
    intros w c Hw. apply elem_of_nil in Hw. contradiction.
  - destruct (decide (word ∈ seen)) as [Hin|Hout].
    + destruct (IH keywords seen Hseen Hnodup Hsound) as (H1 & H2 & H3 & H4).
      split; [exact H1|]. split; [|split; [exact H3|]].
      * intros w c Hwc. destruct (H2 w c Hwc) as [Hk|[Hw Hc]]; [by left|].
        right. split; [|exact Hc]. apply elem_of_cons. by right.
      * intros w c Hw Hc. apply elem_of_cons in Hw.
        destruct Hw as [->|Hw]; [|by apply H4].
        apply H3. apply Hseen in Hin. apply list_elem_of_fmap in Hin.
        destruct Hin as ([w' c'] & Hfst & Hk). simpl in Hfst. subst w'.
        pose proof (Hsound _ _ Hk) as Hc'. rewrite Hc in Hc'.
        injection Hc' as <-. exact Hk.
    + destruct (category_of d word) as [category|] eqn:Hcat.
      * destruct (IH (keywords ++ [(word, category)])%list ({[word]} ∪ seen))
          as (H1 & H2 & H3 & H4).
        { intros w. rewrite fmap_app, elem_of_app. simpl.
          rewrite list_elem_of_singleton, elem_of_union, elem_of_singleton.
          rewrite Hseen. tauto. }
        { rewrite fmap_app. apply NoDup_app. split; [exact Hnodup|].
          split; [|apply NoDup_singleton].
          intros w Hw. simpl. rewrite list_elem_of_singleton. intros ->.
          apply Hout. apply Hseen. exact Hw. }
        { intros w c Hwc. apply elem_of_app in Hwc.
          destruct Hwc as [Hk|Hnew]; [by apply Hsound|].
          apply list_elem_of_singleton in Hnew. injection Hnew as -> ->.
          exact Hcat. }
        split; [exact H1|]. split; [|split].
        -- intros w c Hwc. destruct (H2 w c Hwc) as [Hk|[Hw Hc]].
           ++ apply elem_of_app in Hk. destruct Hk as [Hk|Hnew]; [by left|].
              apply list_elem_of_singleton in Hnew. injection Hnew as -> ->.
              right. split; [apply elem_of_cons; by left | exact Hcat].
           ++ right. split; [apply elem_of_cons; by right | exact Hc].
        -- intros w c Hk. apply H3. apply elem_of_app. by left.
        -- intros w c Hw Hc. apply elem_of_cons in Hw.
           destruct Hw as [->|Hw]; [|by apply H4].
           apply H3. apply elem_of_app. right.
           rewrite Hcat in Hc. injection Hc as <-.
           apply list_elem_of_singleton. reflexivity.
      * destruct (IH keywords seen Hseen Hnodup Hsound) as (H1 & H2 & H3 & H4).
        split; [exact H1|]. split; [|split; [exact H3|]].
        -- intros w c Hwc. destruct (H2 w c Hwc) as [Hk|[Hw Hc]]; [by left|].
           right. split; [|exact Hc]. apply elem_of_cons. by right.
        -- intros w c Hw Hc. apply elem_of_cons in Hw.
           destruct Hw as [->|Hw]; [|by apply H4].
           rewrite Hcat in Hc. discriminate.
Qed.

Section WithDictionary.

Variable findall : string -> list string.
Variable d : dictionary.

Lemma extract_keywords_spec text :
  NoDup (extract_keywords findall d text).*1 /\
  (forall w c, (w, c) ∈ extract_keywords findall d text <->
               w ∈ findall text /\ category_of d w = Some c).
Proof.
  unfold extract_keywords.
  destruct (scan_spec d (findall text) [] ∅) as (H1 & H2 & _ & H4).
  - intros w. simpl. rewrite elem_of_nil. set_solver.
  - apply NoDup_nil. exact I.
  - intros w c Hwc. apply elem_of_nil in Hwc. contradiction.
  - split; [exact H1|]. intros w c. split.
    + intros Hwc. destruct (H2 w c Hwc) as [Hk|H]; [|exact H].
      apply elem_of_nil in Hk. contradiction.
    + intros [Hw Hc]. apply H4; assumption.
Qed.

(** X25.  [extract_keywords] gives every word at most once, and the
    keywords are the words of the text that some category of the
    dictionary has, each with the first category that has it. *)
Theorem extract_keywords_known_words_once text :
  NoDup (extract_keywords findall d text).*1 /\
  (forall w c, (w, c) ∈ extract_keywords findall d text <->
               w ∈ findall text /\ category_of d w = Some c).
Proof. exact (extract_keywords_spec text). Qed.

Lemma sort_fragments_returns keywords :
  (forall w c, (w, c) ∈ keywords ->
     exists words frag,
       category_words d c = Some words /\ words !! w = Some frag) ->
  forall nouns adjectives verbs,
    exists r, sort_fragments d keywords nouns adjectives verbs = inr r.
Proof.
  induction keywords as [|[word category] rest IH]; intros Hsound n a v; simpl.
  - eauto.
  - destruct (Hsound word category) as (words & frag & -> & ->).
    { apply elem_of_cons. by left. }
    assert (Hrest : forall w c, (w, c) ∈ rest ->
              exists words frag,
                category_words d c = Some words /\ words !! w = Some frag).
    { intros w c Hwc. apply Hsound. apply elem_of_cons. by right. }
    destruct (String.eqb category "nouns"); [apply IH; exact Hrest|].
    destruct (String.eqb category "adjectives"); [apply IH; exact Hrest|].
    destruct (String.eqb category "verbs"); apply IH; exact Hrest.
Qed.

(** X26.  With a dictionary as [json.load] makes it, no category name
    twice, [process_speech] never raises [KeyError]: every keyword that
    [extract_keywords] gives is found again by [build_prompt]. *)
Theorem process_speech_never_raises text :
  NoDup d.*1 ->
  exists prompt, process_speech findall d text = inr prompt.
Proof.
  intros Hnodup. unfold process_speech, build_prompt.
  destruct (extract_keywords findall d text) as [|kw rest] eqn:Hkw; [eauto|].
  destruct (sort_fragments_returns (kw :: rest)) with (nouns := @nil string)
    (adjectives := @nil string) (verbs := @nil string) as [[[n a] v] Hr].
  - intros w c Hwc. rewrite <- Hkw in Hwc.
    apply (proj2 (extract_keywords_spec text)) in Hwc.
    destruct Hwc as [_ Hc]. eapply category_of_sound; eauto.
  - rewrite Hr. eauto.
Qed.

(** The loop of [build_prompt]: each list grows by the fragments of its
    category. *)
Lemma sort_fragments_spec keywords :
  forall nouns adjectives verbs r,
    sort_fragments d keywords nouns adjectives verbs = inr r ->
    r = ((nouns ++ fragments_in d "nouns" keywords)%list,
         (adjectives ++ fragments_in d "adjectives" keywords)%list,
         (verbs ++ fragments_in d "verbs" keywords)%list).
Proof.
  induction keywords as [|[word category] rest IH]; intros n a v r;
    cbn [sort_fragments].
  - intros [= <-]. unfold fragments_in. cbn [omap list_omap].
    rewrite !app_nil_r. reflexivity.
  - unfold fragments_in. cbn [omap list_omap fst snd].
    fold (fragments_in d "nouns" rest). fold (fragments_in d "adjectives" rest).
    fold (fragments_in d "verbs" rest).
    destruct (category_words d category) as [words|]; [|discriminate].
    destruct (words !! word) as [frag|]; [|discriminate].
    destruct (String.eqb category "nouns") eqn:Hn.
    { apply String.eqb_eq in Hn. subst category. cbn. intros Hr.
      rewrite (IH _ _ _ _ Hr), <- app_assoc. reflexivity. }
    destruct (String.eqb category "adjectives") eqn:Ha.
    { apply String.eqb_eq in Ha. subst category. cbn. intros Hr.
      rewrite (IH _ _ _ _ Hr), <- app_assoc. reflexivity. }
    destruct (String.eqb category "verbs") eqn:Hv.
    { apply String.eqb_eq in Hv. subst category. cbn. intros Hr.
      rewrite (IH _ _ _ _ Hr), <- app_assoc. reflexivity. }
    intros Hr. exact (IH _ _ _ _ Hr).
Qed.

(** X27.  The prompt [build_prompt] makes of a list of keywords that is
    not empty has the fragments of the adjectives first, then those of
    the nouns, then those of the verbs, each group in the order of the
    keywords and all joined by a comma and a space, wherever the
    keywords stood in the list; a keyword of another category adds
    nothing. *)
Theorem build_prompt_orders_by_category kw rest prompt :
  build_prompt d (kw :: rest) = inr prompt ->
  prompt = join ", " (fragments_in d "adjectives" (kw :: rest)
                      ++ fragments_in d "nouns" (kw :: rest)
                      ++ fragments_in d "verbs" (kw :: rest))%list.
Proof.
  unfold build_prompt.
  destruct (sort_fragments d (kw :: rest) [] [] []) as [e|[[n a] v]] eqn:Hr;
    [discriminate|].
  apply sort_fragments_spec in Hr. injection Hr as -> -> ->.
  intros [= <-]. reflexivity.
Qed.

End WithDictionary.

Lemma process_speech_never_raises_witness :
  exists prompt,
    process_speech MoreExamples.red_car_flying MoreExamples.small_dictionary
      "red car flying red" = inr prompt.
Proof.
  apply (process_speech_never_raises MoreExamples.red_car_flying
           MoreExamples.small_dictionary "red car flying red").
  apply (bool_decide_unpack _). vm_compute. exact I.
Defined.

Lemma build_prompt_orders_by_category_witness :
  "bright red, a car on a road, flying through the sky"
  = join ", "
      (fragments_in MoreExamples.small_dictionary "adjectives"
         [("car", "nouns"); ("flying", "verbs"); ("red", "adjectives")]
       ++ fragments_in MoreExamples.small_dictionary "nouns"
            [("car", "nouns"); ("flying", "verbs"); ("red", "adjectives")]
       ++ fragments_in MoreExamples.small_dictionary "verbs"
            [("car", "nouns"); ("flying", "verbs"); ("red", "adjectives")])%list.
Proof.
  apply (build_prompt_orders_by_category MoreExamples.small_dictionary
           ("car", "nouns") [("flying", "verbs"); ("red", "adjectives")]
           "bright red, a car on a road, flying through the sky").
  vm_compute. reflexivity.
Defined.

(** The phrase of the example: the second [red] is passed over, and the
    adjective comes first. *)
Lemma process_speech_example :
  process_speech MoreExamples.red_car_flying MoreExamples.small_dictionary
    "red car flying red"
  = inr "bright red, a car on a road, flying through the sky".
Proof. vm_compute. reflexivity. Qed.

End Keywords.
